(** * Portfolio API server (src/server.js)

    A shallow embedding of the Express server of src/server.js and of the
    parts of its JavaScript environment it relies on: JSON.stringify and
    JSON.parse, object literals with spread, the data file, the uuid
    generator and the clock.

    Conventions.
    - A JavaScript string is a list of UTF-16 code units ([jsstring]).
    - JavaScript numbers are IEEE doubles; their conversion from and to text
      is not modelled: the development is parametric in an interface
      [JSNumber], and runs on the instance [IntegerNumbers].
    - An [async] function is a computation in the monad [M]: it threads the
      state of the outside world and may throw.  A handler such as
      [post_portfolios] runs to its end before the next request starts;
      for requests in flight at once, [post_portfolios_begin],
      [delete_portfolio_begin] and [settle] are the parts of a handler before
      and after it awaits the write. *)

From Stdlib Require Import String Ascii List ZArith NArith Arith Bool Lia.
From Stdlib Require Import DecimalN.
From Stdlib Require DecimalFacts.
Import ListNotations.

Set Implicit Arguments.

(* ===================================================================== *)
(** ** Strings of code units *)

Definition jsstring := list N.

Definition ch (a : ascii) : N := N_of_ascii a.

Definition js (s : string) : jsstring := map ch (list_ascii_of_string s).

(** The double quote. *)
Definition QUOTE : N := 34.

Fixpoint jsstring_eqb (a b : jsstring) : bool :=
  match a, b with
  | [], [] => true
  | x :: a', y :: b' => N.eqb x y && jsstring_eqb a' b'
  | _, _ => false
  end.

(** [sep.join(parts)] *)
Fixpoint join (sep : jsstring) (parts : list jsstring) : jsstring :=
  match parts with
  | [] => []
  | [p] => p
  | p :: rest => p ++ sep ++ join sep rest
  end.

(** Texts of ASCII characters. *)
Definition ascii_text (s : jsstring) : bool := forallb (fun c => N.ltb c 128) s.

Definition is_digit (c : N) : bool := N.leb 48 c && N.leb c 57.

(** Decimal digits of a natural number, most significant first. *)
Fixpoint uint_units (d : Decimal.uint) : jsstring :=
  match d with
  | Decimal.Nil => []
  | Decimal.D0 d => 48%N :: uint_units d
  | Decimal.D1 d => 49%N :: uint_units d
  | Decimal.D2 d => 50%N :: uint_units d
  | Decimal.D3 d => 51%N :: uint_units d
  | Decimal.D4 d => 52%N :: uint_units d
  | Decimal.D5 d => 53%N :: uint_units d
  | Decimal.D6 d => 54%N :: uint_units d
  | Decimal.D7 d => 55%N :: uint_units d
  | Decimal.D8 d => 56%N :: uint_units d
  | Decimal.D9 d => 57%N :: uint_units d
  end.

Definition decimal_of_N (n : N) : jsstring := uint_units (N.to_uint n).

Definition digit_of (c : N) (d : Decimal.uint) : option Decimal.uint :=
  if N.eqb c 48 then Some (Decimal.D0 d)
  else if N.eqb c 49 then Some (Decimal.D1 d)
  else if N.eqb c 50 then Some (Decimal.D2 d)
  else if N.eqb c 51 then Some (Decimal.D3 d)
  else if N.eqb c 52 then Some (Decimal.D4 d)
  else if N.eqb c 53 then Some (Decimal.D5 d)
  else if N.eqb c 54 then Some (Decimal.D6 d)
  else if N.eqb c 55 then Some (Decimal.D7 d)
  else if N.eqb c 56 then Some (Decimal.D8 d)
  else if N.eqb c 57 then Some (Decimal.D9 d)
  else None.

(** The decimal number that a string of digits writes. *)
Fixpoint uint_of_units (s : jsstring) : option Decimal.uint :=
  match s with
  | [] => Some Decimal.Nil
  | c :: r =>
      match uint_of_units r with
      | Some d => digit_of c d
      | None => None
      end
  end.

(** No leading zero, and at least one digit. *)
Definition canonical (d : Decimal.uint) : bool :=
  match d with
  | Decimal.Nil => false
  | Decimal.D0 Decimal.Nil => true
  | Decimal.D0 _ => false
  | _ => true
  end.

(** Value of a string of decimal digits. *)
Definition digits_value (s : jsstring) : N :=
  fold_left (fun acc c => (10 * acc + (c - 48))%N) s 0%N.

(** Hexadecimal digits, lower case, as JSON.stringify writes them. *)
Definition hex_digit (d : N) : N :=
  if N.ltb d 10 then (48 + d)%N else (87 + d)%N.

Definition hex4 (c : N) : jsstring :=
  [ hex_digit (N.modulo (N.div c 4096) 16); hex_digit (N.modulo (N.div c 256) 16);
    hex_digit (N.modulo (N.div c 16) 16); hex_digit (N.modulo c 16) ].

Definition hex2 (c : N) : jsstring :=
  [ hex_digit (N.modulo (N.div c 16) 16); hex_digit (N.modulo c 16) ].

(** A hexadecimal digit of either case, as JSON.parse reads them. *)
Definition hex_value (c : N) : option N :=
  if is_digit c then Some (c - 48)%N
  else if N.leb 97 c && N.leb c 102 then Some (c - 87)%N
  else if N.leb 65 c && N.leb c 70 then Some (c - 55)%N
  else None.

Definition unhex4 (h1 h2 h3 h4 : N) : option N :=
  match hex_value h1, hex_value h2, hex_value h3, hex_value h4 with
  | Some a, Some b, Some c, Some d => Some (((a * 16 + b) * 16 + c) * 16 + d)%N
  | _, _, _, _ => None
  end.

(* ===================================================================== *)
(** ** Numbers

    The operations of JavaScript numbers that the server reaches, through
    JSON.stringify ([isFinite], [NumberToString]), JSON.parse
    ([StringToNumber], applied to a token of the JSON number grammar) and
    [Array.prototype.length] ([NumberOfNat]). *)

Class JSNumber : Type := {
  number : Type;
  isFinite : number -> bool;
  NumberToString : number -> jsstring;
  StringToNumber : jsstring -> number;
  NumberOfNat : nat -> number
}.

(** An instance to run the model on: integers of any size stand for the
    doubles, next to negative zero and the two infinities.  A literal with a
    fraction is cut to its integer part; a literal at or above
    2^1024 - 2^970 in magnitude overflows to an infinity, as it does for
    doubles. *)
Inductive integer_number : Type :=
  | IntFinite (z : Z)
  | IntNegZero
  | IntInfinity (negative : bool).

Definition int_isFinite (n : integer_number) : bool :=
  match n with IntInfinity _ => false | _ => true end.

Definition int_NumberToString (n : integer_number) : jsstring :=
  match n with
  | IntFinite z =>
      if Z.ltb z 0 then ch "-" :: decimal_of_N (Z.abs_N z) else decimal_of_N (Z.abs_N z)
  | IntNegZero => js "0"
  | IntInfinity true => js "-Infinity"
  | IntInfinity false => js "Infinity"
  end.

Fixpoint take_digits (s : jsstring) : jsstring * jsstring :=
  match s with
  | c :: r => if is_digit c then let (d, rest) := take_digits r in (c :: d, rest) else ([], s)
  | [] => ([], [])
  end.

Definition double_overflow : N := (2 ^ 1024 - 2 ^ 970)%N.

Definition int_StringToNumber (tok : jsstring) : integer_number :=
  let (negative, body) :=
    match tok with
    | c :: r => if N.eqb c (ch "-") then (true, r) else (false, tok)
    | [] => (false, tok)
    end in
  let (int_part, r1) := take_digits body in
  let (frac_part, r2) :=
    match r1 with
    | c :: r => if N.eqb c (ch ".") then take_digits r else ([], r1)
    | [] => ([], r1)
    end in
  let exponent : Z :=
    match r2 with
    | _ :: c :: r =>
        if N.eqb c (ch "-") then (- Z.of_N (digits_value r))%Z
        else if N.eqb c (ch "+") then Z.of_N (digits_value r)
        else Z.of_N (digits_value (c :: r))
    | _ => 0%Z
    end in
  let mantissa := digits_value (int_part ++ frac_part) in
  let scale := (exponent - Z.of_nat (length frac_part))%Z in
  let magnitude :=
    if Z.leb 0 scale then (mantissa * 10 ^ Z.to_N scale)%N
    else (mantissa / 10 ^ Z.to_N (- scale))%N in
  if N.leb double_overflow magnitude then IntInfinity negative
  else if N.eqb magnitude 0 && negative then IntNegZero
  else IntFinite (if negative then (- Z.of_N magnitude)%Z else Z.of_N magnitude).

#[export] Instance IntegerNumbers : JSNumber := {
  number := integer_number;
  isFinite := int_isFinite;
  NumberToString := int_NumberToString;
  StringToNumber := int_StringToNumber;
  NumberOfNat := fun n => IntFinite (Z.of_nat n)
}.

(* ===================================================================== *)
(** ** The outside world and the monad of [async] functions *)

(** A thrown [Error] object; the handlers read its [message]. *)
Record exn : Type := Error { exn_name : jsstring; message : jsstring }.

Definition TypeError (msg : string) : exn := Error (js "TypeError") (js msg).
Definition RangeError (msg : string) : exn := Error (js "RangeError") (js msg).

(** A file-system call that fails: the error it rejects with and, for a
    write, what it leaves of the file. *)
Record fault : Type := Fault { fault_error : exn; fault_leaves : option jsstring }.

Inductive fs_call : Type :=
  | Access
  | ReadFile
  | WriteFile (data : jsstring).

Record World : Type := mkWorld {
  disk : option jsstring;          (* text of DATA_FILE, [None] when it does not exist *)
  fs_faults : list (option fault); (* fate of the file-system calls to come, in order *)
  fs_calls : list fs_call;         (* the file-system calls made so far *)
  entropy : list (list N);         (* the 16 random bytes of each uuidv4() to come *)
  clock : list Z;                  (* the time value of each new Date() to come *)
  console : list (jsstring * exn)  (* what console.error printed *)
}.

Inductive result (A : Type) : Type :=
  | Return (a : A)
  | Throw (e : exn).
Arguments Return {A} a.
Arguments Throw {A} e.

Definition M (A : Type) : Type := World -> result A * World.

Definition ret {A} (a : A) : M A := fun w => (Return a, w).

Definition throw {A} (e : exn) : M A := fun w => (Throw e, w).

Definition bind {A B} (m : M A) (k : A -> M B) : M B :=
  fun w => match m w with
           | (Return a, w') => k a w'
           | (Throw e, w') => (Throw e, w')
           end.

(** [try { m } catch (error) { handler }] *)
Definition try_catch {A} (m : M A) (handler : exn -> M A) : M A :=
  fun w => match m w with
           | (Return a, w') => (Return a, w')
           | (Throw e, w') => handler e w'
           end.

Declare Scope js_scope.
Delimit Scope js_scope with js.
Notation "x <- m ;; k" := (bind m (fun x => k))
  (at level 61, m at next level, right associativity) : js_scope.
Notation "m ;; k" := (bind m (fun _ => k))
  (at level 61, right associativity) : js_scope.
Open Scope js_scope.

Definition lift {A} (r : result A) : M A := fun w => (r, w).

Definition next_fault (w : World) : option fault := hd None (fs_faults w).

Definition called (c : fs_call) (d : option jsstring) (w : World) : World :=
  mkWorld d (tl (fs_faults w)) (fs_calls w ++ [c]) (entropy w) (clock w) (console w).

Definition ENOENT : exn :=
  Error (js "Error") (js "ENOENT: no such file or directory, open 'portfolios.json'").

(** [fs.access(DATA_FILE)] *)
Definition fs_access : M unit := fun w =>
  match next_fault w, disk w with
  | Some f, _ => (Throw (fault_error f), called Access (disk w) w)
  | None, None => (Throw ENOENT, called Access (disk w) w)
  | None, Some _ => (Return tt, called Access (disk w) w)
  end.

(** [fs.readFile(DATA_FILE, 'utf8')] *)
Definition fs_readFile : M jsstring := fun w =>
  match next_fault w, disk w with
  | Some f, _ => (Throw (fault_error f), called ReadFile (disk w) w)
  | None, None => (Throw ENOENT, called ReadFile (disk w) w)
  | None, Some text => (Return text, called ReadFile (disk w) w)
  end.

Definition is_high_surrogate (c : N) : bool := N.leb 55296 c && N.leb c 56319.
Definition is_low_surrogate (c : N) : bool := N.leb 56320 c && N.leb c 57343.

Definition is_surrogate (c : N) : bool := is_high_surrogate c || is_low_surrogate c.

(** Texts in which every surrogate is part of a pair. *)
Inductive scalar_text : jsstring -> Prop :=
  | scalar_nil : scalar_text []
  | scalar_unit (c : N) (s : jsstring) :
      is_surrogate c = false -> scalar_text s -> scalar_text (c :: s)
  | scalar_pair (c d : N) (s : jsstring) :
      is_high_surrogate c = true -> is_low_surrogate d = true -> scalar_text s ->
      scalar_text (c :: d :: s).

(** What comes back of a string written as UTF-8 and read as UTF-8: a
    surrogate that is not part of a pair is replaced by U+FFFD. *)
Fixpoint utf8_roundtrip (s : jsstring) : jsstring :=
  match s with
  | [] => []
  | c :: r =>
      if is_high_surrogate c then
        match r with
        | d :: r' => if is_low_surrogate d then c :: d :: utf8_roundtrip r'
                     else 65533%N :: utf8_roundtrip r
        | [] => [65533%N]
        end
      else if is_low_surrogate c then 65533%N :: utf8_roundtrip r
      else c :: utf8_roundtrip r
  end.

(** [fs.writeFile(DATA_FILE, data)]: the whole file is overwritten. *)
Definition fs_writeFile (data : jsstring) : M unit := fun w =>
  match next_fault w with
  | Some f => (Throw (fault_error f), called (WriteFile data) (fault_leaves f) w)
  | None => (Return tt, called (WriteFile data) (Some (utf8_roundtrip data)) w)
  end.

Definition logged (label : string) (e : exn) (w : World) : World :=
  mkWorld (disk w) (fs_faults w) (fs_calls w) (entropy w) (clock w)
          (console w ++ [(js label, e)]).

(** [console.error(label, error)] *)
Definition console_error (label : string) (e : exn) : M unit := fun w =>
  (Return tt, logged label e w).

(** No file-system call to come fails. *)
Definition no_faults (w : World) : Prop := Forall (fun f => f = None) (fs_faults w).

(* ===================================================================== *)
(** ** uuidv4() of the uuid package *)

Definition byte_at (rnds : list N) (i : nat) : N := N.modulo (nth i rnds 0%N) 256.

(** The 16 random bytes with the version and variant bits set, written as
    lower-case hexadecimal in groups of 8-4-4-4-12. *)
Definition uuid_stringify (rnds : list N) : jsstring :=
  let b i := hex2 (byte_at rnds i) in
  let b6 := hex2 (N.lor (N.land (byte_at rnds 6) 15) 64) in
  let b8 := hex2 (N.lor (N.land (byte_at rnds 8) 63) 128) in
  b 0 ++ b 1 ++ b 2 ++ b 3 ++ js "-" ++ b 4 ++ b 5 ++ js "-" ++ b6 ++ b 7 ++ js "-"
    ++ b8 ++ b 9 ++ js "-" ++ b 10 ++ b 11 ++ b 12 ++ b 13 ++ b 14 ++ b 15.

Definition drew (w : World) : World :=
  mkWorld (disk w) (fs_faults w) (fs_calls w) (tl (entropy w)) (clock w) (console w).

Definition uuidv4 : M jsstring := fun w =>
  (Return (uuid_stringify (hd [] (entropy w))), drew w).

(* ===================================================================== *)
(** ** new Date().toISOString() *)

Definition msPerDay : Z := 86400000.

(** Year, month (1 to 12) and day of the month (1 to 31) of a day number
    counted from 1970-01-01, in the proleptic Gregorian calendar. *)
Definition civil_from_days (days : Z) : Z * Z * Z :=
  let z := (days + 719468)%Z in
  let era := (z / 146097)%Z in
  let doe := (z mod 146097)%Z in
  let yoe := ((doe - doe / 1460 + doe / 36524 - doe / 146096) / 365)%Z in
  let doy := (doe - (365 * yoe + yoe / 4 - yoe / 100))%Z in
  let mp := ((5 * doy + 2) / 153)%Z in
  let d := (doy - (153 * mp + 2) / 5 + 1)%Z in
  let m := (if Z.ltb mp 10 then mp + 3 else mp - 9)%Z in
  let y := (yoe + era * 400 + (if Z.leb m 2 then 1 else 0))%Z in
  (y, m, d).

(** The last [width] decimal digits of [n], most significant first. *)
Fixpoint pad (width : nat) (n : Z) : jsstring :=
  match width with
  | O => []
  | S w => pad w (n / 10) ++ [Z.to_N (48 + n mod 10)]
  end.

Definition iso_year (y : Z) : jsstring :=
  if Z.leb 0 y && Z.leb y 9999 then pad 4 y
  else (if Z.ltb y 0 then ch "-" else ch "+") :: pad 6 (Z.abs y).

Definition valid_time (t : Z) : bool :=
  Z.leb (-8640000000000000) t && Z.leb t 8640000000000000.

(** The text [YYYY-MM-DDTHH:mm:ss.sssZ] of the time value [t]. *)
Definition iso_format (t : Z) : jsstring :=
  let '(y, m, d) := civil_from_days (t / msPerDay) in
  let ms := (t mod msPerDay)%Z in
  iso_year y ++ js "-" ++ pad 2 m ++ js "-" ++ pad 2 d ++ js "T"
    ++ pad 2 (ms / 3600000) ++ js ":" ++ pad 2 (ms / 60000 mod 60) ++ js ":"
    ++ pad 2 (ms / 1000 mod 60) ++ js "." ++ pad 3 (ms mod 1000) ++ js "Z".

(** [Date.prototype.toISOString] at the time value [t]. *)
Definition toISOString (t : Z) : result jsstring :=
  if valid_time t then Return (iso_format t)
  else Throw (RangeError "Invalid time value").

Definition ticked (w : World) : World :=
  mkWorld (disk w) (fs_faults w) (fs_calls w) (entropy w) (tl (clock w)) (console w).

(** [new Date()] reads the clock. *)
Definition Date_now : M Z := fun w =>
  (Return (hd 0%Z (clock w)), ticked w).

Definition new_Date_toISOString : M jsstring :=
  t <- Date_now ;; lift (toISOString t).

(** Every reading of the clock to come is a time value of a valid Date. *)
Definition valid_clock (w : World) : Prop := Forall (fun t => valid_time t = true) (clock w).

(** The shape [YYYY-MM-DDTHH:mm:ss.sssZ] of ISO 8601, with the month, day,
    hour, minute and second in their ranges; the year has four digits, or a
    sign and six. *)
Definition two_digits (a b : N) (lo hi : N) : bool :=
  is_digit a && is_digit b
  && N.leb lo (10 * (a - 48) + (b - 48)) && N.leb (10 * (a - 48) + (b - 48)) hi.

Definition iso8601_after_year (s : jsstring) : bool :=
  match s with
  | [c1; m1; m2; c2; d1; d2; c3; h1; h2; c4; n1; n2; c5; s1; s2; c6; f1; f2; f3; c7] =>
      N.eqb c1 (ch "-") && two_digits m1 m2 1 12 && N.eqb c2 (ch "-")
      && two_digits d1 d2 1 31 && N.eqb c3 (ch "T") && two_digits h1 h2 0 23
      && N.eqb c4 (ch ":") && two_digits n1 n2 0 59 && N.eqb c5 (ch ":")
      && two_digits s1 s2 0 59 && N.eqb c6 (ch ".")
      && is_digit f1 && is_digit f2 && is_digit f3 && N.eqb c7 (ch "Z")
  | _ => false
  end.

Definition is_iso8601 (s : jsstring) : bool :=
  match s with
  | c :: y1 :: y2 :: y3 :: y4 :: y5 :: y6 :: r =>
      if N.eqb c (ch "+") || N.eqb c (ch "-") then
        forallb is_digit [y1; y2; y3; y4; y5; y6] && iso8601_after_year r
      else forallb is_digit [c; y1; y2; y3] && iso8601_after_year (y4 :: y5 :: y6 :: r)
  | _ => false
  end.

(* ===================================================================== *)
(** ** JavaScript values, JSON.stringify and JSON.parse *)

Section Values.
Context {JSN : JSNumber}.

Unset Elimination Schemes.
Inductive value : Type :=
  | Undefined
  | Null
  | Bool (b : bool)
  | Num (n : number)
  | Str (s : jsstring)
  | Arr (elements : list value)
  | Obj (properties : list (jsstring * value)).
Set Elimination Schemes.

(** Induction on values, with the hypotheses for the values inside. *)
Definition value_ind
  (P : value -> Prop)
  (HUndefined : P Undefined) (HNull : P Null)
  (HBool : forall b, P (Bool b)) (HNum : forall n, P (Num n))
  (HStr : forall s, P (Str s))
  (HArr : forall l, Forall P l -> P (Arr l))
  (HObj : forall props, Forall (fun kv => P (snd kv)) props -> P (Obj props))
  : forall v, P v :=
  fix go (v : value) : P v :=
    match v with
    | Undefined => HUndefined
    | Null => HNull
    | Bool b => HBool b
    | Num n => HNum n
    | Str s => HStr s
    | Arr l =>
        HArr l ((fix all (l : list value) : Forall P l :=
                   match l with
                   | [] => Forall_nil _
                   | x :: r => Forall_cons x (go x) (all r)
                   end) l)
    | Obj props =>
        HObj props
             ((fix all (ps : list (jsstring * value)) : Forall (fun kv => P (snd kv)) ps :=
                 match ps with
                 | [] => Forall_nil _
                 | kv :: r => Forall_cons kv (go (snd kv)) (all r)
                 end) props)
    end.

(** The own properties of an object, in the order of [OwnPropertyKeys]. *)
Definition object := list (jsstring * value).

(** *** Own properties and their order *)

(** An array index is the canonical decimal form of an integer below
    2^32 - 1; such keys come first in an object, in ascending order. *)
Definition array_index (k : jsstring) : option N :=
  match uint_of_units k with
  | Some d =>
      if canonical d && N.ltb (N.of_uint d) 4294967295 then Some (N.of_uint d) else None
  | None => None
  end.

Fixpoint lookup (k : jsstring) (o : object) : option value :=
  match o with
  | [] => None
  | (k', v) :: r => if jsstring_eqb k k' then Some v else lookup k r
  end.

Definition has_key (k : jsstring) (o : object) : bool :=
  existsb (fun kv => jsstring_eqb k (fst kv)) o.

Fixpoint update (k : jsstring) (v : value) (o : object) : object :=
  match o with
  | [] => []
  | (k', v') :: r => if jsstring_eqb k k' then (k', v) :: r else (k', v') :: update k v r
  end.

Fixpoint insert_index (i : N) (k : jsstring) (v : value) (o : object) : object :=
  match o with
  | [] => [(k, v)]
  | (k', v') :: r =>
      match array_index k' with
      | Some j => if N.ltb j i then (k', v') :: insert_index i k v r else (k, v) :: o
      | None => (k, v) :: o
      end
  end.

(** Defining the data property [k] on [o]: an existing property keeps its
    place and takes the new value; a new array index goes among the indices;
    any other new key goes last. *)
Definition obj_set (k : jsstring) (v : value) (o : object) : object :=
  if has_key k o then update k v o
  else match array_index k with
       | Some i => insert_index i k v o
       | None => o ++ [(k, v)]
       end.

Definition define_all (props : list (jsstring * value)) (o : object) : object :=
  fold_left (fun acc kv => obj_set (fst kv) (snd kv) acc) props o.

Fixpoint indexed {A} (f : A -> value) (from : N) (l : list A) : list (jsstring * value) :=
  match l with
  | [] => []
  | x :: r => (decimal_of_N from, f x) :: indexed f (N.succ from) r
  end.

(** The own enumerable properties that [...source] copies. *)
Definition own_properties (source : value) : list (jsstring * value) :=
  match source with
  | Obj props => props
  | Arr l => indexed (fun x => x) 0 l
  | Str s => indexed (fun c => Str [c]) 0 s
  | _ => []
  end.

(** [{ ...target, ...source }] into the object under construction. *)
Definition spread (source : value) (o : object) : object :=
  define_all (own_properties source) o.

(** *** JSON.stringify(value, null, 2) *)

Definition unicode_escape (c : N) : jsstring := js "\u" ++ hex4 c.

Definition escape_unit (c : N) : jsstring :=
  if N.eqb c 8 then js "\b"
  else if N.eqb c 9 then js "\t"
  else if N.eqb c 10 then js "\n"
  else if N.eqb c 12 then js "\f"
  else if N.eqb c 13 then js "\r"
  else if N.eqb c QUOTE then [ch "\"; QUOTE]
  else if N.eqb c (ch "\") then js "\\"
  else if N.ltb c 32 then unicode_escape c
  else [c].

Fixpoint quote_body (s : jsstring) : jsstring :=
  match s with
  | [] => []
  | c :: r =>
      if is_high_surrogate c then
        match r with
        | d :: r' => if is_low_surrogate d then c :: d :: quote_body r'
                     else unicode_escape c ++ quote_body r
        | [] => unicode_escape c
        end
      else if is_low_surrogate c then unicode_escape c ++ quote_body r
      else escape_unit c ++ quote_body r
  end.

Definition QuoteJSONString (s : jsstring) : jsstring := QUOTE :: quote_body s ++ [QUOTE].

Definition gap : jsstring := js "  ".
Definition LF : N := 10.

Definition wrap (open close : string) (stepback indent : jsstring) (partial : list jsstring)
  : jsstring :=
  match partial with
  | [] => js open ++ js close
  | _ => js open ++ [LF] ++ indent ++ join (ch "," :: LF :: indent) partial
           ++ [LF] ++ stepback ++ js close
  end.

Fixpoint SerializeJSONProperty (indent : jsstring) (v : value) : option jsstring :=
  match v with
  | Undefined => None
  | Null => Some (js "null")
  | Bool true => Some (js "true")
  | Bool false => Some (js "false")
  | Num n => Some (if isFinite n then NumberToString n else js "null")
  | Str s => Some (QuoteJSONString s)
  | Arr l =>
      Some (wrap "[" "]" indent (indent ++ gap)
              (map (fun x => match SerializeJSONProperty (indent ++ gap) x with
                             | Some t => t
                             | None => js "null"
                             end) l))
  | Obj props =>
      Some (wrap "{" "}" indent (indent ++ gap)
              ((fix members (ps : list (jsstring * value)) : list jsstring :=
                  match ps with
                  | [] => []
                  | (k, x) :: r =>
                      match SerializeJSONProperty (indent ++ gap) x with
                      | Some t => (QuoteJSONString k ++ js ": " ++ t) :: members r
                      | None => members r
                      end
                  end) props))
  end.

Definition JSON_stringify (v : value) : option jsstring := SerializeJSONProperty [] v.

(** *** JSON.parse(text) *)

Definition is_ws (c : N) : bool := N.eqb c 32 || N.eqb c 9 || N.eqb c 10 || N.eqb c 13.

Fixpoint skip_ws (s : jsstring) : jsstring :=
  match s with
  | c :: r => if is_ws c then skip_ws r else s
  | [] => []
  end.

Definition unescape (c : N) : option N :=
  if N.eqb c QUOTE then Some QUOTE
  else if N.eqb c (ch "\") then Some (ch "\")
  else if N.eqb c (ch "/") then Some (ch "/")
  else if N.eqb c (ch "b") then Some 8%N
  else if N.eqb c (ch "f") then Some 12%N
  else if N.eqb c (ch "n") then Some 10%N
  else if N.eqb c (ch "r") then Some 13%N
  else if N.eqb c (ch "t") then Some 9%N
  else None.

Definition cons_result (c : N) (r : option (jsstring * jsstring)) : option (jsstring * jsstring) :=
  match r with
  | Some (str, rest) => Some (c :: str, rest)
  | None => None
  end.

(** The characters of a string literal after its opening quote. *)
Fixpoint parse_string (s : jsstring) : option (jsstring * jsstring) :=
  match s with
  | [] => None
  | c :: r =>
      if N.eqb c QUOTE then Some ([], r)
      else if N.eqb c (ch "\") then
        match r with
        | [] => None
        | e :: r1 =>
            if N.eqb e (ch "u") then
              match r1 with
              | h1 :: h2 :: h3 :: h4 :: r2 =>
                  match unhex4 h1 h2 h3 h4, parse_string r2 with
                  | Some u, Some (str, rest) => Some (u :: str, rest)
                  | _, _ => None
                  end
              | _ => None
              end
            else
              match unescape e, parse_string r1 with
              | Some u, Some (str, rest) => Some (u :: str, rest)
              | _, _ => None
              end
        end
      else if N.ltb c 32 then None
      else match parse_string r with
           | Some (str, rest) => Some (c :: str, rest)
           | None => None
           end
  end.

Definition number_char (c : N) : bool :=
  is_digit c || N.eqb c (ch "-") || N.eqb c (ch "+") || N.eqb c (ch ".")
  || N.eqb c (ch "e") || N.eqb c (ch "E").

Fixpoint span_number (s : jsstring) : jsstring * jsstring :=
  match s with
  | c :: r => if number_char c then let (t, rest) := span_number r in (c :: t, rest) else ([], s)
  | [] => ([], [])
  end.

Definition digits1 (s : jsstring) : bool :=
  match s with [] => false | _ => forallb is_digit s end.

Definition json_exp (s : jsstring) : bool :=
  match s with
  | [] => true
  | e :: r =>
      (N.eqb e (ch "e") || N.eqb e (ch "E"))
      && match r with
         | sign :: r' => if N.eqb sign (ch "+") || N.eqb sign (ch "-") then digits1 r' else digits1 r
         | [] => false
         end
  end.

Definition json_frac_exp (s : jsstring) : bool :=
  match s with
  | c :: r =>
      if N.eqb c (ch ".") then
        match take_digits r with
        | ([], _) => false
        | (_, r') => json_exp r'
        end
      else json_exp s
  | [] => true
  end.

(** The JSON grammar of a number: an optional minus sign; a zero, or a
    non-zero digit and more digits; optionally a point and digits;
    optionally an exponent, of [e] or [E], an optional sign and digits. *)
Definition json_number (tok : jsstring) : bool :=
  match (match tok with c :: r => if N.eqb c (ch "-") then r else tok | [] => tok end) with
  | c :: r =>
      if N.eqb c 48 then json_frac_exp r
      else if is_digit c then json_frac_exp (snd (take_digits r))
      else false
  | [] => false
  end.

Fixpoint strip_prefix (p s : jsstring) : option jsstring :=
  match p, s with
  | [], _ => Some s
  | a :: p', b :: s' => if N.eqb a b then strip_prefix p' s' else None
  | _ :: _, [] => None
  end.

Definition parse_scalar (s : jsstring) : option (value * jsstring) :=
  match strip_prefix (js "null") s, strip_prefix (js "true") s, strip_prefix (js "false") s with
  | Some r, _, _ => Some (Null, r)
  | _, Some r, _ => Some (Bool true, r)
  | _, _, Some r => Some (Bool false, r)
  | _, _, _ =>
      let (tok, rest) := span_number s in
      if json_number tok then Some (Num (StringToNumber tok), rest) else None
  end.

Fixpoint parse_value (fuel : nat) (s : jsstring) : option (value * jsstring) :=
  match fuel with
  | O => None
  | S fuel' =>
      match skip_ws s with
      | [] => None
      | c :: r =>
          if N.eqb c (ch "{") then
            match skip_ws r with
            | c' :: r' =>
                if N.eqb c' (ch "}") then Some (Obj [], r')
                else match parse_members fuel' r with
                     | Some (props, rest) => Some (Obj (define_all props []), rest)
                     | None => None
                     end
            | [] => None
            end
          else if N.eqb c (ch "[") then
            match skip_ws r with
            | c' :: r' =>
                if N.eqb c' (ch "]") then Some (Arr [], r')
                else match parse_elements fuel' r with
                     | Some (l, rest) => Some (Arr l, rest)
                     | None => None
                     end
            | [] => None
            end
          else if N.eqb c QUOTE then
            match parse_string r with
            | Some (str, rest) => Some (Str str, rest)
            | None => None
            end
          else parse_scalar (c :: r)
      end
  end

with parse_elements (fuel : nat) (s : jsstring) : option (list value * jsstring) :=
  match fuel with
  | O => None
  | S fuel' =>
      match parse_value fuel' s with
      | Some (v, r) =>
          match skip_ws r with
          | c :: r' =>
              if N.eqb c (ch ",") then
                match parse_elements fuel' r' with
                | Some (l, rest) => Some (v :: l, rest)
                | None => None
                end
              else if N.eqb c (ch "]") then Some ([v], r')
              else None
          | [] => None
          end
      | None => None
      end
  end

with parse_members (fuel : nat) (s : jsstring) : option (list (jsstring * value) * jsstring) :=
  match fuel with
  | O => None
  | S fuel' =>
      match skip_ws s with
      | c :: r =>
          if N.eqb c QUOTE then
            match parse_string r with
            | Some (k, r1) =>
                match skip_ws r1 with
                | c1 :: r2 =>
                    if N.eqb c1 (ch ":") then
                      match parse_value fuel' r2 with
                      | Some (v, r3) =>
                          match skip_ws r3 with
                          | c3 :: r4 =>
                              if N.eqb c3 (ch ",") then
                                match parse_members fuel' r4 with
                                | Some (ps, rest) => Some ((k, v) :: ps, rest)
                                | None => None
                                end
                              else if N.eqb c3 (ch "}") then Some ([(k, v)], r4)
                              else None
                          | [] => None
                          end
                      | None => None
                      end
                    else None
                | [] => None
                end
            | None => None
            end
          else None
      | [] => None
      end
  end.

(** [JSON.parse(text)]; [None] stands for the SyntaxError it throws. *)
Definition JSON_parse (text : jsstring) : option value :=
  match parse_value (2 * length text) text with
  | Some (v, rest) => match skip_ws rest with [] => Some v | _ => None end
  | None => None
  end.

(** *** Notions for the proofs about texts *)

(** A text is delimited when a number token cannot run into it. *)
Definition delimited (rest : jsstring) : bool :=
  match rest with
  | [] => true
  | c :: _ => negb (number_char c)
  end.

(** The first character of the text of a value. *)
Definition starts_value (t : jsstring) : bool :=
  match t with
  | [] => false
  | c :: _ => negb (is_ws c) && negb (N.eqb c (ch "]")) && negb (N.eqb c (ch "}"))
  end.

Definition starts_number (t : jsstring) : bool :=
  match t with
  | [] => false
  | c :: _ => N.eqb c (ch "-") || is_digit c
  end.

(** *** The values that JSON text denotes *)

Definition wf_string (s : jsstring) : bool := forallb (fun c => N.ltb c 65536) s.

(** The order of the own property keys of an object: no key twice, the
    array indices first and ascending. *)
Definition key_before (k k' : jsstring) : bool :=
  negb (jsstring_eqb k k')
  && match array_index k, array_index k' with
     | Some i, Some j => N.ltb i j
     | None, Some _ => false
     | _, None => true
     end.

Fixpoint ordered_keys (ks : list jsstring) : bool :=
  match ks with
  | [] => true
  | k :: r => forallb (key_before k) r && ordered_keys r
  end.

(** The text of a finite number is a token of the JSON number grammar. *)
Definition wf_number (n : number) : bool :=
  if isFinite n then forallb number_char (NumberToString n) && json_number (NumberToString n)
  else true.

(** A JavaScript value built from JSON text: code units are 16 bits wide,
    the properties of an object are in the order of their keys, and
    [undefined] does not occur. *)
Fixpoint wf_value (v : value) : bool :=
  match v with
  | Undefined => false
  | Null | Bool _ => true
  | Num n => wf_number n
  | Str s => wf_string s
  | Arr l => forallb wf_value l
  | Obj props =>
      ordered_keys (map fst props)
      && (fix all (ps : list (jsstring * value)) : bool :=
            match ps with
            | [] => true
            | (k, x) :: r => wf_string k && wf_value x && all r
            end) props
  end.

(** What is left of a value after JSON.stringify and JSON.parse: a number
    that is not finite becomes [null], a finite one goes through its text. *)
Fixpoint json_image (v : value) : value :=
  match v with
  | Num n => if isFinite n then Num (StringToNumber (NumberToString n)) else Null
  | Arr l => Arr (map json_image l)
  | Obj props =>
      Obj ((fix image (ps : list (jsstring * value)) : list (jsstring * value) :=
              match ps with
              | [] => []
              | (k, x) :: r => (k, json_image x) :: image r
              end) props)
  | _ => v
  end.

(** Every number in the value is finite and is read back from its own
    text; of the doubles, all are but the infinities, NaN and negative zero. *)
Fixpoint faithful (v : value) : Prop :=
  match v with
  | Num n => isFinite n = true /\ StringToNumber (NumberToString n) = n
  | Arr l =>
      (fix all (l : list value) : Prop :=
         match l with
         | [] => True
         | x :: r => faithful x /\ all r
         end) l
  | Obj props =>
      (fix all (ps : list (jsstring * value)) : Prop :=
         match ps with
         | [] => True
         | (_, x) :: r => faithful x /\ all r
         end) props
  | _ => True
  end.

(** The values that JSON text can hold and give back unchanged. *)
Definition json_value (v : value) : Prop := wf_value v = true /\ faithful v.

(** Fuel that [parse_value] needs on the text of a value. *)
Fixpoint need (v : value) : nat :=
  match v with
  | Arr l => S (fold_right (fun x acc => S (Nat.max (need x) acc)) 0 l)
  | Obj props =>
      S ((fix go (ps : list (jsstring * value)) : nat :=
            match ps with
            | [] => 0
            | (_, x) :: r => S (Nat.max (need x) (go r))
            end) props)
  | _ => 1
  end.

(** *** Notions for the proofs about values *)

Definition element_text (indent : jsstring) (x : value) : jsstring :=
  match SerializeJSONProperty indent x with
  | Some t => t
  | None => js "null"
  end.

Definition members_text (indent : jsstring) : list (jsstring * value) -> list jsstring :=
  fix members (ps : list (jsstring * value)) : list jsstring :=
    match ps with
    | [] => []
    | (k, x) :: r =>
        match SerializeJSONProperty indent x with
        | Some t => (QuoteJSONString k ++ js ": " ++ t) :: members r
        | None => members r
        end
    end.

Fixpoint wf_props (ps : list (jsstring * value)) : bool :=
  match ps with
  | [] => true
  | (k, x) :: r => wf_string k && wf_value x && wf_props r
  end.

Fixpoint image_props (ps : list (jsstring * value)) : list (jsstring * value) :=
  match ps with
  | [] => []
  | (k, x) :: r => (k, json_image x) :: image_props r
  end.

Definition need_elements (l : list value) : nat :=
  fold_right (fun x acc => S (Nat.max (need x) acc)) 0 l.

Fixpoint need_props (ps : list (jsstring * value)) : nat :=
  match ps with
  | [] => 0
  | (_, x) :: r => S (Nat.max (need x) (need_props r))
  end.

(** The property proved of every value, by induction. *)
Definition reads_back (v : value) : Prop :=
  wf_value v = true ->
  forall indent rest f,
    forallb is_ws indent = true -> delimited rest = true -> need v <= f ->
    exists t, SerializeJSONProperty indent v = Some t
              /\ starts_value t = true
              /\ parse_value f (t ++ rest) = Some (json_image v, rest).

(** A property with a key and a value that JSON can hold. *)
Definition json_property (kv : jsstring * value) : Prop :=
  wf_string (fst kv) = true /\ json_value (snd kv).

End Values.

Arguments Undefined {JSN}.
Arguments Null {JSN}.

(* ===================================================================== *)
(** ** The server *)

Section Server.
Context {JSN : JSNumber}.

(** What [res.status(code).json(body)] sends. *)
Record response : Type := Response { status : nat; body : value }.

(** The message texts of the errors that the runtime itself throws are
    those of V8, which the handlers only copy; the text of the SyntaxError
    of JSON.parse depends on the input and is only ever logged. *)
Definition SyntaxError : exn := Error (js "SyntaxError") (js "Unexpected token in JSON").

Definition ERR_INVALID_ARG_TYPE : exn :=
  Error (js "TypeError")
        (js "The " ++ [QUOTE] ++ js "data" ++ [QUOTE]
         ++ js " argument must be of type string or an instance of Buffer, TypedArray, or DataView. Received undefined").

Definition write_text (text : option jsstring) : M unit :=
  match text with
  | Some data => fs_writeFile data
  | None => throw ERR_INVALID_ARG_TYPE
  end.

Definition parse_text (data : jsstring) : M value :=
  match JSON_parse data with
  | Some v => ret v
  | None => throw SyntaxError
  end.

(** server.js, lines 16-23. *)
Definition initializeDataFile : M unit :=
  try_catch fs_access
            (fun error => write_text (JSON_stringify (Arr []))).

(** server.js, lines 26-34. *)
Definition readPortfolios : M value :=
  try_catch (data <- fs_readFile ;; parse_text data)
            (fun error => console_error "Error reading portfolios:" error ;; ret (Arr [])).

(** server.js, lines 37-44. *)
Definition writePortfolios (portfolios : value) : M unit :=
  try_catch (write_text (JSON_stringify portfolios))
            (fun error => console_error "Error writing portfolios:" error ;; throw error).

(** [portfolios.push(x)], with the array after the call. *)
Definition push (portfolios x : value) : result value :=
  match portfolios with
  | Arr l => Return (Arr (l ++ [x]))
  | Null => Throw (TypeError "Cannot read properties of null (reading 'push')")
  | Undefined => Throw (TypeError "Cannot read properties of undefined (reading 'push')")
  | _ => Throw (TypeError "portfolios.push is not a function")
  end.

(** [portfolios.length] *)
Definition get_length (portfolios : value) : result value :=
  match portfolios with
  | Arr l => Return (Num (NumberOfNat (length l)))
  | Str s => Return (Num (NumberOfNat (length s)))
  | Obj props => Return (match lookup (js "length") props with Some v => v | None => Undefined end)
  | Null => Throw (TypeError "Cannot read properties of null (reading 'length')")
  | Undefined => Throw (TypeError "Cannot read properties of undefined (reading 'length')")
  | _ => Return Undefined
  end.

(** [portfolio.id === id], the callback of line 104. *)
Definition matches_id (id : jsstring) (portfolio : value) : result bool :=
  match portfolio with
  | Obj props =>
      Return (match lookup (js "id") props with
              | Some (Str s) => jsstring_eqb s id
              | _ => false
              end)
  | Null => Throw (TypeError "Cannot read properties of null (reading 'id')")
  | Undefined => Throw (TypeError "Cannot read properties of undefined (reading 'id')")
  | _ => Return false
  end.

Fixpoint findIndex_from (id : jsstring) (l : list value) (i : nat) : result (option nat) :=
  match l with
  | [] => Return None
  | x :: r =>
      match matches_id id x with
      | Return true => Return (Some i)
      | Return false => findIndex_from id r (S i)
      | Throw e => Throw e
      end
  end.

(** [portfolios.findIndex(portfolio => portfolio.id === id)]; [None] is -1. *)
Definition findIndex (portfolios : value) (id : jsstring) : result (option nat) :=
  match portfolios with
  | Arr l => findIndex_from id l 0
  | Null => Throw (TypeError "Cannot read properties of null (reading 'findIndex')")
  | Undefined => Throw (TypeError "Cannot read properties of undefined (reading 'findIndex')")
  | _ => Throw (TypeError "portfolios.findIndex is not a function")
  end.

(** [portfolios.splice(i, 1)[0]], with the array after the call. *)
Definition splice_one (portfolios : value) (i : nat) : result (value * value) :=
  match portfolios with
  | Arr l => Return (nth i l Undefined, Arr (firstn i l ++ skipn (S i) l))
  | Null => Throw (TypeError "Cannot read properties of null (reading 'splice')")
  | Undefined => Throw (TypeError "Cannot read properties of undefined (reading 'splice')")
  | _ => Throw (TypeError "portfolios.splice is not a function")
  end.

Definition internal_server_error (error : exn) : response :=
  Response 500 (Obj [ (js "success", Bool false);
                      (js "message", Str (js "Internal server error"));
                      (js "error", Str (message error)) ]).

Definition created (record : value) : response :=
  Response 201 (Obj [ (js "success", Bool true);
                      (js "message", Str (js "Portfolio created successfully"));
                      (js "data", record) ]).

Definition retrieved (portfolios count : value) : response :=
  Response 200 (Obj [ (js "success", Bool true);
                      (js "message", Str (js "Portfolios retrieved successfully"));
                      (js "data", portfolios);
                      (js "count", count) ]).

Definition deleted (deletedPortfolio : value) : response :=
  Response 200 (Obj [ (js "success", Bool true);
                      (js "message", Str (js "Portfolio deleted successfully"));
                      (js "data", deletedPortfolio) ]).

Definition portfolio_not_found : response :=
  Response 404 (Obj [ (js "success", Bool false);
                      (js "message", Str (js "Portfolio not found")) ]).

(** The object literal of lines 52-57:
    [{ id: uuidv4(), ...req.body, createdAt: ..., updatedAt: ... }]. *)
Definition portfolio_literal (id : jsstring) (req_body : value) (createdAt updatedAt : jsstring)
  : value :=
  Obj (obj_set (js "updatedAt") (Str updatedAt)
        (obj_set (js "createdAt") (Str createdAt)
          (spread req_body
            (obj_set (js "id") (Str id) [])))).

Definition newPortfolio (req_body : value) : M value :=
  id <- uuidv4 ;;
  createdAt <- new_Date_toISOString ;;
  updatedAt <- new_Date_toISOString ;;
  ret (portfolio_literal id req_body createdAt updatedAt).

(** POST /api/portfolios (lines 49-75). *)
Definition post_portfolios (req_body : value) : M response :=
  try_catch
    (portfolios <- readPortfolios ;;
     record <- newPortfolio req_body ;;
     portfolios' <- lift (push portfolios record) ;;
     writePortfolios portfolios' ;;
     ret (created record))
    (fun error =>
       console_error "Error creating portfolio:" error ;;
       ret (internal_server_error error)).

(** GET /api/portfolios (lines 78-96). *)
Definition get_portfolios : M response :=
  try_catch
    (portfolios <- readPortfolios ;;
     count <- lift (get_length portfolios) ;;
     ret (retrieved portfolios count))
    (fun error =>
       console_error "Error retrieving portfolios:" error ;;
       ret (internal_server_error error)).

(** DELETE /api/portfolios/:id (lines 99-129). *)
Definition delete_portfolio (id : jsstring) : M response :=
  try_catch
    (portfolios <- readPortfolios ;;
     portfolioIndex <- lift (findIndex portfolios id) ;;
     match portfolioIndex with
     | None => ret portfolio_not_found
     | Some i =>
         spliced <- lift (splice_one portfolios i) ;;
         writePortfolios (snd spliced) ;;
         ret (deleted (fst spliced))
     end)
    (fun error =>
       console_error "Error deleting portfolio:" error ;;
       ret (internal_server_error error)).

(** GET / (lines 132-142). *)
Definition get_root : M response :=
  ret (Response 200
         (Obj [ (js "message", Str (js "Portfolio API Server"));
                (js "version", Str (js "1.0.0"));
                (js "endpoints",
                 Obj [ (js "POST /api/portfolios", Str (js "Create a new portfolio"));
                       (js "GET /api/portfolios", Str (js "Get all portfolios"));
                       (js "DELETE /api/portfolios/:id", Str (js "Delete a portfolio by ID")) ]) ])).

(** The catch-all of lines 145-150. *)
Definition endpoint_not_found : M response :=
  ret (Response 404 (Obj [ (js "success", Bool false);
                           (js "message", Str (js "Endpoint not found")) ])).

(** The error middleware of lines 153-160. *)
Definition error_handler (error : exn) : M response :=
  console_error "Unhandled error:" error ;;
  ret (internal_server_error error).

(** A request, once the router has matched it and express.json() has parsed
    its body. *)
Inductive request : Type :=
  | POST_portfolios (req_body : value)
  | GET_portfolios
  | DELETE_portfolio (id : jsstring)
  | GET_root
  | Unmatched.

Definition handle (req : request) : M response :=
  match req with
  | POST_portfolios req_body => post_portfolios req_body
  | GET_portfolios => get_portfolios
  | DELETE_portfolio id => delete_portfolio id
  | GET_root => get_root
  | Unmatched => endpoint_not_found
  end.

(** Requests served one after the other. *)
Fixpoint serve (reqs : list request) : M (list response) :=
  match reqs with
  | [] => ret []
  | req :: rest => r <- handle req ;; rs <- serve rest ;; ret (r :: rs)
  end.

(** [app.listen(PORT, callback)] (lines 166-173) is Express's: it asks for
    the port and returns at once, without throwing.  Whether the port is
    granted, and the lines that the callback then prints with [console.log],
    are outside this model: the [console] of the world records what
    [console.error] prints, and nothing else. *)
Definition app_listen : M unit := ret tt.

(** [startServer] (lines 163-178): [true] when the data file is there and
    [app.listen] was called, [false] when the process exits with status 1. *)
Definition startServer : M bool :=
  try_catch (initializeDataFile ;; app_listen ;; ret true)
            (fun error => console_error "Failed to start server:" error ;; ret false).

(** The collection that the next request will load. *)
Definition stored (w : World) : value :=
  match readPortfolios w with
  | (Return v, _) => v
  | (Throw _, _) => Arr []
  end.

(** The world after the object literal of a create was evaluated, and what
    the literal drew from it. *)
Definition literal_evaluated (w : World) : World := ticked (ticked (drew w)).

Definition generated_id (w : World) : jsstring := uuid_stringify (hd [] (entropy w)).
Definition first_reading (w : World) : Z := hd 0%Z (clock w).
Definition second_reading (w : World) : Z := hd 0%Z (tl (clock w)).

(** The record that a create builds in the world [w]. *)
Definition new_record (req_body : value) (w : World) : value :=
  portfolio_literal (generated_id w) req_body
                    (iso_format (first_reading w)) (iso_format (second_reading w)).

(** The server between two requests, when the file holds the collection
    [l] of JSON values and the world will not fail it. *)
Definition ready (w : World) (l : list value) : Prop :=
  no_faults w /\ valid_clock w
  /\ exists text, disk w = Some text /\ JSON_parse text = Some (Arr l) /\ Forall json_value l.

(** The own property [k] of a value, when it is an object that has it. *)
Definition own (portfolio : value) (k : jsstring) : option value :=
  match portfolio with
  | Obj props => lookup k props
  | _ => None
  end.

(** The property [k] that [...source] defines: the last that it copies. *)
Definition copied (source : value) (k : jsstring) : option value :=
  lookup k (rev (own_properties source)).

(** No two records of the collection have the same [id]. *)
Definition distinct_ids (l : list value) : Prop :=
  NoDup (map (fun portfolio => own portfolio (js "id")) l).

(** The requests that keep the ids distinct: a create whose body brings no
    [id] and that draws one that no record has. *)
Definition draws_fresh_id (req : request) (w : World) (l : list value) : Prop :=
  match req with
  | POST_portfolios req_body =>
      json_value req_body
      /\ copied req_body (js "id") = None
      /\ ~ In (Some (Str (generated_id w))) (map (fun portfolio => own portfolio (js "id")) l)
  | _ => True
  end.

(** *** Notions for the answers and the records *)

(** The load falls back to the empty array: the read fails, or the text of
    the file is not JSON. *)
Definition unreadable (w : World) : bool :=
  match fs_readFile w with
  | (Throw _, _) => true
  | (Return data, _) => match JSON_parse data with Some _ => false | None => true end
  end.

(** The error that [readPortfolios] then logs. *)
Definition load_error (w : World) : exn :=
  match fs_readFile w with
  | (Throw error, _) => error
  | (Return _, _) => SyntaxError
  end.

(** An answer with the status [code] and the flag [success: ok]. *)
Definition answers (r : response) (code : nat) (ok : bool) : Prop :=
  status r = code /\ own (body r) (js "success") = Some (Bool ok).

(** The answers that each route can give. *)
Definition route_answer (req : request) (r : response) : Prop :=
  match req with
  | POST_portfolios _ => answers r 201 true \/ answers r 500 false
  | GET_portfolios => answers r 200 true \/ answers r 500 false
  | DELETE_portfolio _ => answers r 200 true \/ answers r 404 false \/ answers r 500 false
  | GET_root => status r = 200
  | Unmatched => answers r 404 false
  end.

(** A record is an object. *)
Definition is_record (portfolio : value) : bool :=
  match portfolio with
  | Obj _ => true
  | _ => false
  end.

(** A request whose body, if it has one, is a JSON value. *)
Definition json_request (req : request) : Prop :=
  match req with
  | POST_portfolios req_body => json_value req_body
  | _ => True
  end.

(** *** Handlers in flight *)

(** A handler runs until it awaits the file system, and goes on when the
    call has settled; between the two, the event loop runs other handlers.
    A create or a delete that was started has either answered already, or has
    its array ready and awaits [writePortfolios], with the answer that it
    will give when the write succeeds. *)
Inductive pending : Type :=
  | Answered (r : response)
  | Writing (portfolios : value) (r : response) (label : string).

(** The create, lines 50-59 and the catch of lines 67-74: up to the call
    of [writePortfolios]. *)
Definition post_portfolios_begin (req_body : value) : M pending :=
  try_catch
    (portfolios <- readPortfolios ;;
     record <- newPortfolio req_body ;;
     portfolios' <- lift (push portfolios record) ;;
     ret (Writing portfolios' (created record) "Error creating portfolio:"))
    (fun error =>
       console_error "Error creating portfolio:" error ;;
       ret (Answered (internal_server_error error))).

(** The delete, lines 100-113 and the catch of lines 121-128: up to the
    call of [writePortfolios]. *)
Definition delete_portfolio_begin (id : jsstring) : M pending :=
  try_catch
    (portfolios <- readPortfolios ;;
     portfolioIndex <- lift (findIndex portfolios id) ;;
     match portfolioIndex with
     | None => ret (Answered portfolio_not_found)
     | Some i =>
         spliced <- lift (splice_one portfolios i) ;;
         ret (Writing (snd spliced) (deleted (fst spliced)) "Error deleting portfolio:")
     end)
    (fun error =>
       console_error "Error deleting portfolio:" error ;;
       ret (Answered (internal_server_error error))).

(** The rest of the handler: the write, and the answer or the catch. *)
Definition settle (p : pending) : M response :=
  match p with
  | Answered r => ret r
  | Writing portfolios r label =>
      try_catch (writePortfolios portfolios ;; ret r)
                (fun error => console_error label error ;; ret (internal_server_error error))
  end.

(** The label under which the catch of a route logs. *)
Definition route_label (req : request) : string :=
  match req with
  | POST_portfolios _ => "Error creating portfolio:"
  | GET_portfolios => "Error retrieving portfolios:"
  | DELETE_portfolio _ => "Error deleting portfolio:"
  | GET_root | Unmatched => EmptyString
  end.

End Server.

(* ===================================================================== *)
(** ** Sample worlds and records *)

(** No data file yet; the generator and the clock give their defaults. *)
Definition fresh_world : World := mkWorld None [] [] [] [] [].

(** The data file as [initializeDataFile] leaves it. *)
Definition empty_file : World := mkWorld (Some (js "[]")) [] [] [] [] [].

Definition zero_id : jsstring := js "00000000-0000-4000-8000-000000000000".
Definition epoch : jsstring := js "1970-01-01T00:00:00.000Z".

Definition record_a : value := Obj [(js "id", Str (js "a")); (js "title", Str (js "A"))].
Definition record_b : value := Obj [(js "id", Str (js "b")); (js "title", Str (js "B"))].

(** A data file that holds the collection [l]. *)
Definition file_of (l : list value) : World :=
  mkWorld (JSON_stringify (Arr l)) [] [] [] [] [].

Definition ENOSPC : fault :=
  Fault (Error (js "Error") (js "ENOSPC: no space left on device, write")) (Some []).

(** A data file with an empty array, on a disk where the first write fails. *)
Definition disk_full : World :=
  mkWorld (Some (js "[]")) [None; Some ENOSPC] [] [] [] [].

Definition my_site : value := Obj [(js "title", Str (js "My Site"))].

(** Two request bodies. *)
Definition site_a : value := Obj [(js "title", Str (js "A"))].
Definition site_b : value := Obj [(js "title", Str (js "B")); (js "stars", Num (IntFinite 5))].

Definition EACCES : fault :=
  Fault (Error (js "Error") (js "EACCES: permission denied, access 'portfolios.json'")) None.

(** A data file with two records, on a disk where the first call fails. *)
Definition locked_file : World :=
  mkWorld (JSON_stringify (Arr [record_a; record_b])) [Some EACCES] [] [] [] [].

(** A data file whose text is not JSON. *)
Definition broken_file : World := mkWorld (Some (js "[{")) [] [] [] [] [].

(** A data file that holds an object, not an array. *)
Definition object_file : World := mkWorld (Some (js "{}")) [] [] [] [] [].

(** A data file with two records, on a disk where the second call fails. *)
Definition full_disk_with_records : World :=
  mkWorld (JSON_stringify (Arr [record_a; record_b])) [None; Some ENOSPC] [] [] [] [].

(** A body whose [id] is a number. *)
Definition numbered : value := Obj [(js "id", Num (IntFinite 5))].

(** The text of a file. *)
Definition text_of (w : World) : jsstring :=
  match disk w with
  | Some text => text
  | None => []
  end.

(* ===================================================================== *)
(** * Proofs *)

(* ===================================================================== *)
(** ** Strings *)

Lemma jsstring_eqb_refl (a : jsstring) : jsstring_eqb a a = true.
Proof. induction a as [|x a IH]; simpl; [reflexivity|]. rewrite N.eqb_refl. exact IH. Qed.

Lemma jsstring_eqb_eq (a b : jsstring) : jsstring_eqb a b = true <-> a = b.
Proof.
  split; [|intros ->; apply jsstring_eqb_refl].
  revert b; induction a as [|x a IH]; intros [|y b]; simpl; try discriminate; auto.
  rewrite andb_true_iff, N.eqb_eq. intros [-> H]. f_equal. auto.
Qed.

Lemma jsstring_eqb_neq (a b : jsstring) : jsstring_eqb a b = false <-> a <> b.
Proof.
  rewrite <- jsstring_eqb_eq. destruct (jsstring_eqb a b); split; congruence.
Qed.

Lemma hex_value_hex_digit (d : N) : (d < 16)%N -> hex_value (hex_digit d) = Some d.
Proof.
  intros H. destruct d as [|p]; [reflexivity|].
  do 4 (destruct p as [p|p|]; try reflexivity; try lia).
Qed.

Lemma hex4_recompose (c : N) :
  (c < 65536)%N ->
  ((((c / 4096 mod 16) * 16 + c / 256 mod 16) * 16 + c / 16 mod 16) * 16 + c mod 16 = c)%N.
Proof.
  intros H.
  assert (H1 : (c / 16 = 16 * (c / 256) + c / 16 mod 16)%N).
  { replace 256%N with (16 * 16)%N by reflexivity.
    rewrite <- N.Div0.div_div. apply N.div_mod. discriminate. }
  assert (H2 : (c / 256 = 16 * (c / 4096) + c / 256 mod 16)%N).
  { replace 4096%N with (256 * 16)%N by reflexivity.
    rewrite <- N.Div0.div_div. apply N.div_mod. discriminate. }
  assert (H3 : (c = 16 * (c / 16) + c mod 16)%N) by (apply N.div_mod; discriminate).
  assert (H4 : (c / 4096 < 16)%N) by (apply N.Div0.div_lt_upper_bound; lia).
  rewrite (N.mod_small (c / 4096) 16) by assumption. lia.
Qed.

Lemma unhex4_hex4 (c : N) :
  (c < 65536)%N ->
  unhex4 (hex_digit (c / 4096 mod 16)) (hex_digit (c / 256 mod 16))
         (hex_digit (c / 16 mod 16)) (hex_digit (c mod 16)) = Some c.
Proof.
  intros H. unfold unhex4.
  rewrite !hex_value_hex_digit by (apply N.mod_lt; discriminate).
  f_equal. apply hex4_recompose, H.
Qed.

Section StringFacts.
Context {JSN : JSNumber}.

Lemma parse_string_unicode_escape (c : N) (t : jsstring) :
  (c < 65536)%N ->
  parse_string (unicode_escape c ++ t) = cons_result c (parse_string t).
Proof.
  intros H. unfold unicode_escape, hex4. cbn [js list_ascii_of_string map app].
  cbn [parse_string]. change (ch "\" =? QUOTE)%N with false. cbv iota.
  rewrite N.eqb_refl. change (ch "u" =? ch "u")%N with true. cbv iota.
  rewrite unhex4_hex4 by assumption. reflexivity.
Qed.

Lemma parse_string_verbatim (c : N) (t : jsstring) :
  (32 <= c)%N -> c <> QUOTE -> c <> ch "\" ->
  parse_string (c :: t) = cons_result c (parse_string t).
Proof.
  intros H1 H2 H3. cbn [parse_string].
  apply N.eqb_neq in H2, H3. rewrite H2, H3.
  assert (H4 : (c <? 32)%N = false) by (apply N.ltb_ge; exact H1).
  rewrite H4. destruct (parse_string t) as [[? ?]|]; reflexivity.
Qed.

Lemma parse_string_escape_unit (c : N) (t : jsstring) :
  (c < 65536)%N ->
  parse_string (escape_unit c ++ t) = cons_result c (parse_string t).
Proof.
  intros H. unfold escape_unit.
  repeat match goal with
  | |- context [if N.eqb c ?k then _ else _] =>
      let E := fresh "E" in
      destruct (N.eqb c k) eqn:E;
      [apply N.eqb_eq in E; subst c; reflexivity | apply N.eqb_neq in E]
  end.
  destruct (N.ltb c 32) eqn:E6.
  - apply parse_string_unicode_escape, H.
  - apply N.ltb_ge in E6. apply parse_string_verbatim; assumption.
Qed.

Lemma parse_string_quote_body (s : jsstring) :
  wf_string s = true ->
  forall rest, parse_string (quote_body s ++ QUOTE :: rest) = Some (s, rest).
Proof.
  assert (G : forall n s, length s <= n -> wf_string s = true ->
              forall rest, parse_string (quote_body s ++ QUOTE :: rest) = Some (s, rest)).
  { induction n as [|n IH]; intros [|c r] Hn Hwf rest; simpl in Hn; try lia;
      try reflexivity.
    assert (Hc : (c < 65536)%N /\ wf_string r = true).
    { unfold wf_string in *. simpl in Hwf. apply andb_true_iff in Hwf.
      destruct Hwf as [Hc Hr]. apply N.ltb_lt in Hc. auto. }
    destruct Hc as [Hc Hr].
    assert (IHr : parse_string (quote_body r ++ QUOTE :: rest) = Some (r, rest))
      by (apply IH; [lia | exact Hr]).
    cbn [quote_body].
    destruct (is_high_surrogate c) eqn:Eh.
    - destruct r as [|d r'].
      + rewrite parse_string_unicode_escape by assumption. reflexivity.
      + destruct (is_low_surrogate d) eqn:El.
        * assert (Hr' : wf_string r' = true).
          { unfold wf_string in *. simpl in Hr. apply andb_true_iff in Hr. tauto. }
          unfold is_high_surrogate in Eh. unfold is_low_surrogate in El.
          apply andb_true_iff in Eh, El. rewrite !N.leb_le in Eh, El.
          change ((c :: d :: quote_body r') ++ QUOTE :: rest)
            with (c :: d :: quote_body r' ++ QUOTE :: rest).
          rewrite parse_string_verbatim;
            [| lia | unfold QUOTE; lia | unfold ch; simpl; lia].
          rewrite parse_string_verbatim;
            [| lia | unfold QUOTE; lia | unfold ch; simpl; lia].
          rewrite IH; [reflexivity | simpl in Hn; lia | exact Hr'].
        * rewrite <- app_assoc, parse_string_unicode_escape by assumption.
          rewrite IHr. reflexivity.
    - destruct (is_low_surrogate c) eqn:El.
      + rewrite <- app_assoc, parse_string_unicode_escape by assumption.
        rewrite IHr. reflexivity.
      + rewrite <- app_assoc, parse_string_escape_unit by assumption.
        rewrite IHr. reflexivity. }
  intros Hwf rest. apply (G (length s)); auto.
Qed.

End StringFacts.

(* ===================================================================== *)
(** ** Keys, white space and tokens *)

Section TokenFacts.
Context {JSN : JSNumber}.

(** *** Own property keys *)

Lemma has_key_false (k : jsstring) (o : object) :
  Forall (fun kv => key_before (fst kv) k = true) o -> has_key k o = false.
Proof.
  induction 1 as [|[k' v] o H _ IH]; [reflexivity|].
  unfold has_key in *. simpl in *. rewrite IH, orb_false_r.
  unfold key_before in H. apply andb_true_iff in H. destruct H as [H _].
  apply negb_true_iff, jsstring_eqb_neq in H. apply jsstring_eqb_neq. congruence.
Qed.

Lemma insert_index_last (i : N) (k : jsstring) (v : value) (o : object) :
  array_index k = Some i ->
  Forall (fun kv => key_before (fst kv) k = true) o ->
  insert_index i k v o = o ++ [(k, v)].
Proof.
  intros Hk. induction 1 as [|[k' v'] o H _ IH]; [reflexivity|].
  simpl in *. unfold key_before in H. rewrite Hk in H.
  apply andb_true_iff in H. destruct H as [_ H].
  destruct (array_index k') as [j|]; [|discriminate].
  rewrite H, IH. reflexivity.
Qed.

Lemma obj_set_last (k : jsstring) (v : value) (o : object) :
  Forall (fun kv => key_before (fst kv) k = true) o ->
  obj_set k v o = o ++ [(k, v)].
Proof.
  intros H. unfold obj_set. rewrite has_key_false by exact H.
  destruct (array_index k) as [i|] eqn:Hk; [|reflexivity].
  apply insert_index_last; assumption.
Qed.

Lemma ordered_keys_app (a : list jsstring) (k : jsstring) (b : list jsstring) :
  ordered_keys (a ++ k :: b) = true ->
  Forall (fun k' => key_before k' k = true) a.
Proof.
  induction a as [|x a IH]; simpl; intros H; [constructor|].
  apply andb_true_iff in H. destruct H as [H1 H2].
  constructor; [|auto].
  rewrite forallb_app in H1. apply andb_true_iff in H1. destruct H1 as [_ H1].
  simpl in H1. apply andb_true_iff in H1. tauto.
Qed.

Lemma define_all_ordered_acc (props acc : list (jsstring * value)) :
  ordered_keys (map fst (acc ++ props)) = true ->
  define_all props acc = acc ++ props.
Proof.
  revert acc. induction props as [|[k v] props IH]; intros acc H.
  - simpl. rewrite app_nil_r. reflexivity.
  - unfold define_all in *. cbn [fold_left fst snd].
    rewrite obj_set_last.
    + rewrite IH; rewrite <- app_assoc; [reflexivity | exact H].
    + rewrite map_app in H. simpl in H. apply ordered_keys_app in H.
      rewrite Forall_map in H. exact H.
Qed.

(** Defining the properties of an object in the order of its keys builds
    that object. *)
Lemma define_all_ordered (props : list (jsstring * value)) :
  ordered_keys (map fst props) = true -> define_all props [] = props.
Proof. intros H. apply (define_all_ordered_acc props [] H). Qed.

(** *** White space and tokens *)

Lemma skip_ws_app (ws s : jsstring) :
  forallb is_ws ws = true -> skip_ws (ws ++ s) = skip_ws s.
Proof.
  induction ws as [|c ws IH]; simpl; [reflexivity|].
  intros H. apply andb_true_iff in H. destruct H as [-> H]. auto.
Qed.

Lemma skip_ws_cons (c : N) (s : jsstring) : is_ws c = false -> skip_ws (c :: s) = c :: s.
Proof. intros H. simpl. rewrite H. reflexivity. Qed.

Lemma parse_value_ws (f : nat) (ws s : jsstring) :
  forallb is_ws ws = true -> parse_value f (ws ++ s) = parse_value f s.
Proof. intros H. destruct f; simpl; [reflexivity|]. rewrite skip_ws_app by exact H. reflexivity. Qed.

Lemma parse_elements_ws (f : nat) (ws s : jsstring) :
  forallb is_ws ws = true -> parse_elements f (ws ++ s) = parse_elements f s.
Proof.
  intros H. destruct f; simpl; [reflexivity|]. rewrite parse_value_ws by exact H. reflexivity.
Qed.

Lemma parse_members_ws (f : nat) (ws s : jsstring) :
  forallb is_ws ws = true -> parse_members f (ws ++ s) = parse_members f s.
Proof. intros H. destruct f; simpl; [reflexivity|]. rewrite skip_ws_app by exact H. reflexivity. Qed.

Lemma span_number_app (tok rest : jsstring) :
  forallb number_char tok = true -> delimited rest = true ->
  span_number (tok ++ rest) = (tok, rest).
Proof.
  induction tok as [|c tok IH]; simpl; intros H D.
  - destruct rest as [|c r]; [reflexivity|]. simpl in *.
    apply negb_true_iff in D. rewrite D. reflexivity.
  - apply andb_true_iff in H. destruct H as [-> H]. rewrite IH by assumption. reflexivity.
Qed.

Lemma json_number_starts (tok : jsstring) : json_number tok = true -> starts_number tok = true.
Proof.
  unfold json_number, starts_number. destruct tok as [|c r]; [discriminate|].
  destruct (N.eqb c (ch "-")) eqn:E; [reflexivity|]. simpl.
  destruct (N.eqb c 48) eqn:E0.
  - apply N.eqb_eq in E0. subst c. reflexivity.
  - destruct (is_digit c); [reflexivity | discriminate].
Qed.

Lemma starts_number_value (t : jsstring) : starts_number t = true -> starts_value t = true.
Proof.
  destruct t as [|c r]; [discriminate|]. unfold starts_number, starts_value.
  rewrite orb_true_iff. unfold is_digit, is_ws. rewrite andb_true_iff, N.eqb_eq, !N.leb_le.
  intros H.
  assert (Hc : (c = 45 \/ (48 <= c <= 57))%N) by (destruct H as [->|H]; [left; reflexivity | right; exact H]).
  clear H.
  assert (E1 : (c =? 32)%N = false) by (apply N.eqb_neq; lia).
  assert (E2 : (c =? 9)%N = false) by (apply N.eqb_neq; lia).
  assert (E3 : (c =? 10)%N = false) by (apply N.eqb_neq; lia).
  assert (E4 : (c =? 13)%N = false) by (apply N.eqb_neq; lia).
  assert (E5 : (c =? ch "]")%N = false) by (apply N.eqb_neq; unfold ch; simpl; lia).
  assert (E6 : (c =? ch "}")%N = false) by (apply N.eqb_neq; unfold ch; simpl; lia).
  rewrite E1, E2, E3, E4, E5, E6. reflexivity.
Qed.

Lemma parse_scalar_number (tok rest : jsstring) :
  forallb number_char tok = true -> json_number tok = true -> delimited rest = true ->
  parse_scalar (tok ++ rest) = Some (Num (StringToNumber tok), rest).
Proof.
  intros H1 H2 D. unfold parse_scalar.
  pose proof (json_number_starts tok H2) as Hs.
  destruct tok as [|c r]; [discriminate|]. simpl in Hs.
  assert (Hc : (c = 45 \/ (48 <= c <= 57))%N).
  { apply orb_true_iff in Hs. destruct Hs as [Hs|Hs].
    - apply N.eqb_eq in Hs. left. exact Hs.
    - unfold is_digit in Hs. apply andb_true_iff in Hs. rewrite !N.leb_le in Hs. right. exact Hs. }
  assert (E : forall a p', (97 <= a)%N -> strip_prefix (a :: p') ((c :: r) ++ rest) = None).
  { intros a p' Ha. cbn [strip_prefix app].
    replace (a =? c)%N with false; [reflexivity|]. symmetry. apply N.eqb_neq. lia. }
  assert (E1 : strip_prefix (js "null") ((c :: r) ++ rest) = None)
    by (apply (E (ch "n")); unfold ch; simpl; lia).
  assert (E2 : strip_prefix (js "true") ((c :: r) ++ rest) = None)
    by (apply (E (ch "t")); unfold ch; simpl; lia).
  assert (E3 : strip_prefix (js "false") ((c :: r) ++ rest) = None)
    by (apply (E (ch "f")); unfold ch; simpl; lia).
  rewrite E1, E2, E3. rewrite span_number_app by assumption. rewrite H2. reflexivity.
Qed.

(** [parse_value] on a text that begins with a number. *)
Lemma parse_value_number (f : nat) (tok rest : jsstring) :
  forallb number_char tok = true -> json_number tok = true -> delimited rest = true ->
  parse_value (S f) (tok ++ rest) = Some (Num (StringToNumber tok), rest).
Proof.
  intros H1 H2 D.
  pose proof (json_number_starts tok H2) as Hs.
  rewrite <- (parse_scalar_number tok rest H1 H2 D).
  destruct tok as [|c r]; [discriminate|]. simpl in Hs.
  assert (Hc : (c = 45 \/ (48 <= c <= 57))%N).
  { apply orb_true_iff in Hs. destruct Hs as [Hs|Hs].
    - apply N.eqb_eq in Hs. left. exact Hs.
    - unfold is_digit in Hs. apply andb_true_iff in Hs. rewrite !N.leb_le in Hs. right. exact Hs. }
  cbn [parse_value app].
  assert (W : is_ws c = false).
  { unfold is_ws. repeat (apply orb_false_iff; split); apply N.eqb_neq; lia. }
  rewrite skip_ws_cons by exact W.
  replace (c =? ch "{")%N with false by (symmetry; apply N.eqb_neq; unfold ch; simpl; lia).
  replace (c =? ch "[")%N with false by (symmetry; apply N.eqb_neq; unfold ch; simpl; lia).
  replace (c =? QUOTE)%N with false by (symmetry; apply N.eqb_neq; unfold QUOTE; lia).
  reflexivity.
Qed.

End TokenFacts.

(* ===================================================================== *)
(** ** The text of arrays and objects *)

Section RoundTrip.
Context {JSN : JSNumber}.

Lemma serialize_Arr (indent : jsstring) (l : list value) :
  SerializeJSONProperty indent (Arr l)
  = Some (wrap "[" "]" indent (indent ++ gap) (map (element_text (indent ++ gap)) l)).
Proof. reflexivity. Qed.

Lemma serialize_Obj (indent : jsstring) (ps : list (jsstring * value)) :
  SerializeJSONProperty indent (Obj ps)
  = Some (wrap "{" "}" indent (indent ++ gap) (members_text (indent ++ gap) ps)).
Proof.
  reflexivity.
Qed.

Lemma wf_value_Obj (ps : list (jsstring * value)) :
  wf_value (Obj ps) = ordered_keys (map fst ps) && wf_props ps.
Proof.
  reflexivity.
Qed.

Lemma json_image_Obj (ps : list (jsstring * value)) :
  json_image (Obj ps) = Obj (image_props ps).
Proof.
  reflexivity.
Qed.

Lemma need_Obj (ps : list (jsstring * value)) : need (Obj ps) = S (need_props ps).
Proof.
  reflexivity.
Qed.

Lemma need_Arr (l : list value) : need (Arr l) = S (need_elements l).
Proof. reflexivity. Qed.

Lemma map_fst_image_props (ps : list (jsstring * value)) :
  map fst (image_props ps) = map fst ps.
Proof. induction ps as [|[k x] r IH]; [reflexivity|]. simpl. rewrite IH. reflexivity. Qed.

Lemma gap_ws (indent : jsstring) :
  forallb is_ws indent = true -> forallb is_ws (indent ++ gap) = true.
Proof. intros H. rewrite forallb_app, H. reflexivity. Qed.

(** *** JSON.parse reads back what JSON.stringify writes *)

Lemma reads_back_elements (indent : jsstring) (l : list value) :
  Forall reads_back l -> forallb wf_value l = true -> l <> [] ->
  forallb is_ws indent = true ->
  forall stepback rest f,
    forallb is_ws stepback = true -> need_elements l <= f ->
    starts_value (join (ch "," :: LF :: indent) (map (element_text indent) l)) = true
    /\ parse_elements f (join (ch "," :: LF :: indent) (map (element_text indent) l)
                           ++ LF :: stepback ++ ch "]" :: rest)
       = Some (map json_image l, rest).
Proof.
  intros HP. induction HP as [|x l Hx HP IH]; intros Hwf Hne Hi stepback rest f Hs Hf;
    [congruence|].
  cbn [forallb] in Hwf. apply andb_true_iff in Hwf. destruct Hwf as [Hwx Hwl].
  cbn [need_elements fold_right] in Hf. fold (need_elements l) in Hf.
  destruct f as [|f]; [lia|].
  destruct l as [|y l'].
  - (* the last element *)
    destruct (Hx Hwx indent (LF :: stepback ++ ch "]" :: rest) f Hi eq_refl ltac:(lia))
      as (t & Et & St & Pt).
    cbn [map join]. unfold element_text at 1 2. rewrite Et. split; [exact St|].
    cbn [parse_elements]. rewrite Pt.
    change (LF :: stepback ++ ch "]" :: rest) with ((LF :: stepback) ++ ch "]" :: rest).
    rewrite skip_ws_app by (simpl; exact Hs).
    reflexivity.
  - (* an element followed by a comma *)
    set (sep := ch "," :: LF :: indent) in *.
    set (tail := LF :: stepback ++ ch "]" :: rest) in *.
    destruct (Hx Hwx indent (sep ++ join sep (map (element_text indent) (y :: l')) ++ tail)
                 f Hi eq_refl ltac:(lia)) as (t & Et & St & Pt).
    assert (J : join sep (map (element_text indent) (x :: y :: l'))
                = t ++ sep ++ join sep (map (element_text indent) (y :: l'))).
    { cbn [map join]. unfold element_text at 1. rewrite Et. reflexivity. }
    rewrite J. split.
    { destruct t; [discriminate | exact St]. }
    rewrite <- !app_assoc. cbn [parse_elements]. rewrite Pt.
    unfold sep at 1. cbn [app skip_ws]. change (is_ws (ch ",")) with false. cbv iota.
    change (ch "," =? ch ",")%N with true. cbv iota.
    change (LF :: indent ++ join sep (map (element_text indent) (y :: l')) ++ tail)
      with ((LF :: indent) ++ join sep (map (element_text indent) (y :: l')) ++ tail).
    rewrite parse_elements_ws by (simpl; exact Hi).
    destruct (IH Hwl ltac:(discriminate) Hi stepback rest f Hs ltac:(lia)) as [_ E].
    fold sep in E. fold tail in E. rewrite E. reflexivity.
Qed.

Lemma members_text_cons (indent k : jsstring) (x : value) (r : list (jsstring * value))
      (t : jsstring) :
  SerializeJSONProperty indent x = Some t ->
  members_text indent ((k, x) :: r)
  = (QuoteJSONString k ++ js ": " ++ t) :: members_text indent r.
Proof. intros E. unfold members_text at 1. rewrite E. reflexivity. Qed.

Lemma wf_props_members (indent : jsstring) (ps : list (jsstring * value)) :
  Forall (fun kv => reads_back (snd kv)) ps -> wf_props ps = true ->
  forallb is_ws indent = true ->
  Forall2 (fun kv m => exists t, SerializeJSONProperty indent (snd kv) = Some t
                                 /\ m = QuoteJSONString (fst kv) ++ js ": " ++ t)
          ps (members_text indent ps).
Proof.
  intros HP. induction HP as [|[k x] ps Hx HP IH]; intros Hwf Hi; [constructor|].
  cbn [wf_props] in Hwf. apply andb_true_iff in Hwf. destruct Hwf as [Hw Hwl].
  apply andb_true_iff in Hw. destruct Hw as [Hk Hwx].
  destruct (Hx Hwx indent [] (need x) Hi eq_refl (le_n _)) as (t & Et & _ & _).
  cbn [snd] in Et. rewrite (members_text_cons _ k _ ps Et). constructor; [|auto].
  exists t. split; [exact Et | reflexivity].
Qed.

Lemma reads_back_members (indent : jsstring) (ps : list (jsstring * value)) :
  Forall (fun kv => reads_back (snd kv)) ps -> wf_props ps = true -> ps <> [] ->
  forallb is_ws indent = true ->
  forall stepback rest f,
    forallb is_ws stepback = true -> need_props ps <= f ->
    starts_value (join (ch "," :: LF :: indent) (members_text indent ps)) = true
    /\ parse_members f (join (ch "," :: LF :: indent) (members_text indent ps)
                          ++ LF :: stepback ++ ch "}" :: rest)
       = Some (image_props ps, rest).
Proof.
  intros HP. induction HP as [|[k x] ps Hx HP IH]; intros Hwf Hne Hi stepback rest f Hs Hf;
    [congruence|].
  cbn [wf_props] in Hwf. apply andb_true_iff in Hwf. destruct Hwf as [Hw Hwl].
  apply andb_true_iff in Hw. destruct Hw as [Hk Hwx].
  cbn [need_props] in Hf. cbn [snd] in Hx.
  destruct f as [|f]; [lia|].
  set (sep := ch "," :: LF :: indent) in *.
  set (tail := LF :: stepback ++ ch "}" :: rest) in *.
  assert (Key : forall t more,
            parse_members (S f) ((QuoteJSONString k ++ js ": " ++ t) ++ more)
            = match parse_value f (t ++ more) with
              | Some (v, r3) =>
                  match skip_ws r3 with
                  | c3 :: r4 =>
                      if N.eqb c3 (ch ",") then
                        match parse_members f r4 with
                        | Some (ps, rest) => Some ((k, v) :: ps, rest)
                        | None => None
                        end
                      else if N.eqb c3 (ch "}") then Some ([(k, v)], r4)
                      else None
                  | [] => None
                  end
              | None => None
              end).
  { intros t more. unfold QuoteJSONString.
    rewrite <- !app_assoc. cbn [app js list_ascii_of_string map].
    cbn [parse_members skip_ws]. change (is_ws QUOTE) with false. cbv iota.
    change (QUOTE =? QUOTE)%N with true. cbv iota.
    rewrite <- app_assoc. cbn [app].
    rewrite parse_string_quote_body by exact Hk.
    cbn [skip_ws]. change (is_ws (ch ":")) with false. cbv iota.
    change (ch ":" =? ch ":")%N with true. cbv iota.
    change (ch " " :: t ++ more) with ([ch " "] ++ t ++ more).
    rewrite parse_value_ws by reflexivity. reflexivity. }
  destruct ps as [|[k' y] ps'].
  - destruct (Hx Hwx indent tail f Hi eq_refl ltac:(lia)) as (t & Et & St & Pt).
    rewrite (members_text_cons _ k _ [] Et). cbn [members_text join]. split; [reflexivity|].
    rewrite Key, Pt. unfold tail.
    change (LF :: stepback ++ ch "}" :: rest) with ((LF :: stepback) ++ ch "}" :: rest).
    rewrite skip_ws_app by (simpl; exact Hs).
    reflexivity.
  - pose proof (wf_props_members indent HP Hwl Hi) as F2.
    remember ((k', y) :: ps') as qs eqn:Eqs.
    assert (Hm : members_text indent qs <> []).
    { intros E. rewrite E in F2. subst qs. inversion F2. }
    destruct (Hx Hwx indent (sep ++ join sep (members_text indent qs) ++ tail)
                 f Hi eq_refl ltac:(lia)) as (t & Et & St & Pt).
    assert (J : join sep (members_text indent ((k, x) :: qs))
                = (QuoteJSONString k ++ js ": " ++ t) ++ sep ++ join sep (members_text indent qs)).
    { rewrite (members_text_cons _ k _ qs Et). cbn [join].
      destruct (members_text indent qs); [congruence | reflexivity]. }
    rewrite J. split; [reflexivity|].
    rewrite <- !app_assoc.
    change (QuoteJSONString k ++ js ": " ++ t ++ sep ++ join sep (members_text indent qs) ++ tail)
      with (QuoteJSONString k ++ js ": " ++ t ++ (sep ++ join sep (members_text indent qs) ++ tail)).
    replace (QuoteJSONString k ++ js ": " ++ t ++ (sep ++ join sep (members_text indent qs) ++ tail))
      with ((QuoteJSONString k ++ js ": " ++ t) ++ (sep ++ join sep (members_text indent qs) ++ tail))
      by (rewrite <- !app_assoc; reflexivity).
    rewrite Key, Pt.
    unfold sep at 1. cbn [app skip_ws]. change (is_ws (ch ",")) with false. cbv iota.
    change (ch "," =? ch ",")%N with true. cbv iota.
    change (LF :: indent ++ join sep (members_text indent qs) ++ tail)
      with ((LF :: indent) ++ join sep (members_text indent qs) ++ tail).
    rewrite parse_members_ws by (simpl; exact Hi).
    destruct (IH Hwl ltac:(subst qs; discriminate) Hi stepback rest f Hs ltac:(lia)) as [_ E].
    fold sep in E. fold tail in E. rewrite E. reflexivity.
Qed.

End RoundTrip.

(* ===================================================================== *)
(** ** JSON.parse reads back what JSON.stringify writes *)

Section ReadsBack.
Context {JSN : JSNumber}.

Lemma reads_back_all (v : value) : reads_back v.
Proof.
  induction v as [| |b|n|s|l IH|ps IH] using value_ind;
    intros Hwf indent rest f Hi D Hf.
  - discriminate.
  - destruct f as [|f]; [simpl in Hf; lia|]. exists (js "null"). auto.
  - destruct f as [|f]; [simpl in Hf; lia|].
    destruct b; [exists (js "true") | exists (js "false")]; auto.
  - destruct f as [|f]; [simpl in Hf; lia|].
    cbn [wf_value] in Hwf. unfold wf_number in Hwf. cbn [SerializeJSONProperty json_image].
    destruct (isFinite n).
    + apply andb_true_iff in Hwf. destruct Hwf as [H1 H2].
      exists (NumberToString n). split; [reflexivity|]. split.
      * apply starts_number_value, json_number_starts, H2.
      * apply parse_value_number; assumption.
    + exists (js "null"). auto.
  - destruct f as [|f]; [simpl in Hf; lia|].
    exists (QuoteJSONString s). split; [reflexivity|]. split; [reflexivity|].
    unfold QuoteJSONString. cbn [app]. rewrite <- app_assoc. cbn [app parse_value skip_ws].
    change (is_ws QUOTE) with false. cbv iota.
    change (QUOTE =? ch "{")%N with false. change (QUOTE =? ch "[")%N with false.
    change (QUOTE =? QUOTE)%N with true. cbv iota.
    rewrite parse_string_quote_body by exact Hwf. reflexivity.
  - rewrite need_Arr in Hf. destruct f as [|f]; [lia|].
    rewrite serialize_Arr. eexists. split; [reflexivity|].
    cbn [wf_value] in Hwf.
    destruct l as [|x l].
    + split; reflexivity.
    + remember (x :: l) as xs eqn:Exs.
      assert (Hne : xs <> []) by (subst xs; discriminate).
      pose proof (gap_ws indent Hi) as Hi'.
      remember (indent ++ gap) as indent' eqn:Ei.
      destruct (@reads_back_elements _ indent' xs IH Hwf Hne Hi' indent rest f Hi ltac:(lia))
        as [St Pe].
      set (partial := map (element_text indent') xs) in *.
      set (J := join (ch "," :: LF :: indent') partial) in *.
      assert (W : wrap "[" "]" indent indent' partial
                  = ch "[" :: (LF :: indent') ++ J ++ LF :: indent ++ [ch "]"]).
      { unfold wrap, J. destruct partial eqn:E; [subst xs; discriminate|]. reflexivity. }
      rewrite W. split; [reflexivity|].
      replace ((ch "[" :: (LF :: indent') ++ J ++ LF :: indent ++ [ch "]"]) ++ rest)
        with (ch "[" :: (LF :: indent') ++ J ++ LF :: indent ++ ch "]" :: rest)
        by (cbn [app]; rewrite <- !app_assoc; cbn [app]; rewrite <- !app_assoc; reflexivity).
      cbn [parse_value]. rewrite skip_ws_cons by reflexivity.
      change (ch "[" =? ch "{")%N with false. change (ch "[" =? ch "[")%N with true. cbv iota.
      rewrite skip_ws_app, parse_elements_ws by (simpl; exact Hi').
      rewrite Pe.
      destruct J as [|c r]; [discriminate|].
      cbn [app]. unfold starts_value in St.
      apply andb_true_iff in St. destruct St as [St _].
      apply andb_true_iff in St. destruct St as [S1 S2].
      apply negb_true_iff in S1, S2. rewrite skip_ws_cons by exact S1. rewrite S2.
      reflexivity.
  - rewrite need_Obj in Hf. destruct f as [|f]; [lia|].
    rewrite serialize_Obj, json_image_Obj. eexists. split; [reflexivity|].
    rewrite wf_value_Obj in Hwf. apply andb_true_iff in Hwf. destruct Hwf as [Hk Hwf].
    destruct ps as [|p ps].
    + split; reflexivity.
    + remember (p :: ps) as qs eqn:Eqs.
      assert (Hne : qs <> []) by (subst qs; discriminate).
      pose proof (gap_ws indent Hi) as Hi'.
      remember (indent ++ gap) as indent' eqn:Ei.
      destruct (@reads_back_members _ indent' qs IH Hwf Hne Hi' indent rest f Hi ltac:(lia))
        as [St Pe].
      pose proof (@wf_props_members _ indent' qs IH Hwf Hi') as F2.
      set (partial := members_text indent' qs) in *.
      set (J := join (ch "," :: LF :: indent') partial) in *.
      assert (W : wrap "{" "}" indent indent' partial
                  = ch "{" :: (LF :: indent') ++ J ++ LF :: indent ++ [ch "}"]).
      { unfold wrap, J. destruct partial eqn:E; [subst qs; inversion F2|]. reflexivity. }
      rewrite W. split; [reflexivity|].
      replace ((ch "{" :: (LF :: indent') ++ J ++ LF :: indent ++ [ch "}"]) ++ rest)
        with (ch "{" :: (LF :: indent') ++ J ++ LF :: indent ++ ch "}" :: rest)
        by (cbn [app]; rewrite <- !app_assoc; cbn [app]; rewrite <- !app_assoc; reflexivity).
      cbn [parse_value]. rewrite skip_ws_cons by reflexivity.
      change (ch "{" =? ch "{")%N with true. cbv iota.
      rewrite skip_ws_app, parse_members_ws by (simpl; exact Hi').
      rewrite Pe.
      destruct J as [|c r]; [discriminate|].
      cbn [app]. unfold starts_value in St.
      apply andb_true_iff in St. destruct St as [St S3].
      apply andb_true_iff in St. destruct St as [S1 _].
      apply negb_true_iff in S1, S3. rewrite skip_ws_cons by exact S1. rewrite S3.
      rewrite define_all_ordered; [reflexivity|].
      rewrite map_fst_image_props. exact Hk.
Qed.

End ReadsBack.

(* ===================================================================== *)
(** ** Fuel *)

Section Fuel.
Context {JSN : JSNumber}.

Lemma skip_ws_length (s : jsstring) : length (skip_ws s) <= length s.
Proof.
  induction s as [|c s IH]; simpl; [lia|]. destruct (is_ws c); simpl; lia.
Qed.

Lemma skip_ws_cons_length (s : jsstring) (c : N) (r : jsstring) :
  skip_ws s = c :: r -> length r < length s.
Proof. intros E. pose proof (skip_ws_length s) as H. rewrite E in H. simpl in H. lia. Qed.

Lemma parse_string_length (s str rest : jsstring) :
  parse_string s = Some (str, rest) -> length rest < length s.
Proof.
  assert (G : forall n s, length s <= n -> forall str rest,
              parse_string s = Some (str, rest) -> length rest < length s).
  { induction n as [|n IH]; intros [|c r] Hn str' rest' H; simpl in Hn; try lia;
      try discriminate.
    cbn [parse_string] in H.
    destruct (N.eqb c QUOTE).
    { inversion H; subst. simpl. lia. }
    destruct (N.eqb c (ch "\")).
    - destruct r as [|e r1]; [discriminate|].
      destruct (N.eqb e (ch "u")).
      + destruct r1 as [|h1 [|h2 [|h3 [|h4 r2]]]]; try discriminate.
        destruct (unhex4 h1 h2 h3 h4); [|discriminate].
        destruct (parse_string r2) as [[str2 rest2]|] eqn:E2; [|discriminate].
        inversion H; subst. apply IH in E2; simpl in *; lia.
      + destruct (unescape e); [|discriminate].
        destruct (parse_string r1) as [[str2 rest2]|] eqn:E2; [|discriminate].
        inversion H; subst. apply IH in E2; simpl in *; lia.
    - destruct (N.ltb c 32); [discriminate|].
      destruct (parse_string r) as [[str2 rest2]|] eqn:E2; [|discriminate].
      inversion H; subst. apply IH in E2; simpl in *; lia. }
  intros H. apply (G (length s) s (le_n _) str rest H).
Qed.

Lemma strip_prefix_length (p s rest : jsstring) :
  strip_prefix p s = Some rest -> length s = length p + length rest.
Proof.
  revert s. induction p as [|a p IH]; intros s H; simpl in *.
  - inversion H. reflexivity.
  - destruct s as [|b s]; [discriminate|]. destruct (N.eqb a b); [|discriminate].
    apply IH in H. simpl. lia.
Qed.

Lemma span_number_length (s tok rest : jsstring) :
  span_number s = (tok, rest) -> length s = length tok + length rest.
Proof.
  revert tok. induction s as [|c s IH]; intros tok H; simpl in H.
  - inversion H. reflexivity.
  - destruct (number_char c).
    + destruct (span_number s) as [t r] eqn:E. inversion H; subst.
      simpl. rewrite (IH t eq_refl). reflexivity.
    + inversion H; subst. reflexivity.
Qed.

Lemma parse_scalar_length (s : jsstring) (v : value) (rest : jsstring) :
  parse_scalar s = Some (v, rest) -> length rest < length s.
Proof.
  unfold parse_scalar. intros H.
  destruct (strip_prefix (js "null") s) as [r|] eqn:E1.
  { inversion H; subst. apply strip_prefix_length in E1. simpl in E1. lia. }
  destruct (strip_prefix (js "true") s) as [r|] eqn:E2.
  { inversion H; subst. apply strip_prefix_length in E2. simpl in E2. lia. }
  destruct (strip_prefix (js "false") s) as [r|] eqn:E3.
  { inversion H; subst. apply strip_prefix_length in E3. simpl in E3. lia. }
  destruct (span_number s) as [tok r] eqn:E4.
  destruct (json_number tok) eqn:E5; [|discriminate].
  inversion H; subst. apply span_number_length in E4.
  apply json_number_starts in E5. destruct tok; [discriminate|]. simpl in E4. lia.
Qed.

(** A result of the parser does not depend on the fuel, once there is twice
    as much of it as characters read. *)
Lemma parse_fuel (f : nat) :
  (forall s v rest, parse_value f s = Some (v, rest) ->
     length rest < length s
     /\ forall g, 2 * (length s - length rest) <= g -> parse_value g s = Some (v, rest))
  /\ (forall s l rest, parse_elements f s = Some (l, rest) ->
        length rest < length s
        /\ forall g, 2 * (length s - length rest) + 1 <= g ->
                     parse_elements g s = Some (l, rest))
  /\ (forall s ps rest, parse_members f s = Some (ps, rest) ->
        length rest < length s
        /\ forall g, 2 * (length s - length rest) + 1 <= g ->
                     parse_members g s = Some (ps, rest)).
Proof.
  induction f as [|f (IHv & IHe & IHm)].
  { repeat split; intros; discriminate. }
  split; [|split].
  - (* parse_value *)
    intros s v rest H. cbn [parse_value] in H.
    destruct (skip_ws s) as [|c r] eqn:Es; [discriminate|].
    pose proof (skip_ws_cons_length s Es) as Ls.
    destruct (N.eqb c (ch "{")) eqn:E1.
    { destruct (skip_ws r) as [|c' r'] eqn:Er; [discriminate|].
      pose proof (skip_ws_cons_length r Er) as Lr.
      destruct (N.eqb c' (ch "}")) eqn:E2.
      - inversion H; subst. split; [lia|]. intros [|g] Hg; [lia|].
        cbn [parse_value]. rewrite Es, E1, Er, E2. reflexivity.
      - destruct (parse_members f r) as [[props rest']|] eqn:Em; [|discriminate].
        inversion H; subst. destruct (IHm _ _ _ Em) as [L G].
        split; [lia|]. intros [|g] Hg; [lia|].
        cbn [parse_value]. rewrite Es, E1, Er, E2, G by lia. reflexivity. }
    destruct (N.eqb c (ch "[")) eqn:E2.
    { destruct (skip_ws r) as [|c' r'] eqn:Er; [discriminate|].
      pose proof (skip_ws_cons_length r Er) as Lr.
      destruct (N.eqb c' (ch "]")) eqn:E3.
      - inversion H; subst. split; [lia|]. intros [|g] Hg; [lia|].
        cbn [parse_value]. rewrite Es, E1, E2, Er, E3. reflexivity.
      - destruct (parse_elements f r) as [[l rest']|] eqn:Em; [|discriminate].
        inversion H; subst. destruct (IHe _ _ _ Em) as [L G].
        split; [lia|]. intros [|g] Hg; [lia|].
        cbn [parse_value]. rewrite Es, E1, E2, Er, E3, G by lia. reflexivity. }
    destruct (N.eqb c QUOTE) eqn:E3.
    { destruct (parse_string r) as [[str rest']|] eqn:Ep; [|discriminate].
      inversion H; subst. pose proof (parse_string_length r Ep) as L.
      split; [lia|]. intros [|g] Hg; [lia|].
      cbn [parse_value]. rewrite Es, E1, E2, E3, Ep. reflexivity. }
    pose proof (parse_scalar_length _ H) as L. simpl in L.
    split; [lia|]. intros [|g] Hg; [lia|].
    cbn [parse_value]. rewrite Es, E1, E2, E3. exact H.
  - (* parse_elements *)
    intros s l rest H. cbn [parse_elements] in H.
    destruct (parse_value f s) as [[v r]|] eqn:Ev; [|discriminate].
    destruct (IHv _ _ _ Ev) as [Lv Gv].
    destruct (skip_ws r) as [|c r'] eqn:Er; [discriminate|].
    pose proof (skip_ws_cons_length r Er) as Lr.
    destruct (N.eqb c (ch ",")) eqn:E1.
    + destruct (parse_elements f r') as [[l' rest']|] eqn:Ee; [|discriminate].
      inversion H; subst. destruct (IHe _ _ _ Ee) as [Le Ge].
      split; [lia|]. intros [|g] Hg; [lia|].
      cbn [parse_elements]. rewrite Gv by lia. rewrite Er, E1, Ge by lia. reflexivity.
    + destruct (N.eqb c (ch "]")) eqn:E2; [|discriminate].
      inversion H; subst. split; [lia|]. intros [|g] Hg; [lia|].
      cbn [parse_elements]. rewrite Gv by lia. rewrite Er, E1, E2. reflexivity.
  - (* parse_members *)
    intros s ps rest H. cbn [parse_members] in H.
    destruct (skip_ws s) as [|c r] eqn:Es; [discriminate|].
    pose proof (skip_ws_cons_length s Es) as Ls.
    destruct (N.eqb c QUOTE) eqn:E1; [|discriminate].
    destruct (parse_string r) as [[k r1]|] eqn:Ek; [|discriminate].
    pose proof (parse_string_length r Ek) as Lk.
    destruct (skip_ws r1) as [|c1 r2] eqn:E1s; [discriminate|].
    pose proof (skip_ws_cons_length r1 E1s) as L1.
    destruct (N.eqb c1 (ch ":")) eqn:E2; [|discriminate].
    destruct (parse_value f r2) as [[v r3]|] eqn:Ev; [|discriminate].
    destruct (IHv _ _ _ Ev) as [Lv Gv].
    destruct (skip_ws r3) as [|c3 r4] eqn:E3s; [discriminate|].
    pose proof (skip_ws_cons_length r3 E3s) as L3.
    destruct (N.eqb c3 (ch ",")) eqn:E3.
    + destruct (parse_members f r4) as [[ps' rest']|] eqn:Em; [|discriminate].
      inversion H; subst. destruct (IHm _ _ _ Em) as [Lm Gm].
      split; [lia|]. intros [|g] Hg; [lia|].
      cbn [parse_members]. rewrite Es, E1, Ek, E1s, E2. rewrite Gv by lia.
      rewrite E3s, E3, Gm by lia. reflexivity.
    + destruct (N.eqb c3 (ch "}")) eqn:E4; [|discriminate].
      inversion H; subst. split; [lia|]. intros [|g] Hg; [lia|].
      cbn [parse_members]. rewrite Es, E1, Ek, E1s, E2. rewrite Gv by lia.
      rewrite E3s, E3, E4. reflexivity.
Qed.

(** The fuel that [JSON_parse] gives is enough for every text: more fuel
    would not make it read a text that it rejects. *)
Theorem JSON_parse_fuel (f : nat) (text : jsstring) (v : value) (rest : jsstring) :
  parse_value f text = Some (v, rest) ->
  parse_value (2 * length text) text = Some (v, rest).
Proof.
  intros H. destruct (parse_fuel f) as [Hv _]. destruct (Hv _ _ _ H) as [L G].
  apply G. lia.
Qed.

(** JSON.parse reads the text of a value back as its image. *)
Theorem JSON_parse_stringify (v : value) :
  wf_value v = true ->
  exists text, JSON_stringify v = Some text /\ JSON_parse text = Some (json_image v).
Proof.
  intros Hwf.
  destruct (@reads_back_all _ v Hwf [] [] (need v) eq_refl eq_refl (le_n _)) as (t & Et & _ & Pt).
  exists t. split; [exact Et|]. unfold JSON_parse. rewrite app_nil_r in Pt.
  rewrite (JSON_parse_fuel _ _ Pt). reflexivity.
Qed.

End Fuel.

(* ===================================================================== *)
(** ** Objects *)

(** *** Array indices *)

Lemma digit_of_units (c : N) (d e : Decimal.uint) :
  digit_of c d = Some e -> uint_units e = c :: uint_units d.
Proof.
  unfold digit_of.
  repeat match goal with
  | |- context [if N.eqb c ?k then _ else _] =>
      let E := fresh "E" in
      destruct (N.eqb c k) eqn:E;
      [apply N.eqb_eq in E; subst c; intros H; inversion H; reflexivity | clear E]
  end.
  discriminate.
Qed.

Lemma uint_of_units_inv (s : jsstring) (d : Decimal.uint) :
  uint_of_units s = Some d -> uint_units d = s.
Proof.
  revert d. induction s as [|c s IH]; intros d H; simpl in H.
  - inversion H. reflexivity.
  - destruct (uint_of_units s) as [e|]; [|discriminate].
    rewrite (digit_of_units _ _ H), (IH e eq_refl). reflexivity.
Qed.

Lemma canonical_unorm (d : Decimal.uint) : canonical d = true -> Decimal.unorm d = d.
Proof.
  destruct d as [|d| | | | | | | | |]; try discriminate; try reflexivity.
  destruct d; try discriminate. reflexivity.
Qed.

Section Objects.
Context {JSN : JSNumber}.

Lemma array_index_inj (k k' : jsstring) (i : N) :
  array_index k = Some i -> array_index k' = Some i -> k = k'.
Proof.
  unfold array_index. intros H H'.
  destruct (uint_of_units k) as [d|] eqn:E; [|discriminate].
  destruct (uint_of_units k') as [d'|] eqn:E'; [|discriminate].
  destruct (canonical d && _) eqn:C; [|discriminate].
  destruct (canonical d' && _) eqn:C'; [|discriminate].
  apply andb_true_iff in C, C'. destruct C as [C _]. destruct C' as [C' _].
  inversion H; inversion H'; subst.
  assert (Ed : d = d').
  { rewrite <- (canonical_unorm d C), <- (canonical_unorm d' C').
    apply Unsigned.of_inj. congruence. }
  subst d'. rewrite <- (uint_of_units_inv _ E), <- (uint_of_units_inv _ E'). reflexivity.
Qed.

(** *** Values that survive JSON *)

Lemma faithful_image (v : value) : faithful v -> json_image v = v.
Proof.
  induction v as [| |b|n|s|l IH|ps IH] using value_ind; intros H; try reflexivity.
  - cbn [faithful] in H. destruct H as [H1 H2]. cbn [json_image]. rewrite H1, H2. reflexivity.
  - cbn [json_image]. f_equal. induction IH as [|x l Hx _ IHl]; [reflexivity|].
    destruct H as [H1 H2]. cbn [map]. rewrite (Hx H1), (IHl H2). reflexivity.
  - rewrite json_image_Obj. f_equal. induction IH as [|[k x] ps Hx _ IHl]; [reflexivity|].
    destruct H as [H1 H2]. cbn [image_props]. cbn [snd] in Hx.
    rewrite (Hx H1), (IHl H2). reflexivity.
Qed.

Corollary JSON_parse_stringify_value (v : value) :
  json_value v ->
  exists text, JSON_stringify v = Some text /\ JSON_parse text = Some v.
Proof.
  intros [Hwf Hf]. destruct (JSON_parse_stringify v Hwf) as (t & E1 & E2).
  exists t. rewrite (faithful_image v Hf) in E2. auto.
Qed.

Lemma json_value_Obj (ps : list (jsstring * value)) :
  json_value (Obj ps) <-> ordered_keys (map fst ps) = true /\ Forall json_property ps.
Proof.
  unfold json_value. rewrite wf_value_Obj, andb_true_iff.
  induction ps as [|[k x] ps IH].
  - cbn. intuition.
  - cbn [wf_props faithful] in *. fold faithful in *.
    rewrite !andb_true_iff. split.
    + intros [[Ho [[Hk Hx] Hps]] [Fx Fps]]. split; [exact Ho|].
      constructor; [split; [exact Hk | split; assumption]|].
      cbn [map ordered_keys] in Ho. apply andb_true_iff in Ho.
      apply IH. tauto.
    + intros [Ho F]. inversion F as [|? ? [Hk [Hx Fx]] F']; subst.
      cbn [map ordered_keys] in Ho. pose proof Ho as Ho'. apply andb_true_iff in Ho'.
      destruct (proj2 IH (conj (proj2 Ho') F')) as [[_ Hps] Fps].
      cbn [fst snd] in *. tauto.
Qed.

Lemma json_value_Arr (l : list value) : json_value (Arr l) <-> Forall json_value l.
Proof.
  unfold json_value. cbn [wf_value faithful]. fold faithful.
  induction l as [|x l IH].
  - cbn. intuition.
  - cbn [forallb]. rewrite andb_true_iff. split.
    + intros [[Hx Hl] [Fx Fl]]. constructor; [split; assumption|]. apply IH. tauto.
    + intros F. inversion F as [|? ? [Hx Fx] F']; subst.
      destruct (proj2 IH F') as [Hl Fl]. tauto.
Qed.

(** *** Defining a property keeps the keys in order *)

Lemma has_key_false_iff (k : jsstring) (o : object) :
  has_key k o = false <-> Forall (fun kv => fst kv <> k) o.
Proof.
  unfold has_key. induction o as [|[k' v] o IH]; simpl.
  - split; [constructor | reflexivity].
  - rewrite orb_false_iff, IH, jsstring_eqb_neq. split.
    + intros [H1 H2]. constructor; [simpl; congruence | exact H2].
    + intros H. inversion H; subst. simpl in *. split; [congruence | assumption].
Qed.

Lemma map_fst_update (k : jsstring) (v : value) (o : object) :
  map fst (update k v o) = map fst o.
Proof.
  induction o as [|[k' v'] o IH]; [reflexivity|]. simpl.
  destruct (jsstring_eqb k k'); simpl; [reflexivity|]. rewrite IH. reflexivity.
Qed.

Lemma forallb_insert_index (P : jsstring -> bool) (i : N) (k : jsstring) (v : value)
      (o : object) :
  forallb P (map fst (insert_index i k v o)) = P k && forallb P (map fst o).
Proof.
  induction o as [|[k' v'] o IH]; simpl; [reflexivity|].
  destruct (array_index k') as [j|]; [destruct (N.ltb j i)|]; simpl; try reflexivity.
  rewrite IH. destruct (P k), (P k'); reflexivity.
Qed.

Lemma key_before_intro (k k' : jsstring) :
  k <> k' ->
  match array_index k, array_index k' with
  | Some i, Some j => (i < j)%N
  | None, Some _ => False
  | _, None => True
  end ->
  key_before k k' = true.
Proof.
  intros Hne H. unfold key_before. apply andb_true_iff. split.
  - apply negb_true_iff, jsstring_eqb_neq, Hne.
  - destruct (array_index k), (array_index k'); try reflexivity; try contradiction.
    apply N.ltb_lt, H.
Qed.

Lemma key_before_elim (k k' : jsstring) :
  key_before k k' = true ->
  k <> k'
  /\ match array_index k, array_index k' with
     | Some i, Some j => (i < j)%N
     | None, Some _ => False
     | _, None => True
     end.
Proof.
  unfold key_before. rewrite andb_true_iff, negb_true_iff, jsstring_eqb_neq.
  intros [H1 H2]. split; [exact H1|].
  destruct (array_index k), (array_index k'); try exact I; try discriminate.
  apply N.ltb_lt, H2.
Qed.

Lemma ordered_keys_insert_index (i : N) (k : jsstring) (v : value) (o : object) :
  array_index k = Some i -> has_key k o = false ->
  ordered_keys (map fst o) = true ->
  ordered_keys (map fst (insert_index i k v o)) = true.
Proof.
  intros Hk. induction o as [|[k' v'] o IH]; intros Hh Ho; [reflexivity|].
  apply has_key_false_iff in Hh. inversion Hh as [|? ? Hne Hh']; subst. cbn [fst] in Hne.
  apply has_key_false_iff in Hh'.
  cbn [map ordered_keys fst] in Ho. apply andb_true_iff in Ho. destruct Ho as [Ho1 Ho2].
  cbn [insert_index].
  assert (Later : forall x, In x (map fst o) -> key_before k' x = true).
  { intros x Hx. rewrite forallb_forall in Ho1. auto. }
  assert (Other : forall x, In x (map fst o) -> x <> k).
  { intros x Hx. apply has_key_false_iff in Hh'. rewrite Forall_forall in Hh'.
    apply in_map_iff in Hx. destruct Hx as (kv & <- & Hkv). auto. }
  destruct (array_index k') as [j|] eqn:Ek'.
  - destruct (N.ltb j i) eqn:Eji.
    + cbn [map ordered_keys fst]. rewrite forallb_insert_index, Ho1, (IH Hh' Ho2).
      rewrite andb_true_r, andb_true_r. apply key_before_intro; [exact Hne|].
      rewrite Ek', Hk. apply N.ltb_lt, Eji.
    + apply N.ltb_ge in Eji.
      assert (Hij : (i < j)%N).
      { assert (i <> j); [|lia]. intros ->. apply Hne. apply (array_index_inj _ _ Ek' Hk). }
      cbn [map ordered_keys fst forallb]. rewrite Ho1, Ho2, !andb_true_r.
      apply andb_true_iff. split.
      * apply key_before_intro; [congruence|]. rewrite Hk, Ek'. exact Hij.
      * apply forallb_forall. intros x Hx.
        apply key_before_intro; [intros E; apply (Other x Hx); congruence|].
        rewrite Hk. destruct (key_before_elim _ _ (Later x Hx)) as [_ B]. rewrite Ek' in B.
        destruct (array_index x); [lia | exact I].
  - cbn [map ordered_keys fst forallb]. rewrite Ho1, Ho2, !andb_true_r.
    apply andb_true_iff. split.
    + apply key_before_intro; [congruence|]. rewrite Hk, Ek'. exact I.
    + apply forallb_forall. intros x Hx.
      apply key_before_intro; [intros E; apply (Other x Hx); congruence|].
      rewrite Hk. destruct (key_before_elim _ _ (Later x Hx)) as [_ B]. rewrite Ek' in B.
      destruct (array_index x); [contradiction | exact I].
Qed.

Lemma ordered_keys_snoc (ks : list jsstring) (k : jsstring) :
  ordered_keys ks = true -> forallb (fun x => key_before x k) ks = true ->
  ordered_keys (ks ++ [k]) = true.
Proof.
  induction ks as [|x ks IH]; simpl; intros Ho Hb; [reflexivity|].
  apply andb_true_iff in Ho, Hb. destruct Ho as [Ho1 Ho2]. destruct Hb as [Hb1 Hb2].
  rewrite forallb_app, Ho1, (IH Ho2 Hb2). simpl. rewrite Hb1. reflexivity.
Qed.

Lemma ordered_keys_obj_set (k : jsstring) (v : value) (o : object) :
  ordered_keys (map fst o) = true -> ordered_keys (map fst (obj_set k v o)) = true.
Proof.
  intros Ho. unfold obj_set. destruct (has_key k o) eqn:Hh.
  - rewrite map_fst_update. exact Ho.
  - destruct (array_index k) as [i|] eqn:Hk.
    + apply ordered_keys_insert_index; assumption.
    + rewrite map_app. cbn [map fst]. apply ordered_keys_snoc; [exact Ho|].
      apply forallb_forall. intros x Hx. apply key_before_intro.
      * apply has_key_false_iff in Hh. rewrite Forall_forall in Hh.
        apply in_map_iff in Hx. destruct Hx as (kv & <- & Hkv). auto.
      * cbn [fst]. rewrite Hk. destruct (array_index x); exact I.
Qed.

Lemma Forall_insert_index (P : jsstring * value -> Prop) (i : N) (k : jsstring) (v : value)
      (o : object) :
  P (k, v) -> Forall P o -> Forall P (insert_index i k v o).
Proof.
  intros Hv. induction 1 as [|[k' v'] o H F IH]; [repeat constructor; exact Hv|]. simpl.
  destruct (array_index k') as [j|]; [destruct (N.ltb j i)|]; repeat constructor; auto.
Qed.

Lemma json_property_update (k : jsstring) (v : value) (o : object) :
  json_value v -> Forall json_property o -> Forall json_property (update k v o).
Proof.
  intros Hv. induction 1 as [|[k' v'] o [H1 H2] F IH]; [constructor|]. simpl.
  destruct (jsstring_eqb k k'); constructor; try assumption; split; assumption.
Qed.

(** The object with one more property defined is still a JSON value. *)
Lemma json_value_obj_set (k : jsstring) (v : value) (o : object) :
  wf_string k = true -> json_value v -> json_value (Obj o) -> json_value (Obj (obj_set k v o)).
Proof.
  intros Hk Hv Ho. apply json_value_Obj in Ho. destruct Ho as [Ho F].
  apply json_value_Obj. split; [apply ordered_keys_obj_set, Ho|].
  unfold obj_set. destruct (has_key k o).
  - apply json_property_update; assumption.
  - destruct (array_index k).
    + apply Forall_insert_index; [split; assumption | exact F].
    + apply Forall_app. split; [exact F|].
      constructor; [split; assumption | constructor].
Qed.

Lemma json_value_define_all (props : list (jsstring * value)) (o : object) :
  Forall json_property props -> json_value (Obj o) -> json_value (Obj (define_all props o)).
Proof.
  intros F. revert o. induction F as [|[k v] props [Hk Hv] _ IH]; intros o Ho; [exact Ho|].
  unfold define_all in *. cbn [fold_left fst snd]. apply IH.
  apply json_value_obj_set; assumption.
Qed.

End Objects.

(* ===================================================================== *)
(** ** The text on disk *)

(** *** Texts of ASCII characters *)

Lemma ascii_text_app (a b : jsstring) : ascii_text (a ++ b) = ascii_text a && ascii_text b.
Proof. apply forallb_app. Qed.

Lemma ascii_text_wf (s : jsstring) : ascii_text s = true -> wf_string s = true.
Proof.
  unfold ascii_text, wf_string. rewrite !forallb_forall. intros H c Hc.
  specialize (H c Hc). apply N.ltb_lt in H. apply N.ltb_lt. lia.
Qed.

Lemma hex_digit_ascii (d : N) : (d < 16)%N -> (hex_digit d < 128)%N.
Proof. intros H. unfold hex_digit. destruct (N.ltb d 10); lia. Qed.

Lemma hex2_ascii (c : N) : ascii_text (hex2 c) = true.
Proof.
  unfold hex2, ascii_text. cbn [forallb].
  rewrite !andb_true_iff. repeat split; try reflexivity;
    apply N.ltb_lt, hex_digit_ascii, N.mod_lt; discriminate.
Qed.

Lemma hex4_ascii (c : N) : ascii_text (hex4 c) = true.
Proof.
  unfold hex4, ascii_text. cbn [forallb].
  rewrite !andb_true_iff. repeat split; try reflexivity;
    apply N.ltb_lt, hex_digit_ascii, N.mod_lt; discriminate.
Qed.

Lemma uuid_stringify_ascii (rnds : list N) : ascii_text (uuid_stringify rnds) = true.
Proof.
  unfold uuid_stringify. rewrite !ascii_text_app, !hex2_ascii. reflexivity.
Qed.

Lemma uuid_stringify_length (rnds : list N) : length (uuid_stringify rnds) = 36.
Proof. reflexivity. Qed.

Lemma pad_ascii (width : nat) (n : Z) : ascii_text (pad width n) = true.
Proof.
  revert n. induction width as [|w IH]; intros n; [reflexivity|].
  cbn [pad]. rewrite ascii_text_app, IH. unfold ascii_text. cbn [forallb andb].
  rewrite andb_true_r. apply N.ltb_lt.
  pose proof (Z.mod_pos_bound n 10 ltac:(lia)) as B.
  generalize dependent (n mod 10)%Z. intros r B. lia.
Qed.

Lemma iso_year_ascii (y : Z) : ascii_text (iso_year y) = true.
Proof.
  unfold iso_year. destruct (_ && _); [apply pad_ascii|].
  change (ascii_text (?c :: ?s)) with (N.ltb c 128 && ascii_text s).
  rewrite pad_ascii. destruct (Z.ltb y 0); reflexivity.
Qed.

Lemma iso_format_ascii (t : Z) : ascii_text (iso_format t) = true.
Proof.
  unfold iso_format. destruct (civil_from_days (t / msPerDay)) as [[y m] d].
  repeat (rewrite ascii_text_app; apply andb_true_iff; split);
    first [apply iso_year_ascii | apply pad_ascii | reflexivity].
Qed.

Lemma toISOString_ascii (t : Z) (s : jsstring) :
  toISOString t = Return s -> ascii_text s = true.
Proof.
  unfold toISOString. destruct (valid_time t); [|discriminate].
  intros [= <-]. apply iso_format_ascii.
Qed.

Lemma uint_units_ascii (d : Decimal.uint) : ascii_text (uint_units d) = true.
Proof. induction d; simpl; auto. Qed.

Lemma number_char_ascii (tok : jsstring) :
  forallb number_char tok = true -> ascii_text tok = true.
Proof.
  unfold ascii_text. rewrite !forallb_forall. intros H c Hc. specialize (H c Hc).
  unfold number_char, is_digit in H. apply N.ltb_lt.
  rewrite !orb_true_iff, andb_true_iff, !N.leb_le, !N.eqb_eq in H.
  unfold ch in H. simpl in H. lia.
Qed.

Lemma scalar_text_app (a b : jsstring) : scalar_text a -> scalar_text b -> scalar_text (a ++ b).
Proof.
  induction 1 as [|c s Hc Hs IH|c d s Hc Hd Hs IH]; intros Hb; simpl.
  - exact Hb.
  - apply scalar_unit; auto.
  - apply scalar_pair; auto.
Qed.

Lemma scalar_text_utf8 (s : jsstring) : scalar_text s -> utf8_roundtrip s = s.
Proof.
  induction 1 as [|c s Hc _ IH|c d s Hc Hd _ IH]; [reflexivity| |].
  - cbn [utf8_roundtrip]. unfold is_surrogate in Hc. apply orb_false_iff in Hc.
    destruct Hc as [-> ->]. rewrite IH. reflexivity.
  - cbn [utf8_roundtrip]. rewrite Hc, Hd, IH. reflexivity.
Qed.

Lemma ascii_scalar (s : jsstring) : ascii_text s = true -> scalar_text s.
Proof.
  induction s as [|c s IH]; intros H; [constructor|].
  unfold ascii_text in H. cbn [forallb] in H. apply andb_true_iff in H.
  destruct H as [Hc Hs]. apply N.ltb_lt in Hc. constructor; [|auto].
  unfold is_surrogate, is_high_surrogate, is_low_surrogate.
  rewrite !orb_false_iff, !andb_false_iff, !N.leb_gt. lia.
Qed.

Lemma scalar_text_join (sep : jsstring) (parts : list jsstring) :
  scalar_text sep -> Forall scalar_text parts -> scalar_text (join sep parts).
Proof.
  intros Hs. induction 1 as [|p parts Hp F IH]; [constructor|].
  cbn [join]. destruct parts as [|q parts]; [exact Hp|].
  apply scalar_text_app; [exact Hp|]. apply scalar_text_app; assumption.
Qed.

Section Disk.
Context {JSN : JSNumber}.

Lemma escape_unit_scalar (c : N) : is_surrogate c = false -> scalar_text (escape_unit c).
Proof.
  intros H. unfold escape_unit.
  repeat match goal with
  | |- context [if ?b then _ else _] => destruct b; [apply ascii_scalar; reflexivity|]
  end.
  destruct (N.ltb c 32).
  - unfold unicode_escape. apply scalar_text_app; apply ascii_scalar;
      [reflexivity | apply hex4_ascii].
  - constructor; [exact H | constructor].
Qed.

Lemma unicode_escape_scalar (c : N) : scalar_text (unicode_escape c).
Proof.
  unfold unicode_escape. apply scalar_text_app; apply ascii_scalar;
    [reflexivity | apply hex4_ascii].
Qed.

Lemma quote_body_scalar (s : jsstring) : scalar_text (quote_body s).
Proof.
  assert (G : forall n s, length s <= n -> scalar_text (quote_body s)).
  { induction n as [|n IH]; intros [|c r] Hn; simpl in Hn; try lia; try constructor.
    cbn [quote_body]. destruct (is_high_surrogate c) eqn:Eh.
    - destruct r as [|d r']; [apply unicode_escape_scalar|].
      destruct (is_low_surrogate d) eqn:El.
      + apply scalar_pair; [assumption | assumption |]. apply IH. simpl in Hn. lia.
      + apply scalar_text_app; [apply unicode_escape_scalar | apply IH; lia].
    - destruct (is_low_surrogate c) eqn:El.
      + apply scalar_text_app; [apply unicode_escape_scalar | apply IH; lia].
      + apply scalar_text_app; [|apply IH; lia].
        apply escape_unit_scalar. unfold is_surrogate. rewrite Eh, El. reflexivity. }
  apply (G (length s)). lia.
Qed.

Lemma QuoteJSONString_scalar (s : jsstring) : scalar_text (QuoteJSONString s).
Proof.
  unfold QuoteJSONString. apply (scalar_text_app (a := [QUOTE])).
  - apply ascii_scalar. reflexivity.
  - apply scalar_text_app; [apply quote_body_scalar | apply ascii_scalar; reflexivity].
Qed.

Lemma wrap_scalar (open close : string) (stepback indent : jsstring) (partial : list jsstring) :
  ascii_text (js open) = true -> ascii_text (js close) = true ->
  scalar_text stepback -> scalar_text indent -> Forall scalar_text partial ->
  scalar_text (wrap open close stepback indent partial).
Proof.
  intros Ho Hc Hs Hi F. unfold wrap. destruct partial as [|p partial].
  - apply scalar_text_app; apply ascii_scalar; assumption.
  - repeat apply scalar_text_app; try (apply ascii_scalar; assumption);
      try (apply ascii_scalar; reflexivity); try assumption.
    apply scalar_text_join; [|exact F].
    apply (scalar_text_app (a := [ch ","; LF])); [apply ascii_scalar; reflexivity | exact Hi].
Qed.

Lemma serialize_scalar (v : value) :
  wf_value v = true ->
  forall indent t, scalar_text indent -> SerializeJSONProperty indent v = Some t ->
                   scalar_text t.
Proof.
  induction v as [| |b|n|s|l IH|ps IH] using value_ind; intros Hwf indent t Hi E.
  - discriminate.
  - inversion E. apply ascii_scalar. reflexivity.
  - destruct b; inversion E; apply ascii_scalar; reflexivity.
  - cbn [SerializeJSONProperty] in E. cbn [wf_value] in Hwf. unfold wf_number in Hwf.
    inversion E. destruct (isFinite n); [|apply ascii_scalar; reflexivity].
    apply andb_true_iff in Hwf. apply ascii_scalar, number_char_ascii, Hwf.
  - inversion E. apply QuoteJSONString_scalar.
  - rewrite serialize_Arr in E. inversion E. cbn [wf_value] in Hwf.
    assert (Hi' : scalar_text (indent ++ gap))
      by (apply scalar_text_app; [exact Hi | apply ascii_scalar; reflexivity]).
    apply wrap_scalar; try reflexivity; try assumption.
    clear E H0. induction IH as [|x l Hx _ IHl]; [constructor|].
    cbn [forallb] in Hwf. apply andb_true_iff in Hwf. destruct Hwf as [Hwx Hwl].
    cbn [map]. constructor; [|auto].
    unfold element_text. destruct (SerializeJSONProperty (indent ++ gap) x) eqn:Ex.
    + apply (Hx Hwx _ _ Hi' Ex).
    + apply ascii_scalar. reflexivity.
  - rewrite serialize_Obj in E. inversion E.
    rewrite wf_value_Obj in Hwf. apply andb_true_iff in Hwf. destruct Hwf as [_ Hwf].
    assert (Hi' : scalar_text (indent ++ gap))
      by (apply scalar_text_app; [exact Hi | apply ascii_scalar; reflexivity]).
    apply wrap_scalar; try reflexivity; try assumption.
    clear E H0. induction IH as [|[k x] ps Hx _ IHl]; [constructor|].
    cbn [wf_props] in Hwf. apply andb_true_iff in Hwf. destruct Hwf as [Hw Hwl].
    apply andb_true_iff in Hw. destruct Hw as [Hk Hwx]. cbn [snd] in Hx.
    destruct (SerializeJSONProperty (indent ++ gap) x) eqn:Ex.
    + rewrite (members_text_cons _ k _ ps Ex). constructor; [|auto].
      apply scalar_text_app; [apply QuoteJSONString_scalar|].
      apply scalar_text_app; [apply ascii_scalar; reflexivity|].
      apply (Hx Hwx _ _ Hi' Ex).
    + unfold members_text in *. rewrite Ex. auto.
Qed.

(** The text of a value comes back from the disk as it was written. *)
Lemma stringify_utf8 (v : value) (text : jsstring) :
  wf_value v = true -> JSON_stringify v = Some text -> utf8_roundtrip text = text.
Proof.
  intros Hwf E. apply scalar_text_utf8. apply (serialize_scalar v Hwf (indent := [])).
  - constructor.
  - exact E.
Qed.

Lemma stringify_Arr_total (l : list value) : exists text, JSON_stringify (Arr l) = Some text.
Proof. unfold JSON_stringify. rewrite serialize_Arr. eauto. Qed.

(** *** The record that create builds *)

Lemma wf_string_index (n : N) : wf_string (decimal_of_N n) = true.
Proof. apply ascii_text_wf, uint_units_ascii. Qed.

Lemma json_property_indexed (A : Type) (f : A -> value) (l : list A) :
  Forall (fun x => json_value (f x)) l ->
  forall from, Forall json_property (indexed f from l).
Proof.
  induction 1 as [|x l Hx _ IH]; intros from; [constructor|].
  cbn [indexed]. constructor; [|apply IH]. split; [apply wf_string_index | exact Hx].
Qed.

Lemma json_property_own (source : value) :
  json_value source -> Forall json_property (own_properties source).
Proof.
  intros H. destruct source as [| |b|n|s|l|ps]; try constructor.
  - apply json_property_indexed. destruct H as [Hw _]. cbn [wf_value] in Hw.
    unfold wf_string in Hw. rewrite forallb_forall in Hw. apply Forall_forall.
    intros c Hc. split; [|exact I]. cbn. rewrite (Hw c Hc). reflexivity.
  - apply json_property_indexed. apply json_value_Arr in H.
    apply Forall_forall. intros x Hx. rewrite Forall_forall in H. auto.
  - apply json_value_Obj in H. apply H.
Qed.

Lemma json_value_Str (s : jsstring) : wf_string s = true -> json_value (Str s).
Proof. intros H. split; [exact H | exact I]. Qed.

(** The new record is a JSON value when the request body is one. *)
Lemma json_value_portfolio_literal (id : jsstring) (req_body : value) (createdAt updatedAt : jsstring) :
  wf_string id = true -> wf_string createdAt = true -> wf_string updatedAt = true ->
  json_value req_body ->
  json_value (portfolio_literal id req_body createdAt updatedAt).
Proof.
  intros Hid Hc Hu Hb. unfold portfolio_literal, spread.
  apply json_value_obj_set; [reflexivity | apply json_value_Str, Hu |].
  apply json_value_obj_set; [reflexivity | apply json_value_Str, Hc |].
  apply json_value_define_all; [apply json_property_own, Hb|].
  apply json_value_obj_set; [reflexivity | apply json_value_Str, Hid |].
  split; [reflexivity | exact I].
Qed.

End Disk.

(* ===================================================================== *)
(** ** Dates *)

(** *** toISOString writes ISO 8601 *)

Lemma civil_from_days_range (days y m d : Z) :
  civil_from_days days = (y, m, d) -> (1 <= m <= 12 /\ 1 <= d <= 31)%Z.
Proof.
  unfold civil_from_days. intros H.
  set (doe := ((days + 719468) mod 146097)%Z) in *.
  assert (Hdoe : (0 <= doe < 146097)%Z) by (apply Z.mod_pos_bound; lia).
  set (yoe := ((doe - doe / 1460 + doe / 36524 - doe / 146096) / 365)%Z) in *.
  set (doy := (doe - (365 * yoe + yoe / 4 - yoe / 100))%Z) in *.
  assert (Hdoy : (0 <= doy <= 365)%Z).
  { subst doy yoe. clear H. Z.div_mod_to_equations. lia. }
  set (mp := ((5 * doy + 2) / 153)%Z) in *.
  assert (Hmp : (0 <= mp <= 11)%Z) by (subst mp; Z.div_mod_to_equations; lia).
  assert (Hd : (1 <= doy - (153 * mp + 2) / 5 + 1 <= 31)%Z).
  { subst mp. clear H. Z.div_mod_to_equations. lia. }
  injection H as _ Hm Hdd. subst m d. split; [|exact Hd].
  destruct (Z.ltb mp 10) eqn:E; [apply Z.ltb_lt in E | apply Z.ltb_ge in E]; lia.
Qed.

Lemma is_digit_pad (n : Z) : is_digit (Z.to_N (48 + n mod 10)) = true.
Proof.
  pose proof (Z.mod_pos_bound n 10 ltac:(lia)) as B.
  generalize dependent (n mod 10)%Z. intros r B.
  unfold is_digit. apply andb_true_iff. rewrite !N.leb_le. lia.
Qed.

Lemma two_digits_pad (n : Z) (lo hi : N) :
  (0 <= n < 100)%Z -> (lo <= Z.to_N n <= hi)%N ->
  two_digits (Z.to_N (48 + (n / 10) mod 10)) (Z.to_N (48 + n mod 10)) lo hi = true.
Proof.
  intros Hn Hb. unfold two_digits. rewrite !is_digit_pad. cbn [andb].
  assert (E : (10 * (Z.to_N (48 + (n / 10) mod 10) - 48) + (Z.to_N (48 + n mod 10) - 48)
               = Z.to_N n)%N).
  { rewrite (Z.mod_small (n / 10) 10) by (Z.div_mod_to_equations; lia).
    pose proof (Z.mod_pos_bound n 10 ltac:(lia)) as B.
    pose proof (Z.div_mod n 10 ltac:(lia)) as D.
    assert (0 <= n / 10)%Z by (Z.div_mod_to_equations; lia). lia. }
  rewrite E. apply andb_true_iff. rewrite !N.leb_le. exact Hb.
Qed.

Lemma pad_2 (n : Z) : pad 2 n = [Z.to_N (48 + (n / 10) mod 10); Z.to_N (48 + n mod 10)].
Proof. reflexivity. Qed.

Lemma pad_3 (n : Z) :
  pad 3 n = [Z.to_N (48 + (n / 10 / 10) mod 10); Z.to_N (48 + (n / 10) mod 10);
             Z.to_N (48 + n mod 10)].
Proof. reflexivity. Qed.

Lemma pad_4 (n : Z) :
  pad 4 n = [Z.to_N (48 + (n / 10 / 10 / 10) mod 10); Z.to_N (48 + (n / 10 / 10) mod 10);
             Z.to_N (48 + (n / 10) mod 10); Z.to_N (48 + n mod 10)].
Proof. reflexivity. Qed.

Lemma pad_6 (n : Z) :
  pad 6 n = [Z.to_N (48 + (n / 10 / 10 / 10 / 10 / 10) mod 10);
             Z.to_N (48 + (n / 10 / 10 / 10 / 10) mod 10);
             Z.to_N (48 + (n / 10 / 10 / 10) mod 10); Z.to_N (48 + (n / 10 / 10) mod 10);
             Z.to_N (48 + (n / 10) mod 10); Z.to_N (48 + n mod 10)].
Proof. reflexivity. Qed.

Lemma digit_not_sign (n : Z) :
  N.eqb (Z.to_N (48 + n mod 10)) (ch "+") || N.eqb (Z.to_N (48 + n mod 10)) (ch "-") = false.
Proof.
  pose proof (Z.mod_pos_bound n 10 ltac:(lia)) as B.
  generalize dependent (n mod 10)%Z. intros r B.
  change (ch "+") with 43%N. change (ch "-") with 45%N.
  apply orb_false_iff. split; apply N.eqb_neq; lia.
Qed.

(** The text of every time value is of the ISO 8601 shape. *)
Theorem iso_format_valid (t : Z) : is_iso8601 (iso_format t) = true.
Proof.
  unfold iso_format.
  destruct (civil_from_days (t / msPerDay)) as [[y m] d] eqn:E.
  apply civil_from_days_range in E. destruct E as [Hm Hd].
  assert (Hms : (0 <= t mod msPerDay < 86400000)%Z) by (apply Z.mod_pos_bound; reflexivity).
  set (ms := (t mod msPerDay)%Z) in *.
  assert (H1 : two_digits (Z.to_N (48 + (m / 10) mod 10)) (Z.to_N (48 + m mod 10)) 1 12 = true)
    by (apply two_digits_pad; lia).
  assert (H2 : two_digits (Z.to_N (48 + (d / 10) mod 10)) (Z.to_N (48 + d mod 10)) 1 31 = true)
    by (apply two_digits_pad; lia).
  assert (H3 : forall n hi, (0 <= n <= Z.of_N hi)%Z -> (hi < 100)%N ->
            two_digits (Z.to_N (48 + (n / 10) mod 10)) (Z.to_N (48 + n mod 10)) 0 hi = true)
    by (intros n hi Hn Hhi; apply two_digits_pad; lia).
  assert (Hh : (0 <= ms / 3600000 <= 23)%Z) by (Z.div_mod_to_equations; lia).
  assert (Hn : (0 <= (ms / 60000) mod 60 <= 59)%Z) by (Z.div_mod_to_equations; lia).
  assert (Hs : (0 <= (ms / 1000) mod 60 <= 59)%Z) by (Z.div_mod_to_equations; lia).
  unfold iso_year. destruct (Z.leb 0 y && Z.leb y 9999).
  - rewrite pad_4, !pad_2, pad_3.
    cbn [js list_ascii_of_string map app is_iso8601 iso8601_after_year forallb].
    rewrite digit_not_sign, !is_digit_pad, H1, H2, !H3 by (assumption || reflexivity).
    reflexivity.
  - rewrite pad_6, !pad_2, pad_3.
    cbn [js list_ascii_of_string map app is_iso8601 iso8601_after_year forallb].
    replace (N.eqb (if Z.ltb y 0 then ch "-" else ch "+") (ch "+")
             || N.eqb (if Z.ltb y 0 then ch "-" else ch "+") (ch "-")) with true
      by (destruct (Z.ltb y 0); reflexivity).
    rewrite !is_digit_pad, H1, H2, !H3 by (assumption || reflexivity).
    reflexivity.
Qed.

Theorem toISOString_valid (t : Z) :
  valid_time t = true ->
  toISOString t = Return (iso_format t) /\ is_iso8601 (iso_format t) = true.
Proof.
  intros H. unfold toISOString. rewrite H. split; [reflexivity | apply iso_format_valid].
Qed.

(* ===================================================================== *)
(** ** The store *)

Section StoreFacts.
Context {JSN : JSNumber}.

Lemma readPortfolios_loads (w : World) (text : jsstring) (v : value) :
  next_fault w = None -> disk w = Some text -> JSON_parse text = Some v ->
  readPortfolios w = (Return v, called ReadFile (disk w) w).
Proof.
  intros Hf Hd Hp. unfold readPortfolios, try_catch, bind, fs_readFile, parse_text.
  rewrite Hf, Hd, Hp. reflexivity.
Qed.

(** [readPortfolios] returns, whatever the file holds, and leaves it as it is. *)
Lemma readPortfolios_returns (w : World) :
  exists v w', readPortfolios w = (Return v, w')
               /\ disk w' = disk w
               /\ fs_calls w' = fs_calls w ++ [ReadFile]
               /\ fs_faults w' = tl (fs_faults w)
               /\ entropy w' = entropy w /\ clock w' = clock w.
Proof.
  unfold readPortfolios, try_catch, bind, fs_readFile, parse_text.
  destruct (next_fault w) as [f|]; [|destruct (disk w) as [text|] eqn:Ed];
    try (do 2 eexists; split; [reflexivity|]; cbn; rewrite ?Ed; auto 10).
  destruct (JSON_parse text);
    do 2 eexists; (split; [reflexivity|]); cbn; rewrite ?Ed; auto 10.
Qed.

Lemma writePortfolios_saves (portfolios : value) (text : jsstring) (w : World) :
  JSON_stringify portfolios = Some text -> next_fault w = None ->
  writePortfolios portfolios w
  = (Return tt, called (WriteFile text) (Some (utf8_roundtrip text)) w).
Proof.
  intros Hs Hf. unfold writePortfolios, try_catch, write_text, fs_writeFile.
  rewrite Hs, Hf. reflexivity.
Qed.

Lemma writePortfolios_rethrows (portfolios : value) (text : jsstring) (w : World) (f : fault) :
  JSON_stringify portfolios = Some text -> next_fault w = Some f ->
  writePortfolios portfolios w
  = (Throw (fault_error f),
     logged "Error writing portfolios:" (fault_error f)
            (called (WriteFile text) (fault_leaves f) w)).
Proof.
  intros Hs Hf. unfold writePortfolios, try_catch, write_text, fs_writeFile.
  rewrite Hs, Hf. reflexivity.
Qed.

Lemma newPortfolio_builds (req_body : value) (w : World) :
  valid_time (first_reading w) = true -> valid_time (second_reading w) = true ->
  newPortfolio req_body w = (Return (new_record req_body w), literal_evaluated w).
Proof.
  intros H1 H2.
  unfold newPortfolio, bind, uuidv4, new_Date_toISOString, bind, Date_now, lift, toISOString.
  cbn [clock drew ticked]. unfold first_reading, second_reading in *.
  rewrite H1, H2. reflexivity.
Qed.

(** *** Scanning for an id *)

Lemma findIndex_from_none (id : jsstring) (l : list value) (i : nat) :
  Forall (fun x => matches_id id x = Return false) l ->
  findIndex_from id l i = Return None.
Proof.
  intros F. revert i. induction F as [|x l Hx _ IH]; intros i; [reflexivity|].
  cbn [findIndex_from]. rewrite Hx. apply IH.
Qed.

Lemma findIndex_from_first (id : jsstring) (pre : list value) (r : value) (post : list value)
      (i : nat) :
  Forall (fun x => matches_id id x = Return false) pre -> matches_id id r = Return true ->
  findIndex_from id (pre ++ r :: post) i = Return (Some (i + length pre)).
Proof.
  intros F Hr. revert i. induction F as [|x l Hx _ IH]; intros i.
  - cbn. rewrite Hr. f_equal. f_equal. lia.
  - cbn [app findIndex_from length]. rewrite Hx, IH. f_equal. f_equal. lia.
Qed.

(** Where an id matches a record of a collection of objects, there is a
    first record that it matches. *)
Lemma first_match_exists (id : jsstring) (l : list value) :
  Forall (fun x => exists b, matches_id id x = Return b) l ->
  Exists (fun x => matches_id id x = Return true) l ->
  exists pre r post,
    l = pre ++ r :: post
    /\ Forall (fun x => matches_id id x = Return false) pre
    /\ matches_id id r = Return true.
Proof.
  induction 1 as [|x l [b Hx] F IH]; intros E; [inversion E|].
  destruct b.
  - exists [], x, l. repeat split; [constructor | exact Hx].
  - inversion E as [? ? Hx'|? ? E']; subst; [congruence|].
    destruct (IH E') as (pre & r & post & -> & Fp & Hr).
    exists (x :: pre), r, post. repeat split; [constructor; assumption | exact Hr].
Qed.

Lemma splice_middle (pre : list value) (r : value) (post : list value) :
  splice_one (Arr (pre ++ r :: post)) (length pre) = Return (r, Arr (pre ++ post)).
Proof.
  unfold splice_one. rewrite nth_middle.
  assert (E1 : firstn (length pre) (pre ++ r :: post) = pre).
  { rewrite firstn_app, Nat.sub_diag, firstn_all. cbn [firstn]. apply app_nil_r. }
  assert (E2 : skipn (S (length pre)) (pre ++ r :: post) = post).
  { rewrite skipn_app, skipn_all2 by lia.
    replace (S (length pre) - length pre) with 1 by lia. reflexivity. }
  rewrite E1, E2. reflexivity.
Qed.

End StoreFacts.

(* ===================================================================== *)
(** ** Fields *)

Section Fields.
Context {JSN : JSNumber}.

(** *** The fields of an object literal *)

Lemma has_key_lookup (k : jsstring) (o : object) :
  has_key k o = false <-> lookup k o = None.
Proof.
  unfold has_key. induction o as [|[k' v'] o IH]; simpl; [tauto|].
  destruct (jsstring_eqb k k'); simpl; [split; discriminate | exact IH].
Qed.

Lemma lookup_update (k k' : jsstring) (v : value) (o : object) :
  lookup k' (update k v o)
  = if jsstring_eqb k' k then (if has_key k o then Some v else None) else lookup k' o.
Proof.
  unfold has_key. induction o as [|[k0 v0] o IH]; simpl.
  - destruct (jsstring_eqb k' k); reflexivity.
  - destruct (jsstring_eqb k k0) eqn:E0; simpl.
    + apply jsstring_eqb_eq in E0. subst k0.
      destruct (jsstring_eqb k' k); reflexivity.
    + rewrite IH. destruct (jsstring_eqb k' k) eqn:E1; [|reflexivity].
      apply jsstring_eqb_eq in E1. subst k'. rewrite E0. reflexivity.
Qed.

Lemma lookup_app (k : jsstring) (a b : object) :
  lookup k (a ++ b) = match lookup k a with Some v => Some v | None => lookup k b end.
Proof.
  induction a as [|[k' v'] a IH]; simpl; [reflexivity|].
  destruct (jsstring_eqb k k'); [reflexivity | exact IH].
Qed.

Lemma lookup_insert_index (i : N) (k k' : jsstring) (v : value) (o : object) :
  lookup k o = None ->
  lookup k' (insert_index i k v o) = if jsstring_eqb k' k then Some v else lookup k' o.
Proof.
  induction o as [|[k0 v0] o IH]; simpl; intros H; [reflexivity|].
  destruct (jsstring_eqb k k0) eqn:E0; [discriminate|].
  assert (G : lookup k' ((k, v) :: (k0, v0) :: o)
              = if jsstring_eqb k' k then Some v
                else if jsstring_eqb k' k0 then Some v0 else lookup k' o) by reflexivity.
  destruct (array_index k0) as [j|]; [destruct (N.ltb j i)|]; try exact G.
  simpl. rewrite (IH H).
  destruct (jsstring_eqb k' k0) eqn:E1; [|reflexivity].
  apply jsstring_eqb_eq in E1. subst k0.
  destruct (jsstring_eqb k' k) eqn:E2; [|reflexivity].
  apply jsstring_eqb_eq in E2. subst k'. rewrite jsstring_eqb_refl in E0. discriminate.
Qed.

(** Defining [k] sets it, and leaves the other properties as they are. *)
Lemma lookup_obj_set (k k' : jsstring) (v : value) (o : object) :
  lookup k' (obj_set k v o) = if jsstring_eqb k' k then Some v else lookup k' o.
Proof.
  unfold obj_set. destruct (has_key k o) eqn:Hh.
  - rewrite lookup_update, Hh. reflexivity.
  - apply has_key_lookup in Hh. destruct (array_index k) as [i|].
    + apply lookup_insert_index, Hh.
    + rewrite lookup_app. simpl.
      destruct (jsstring_eqb k' k) eqn:E.
      * apply jsstring_eqb_eq in E. subst k'. rewrite Hh. reflexivity.
      * destruct (lookup k' o); reflexivity.
Qed.

Lemma lookup_define_all (k : jsstring) (props : list (jsstring * value)) (o : object) :
  lookup k (define_all props o)
  = match lookup k (rev props) with
    | Some v => Some v
    | None => lookup k o
    end.
Proof.
  revert o. induction props as [|[k' v'] props IH]; intros o; [reflexivity|].
  unfold define_all in *. cbn [fold_left fst snd rev]. rewrite IH, lookup_app, lookup_obj_set.
  destruct (lookup k (rev props)); [reflexivity|]. simpl.
  destruct (jsstring_eqb k k'); reflexivity.
Qed.

(** The precedence in the literal of a create: the two timestamps are the
    server's, whatever the caller sent; the [id] is the caller's when the
    body has one, and the generated one otherwise. *)
Theorem portfolio_literal_fields (id : jsstring) (req_body : value) (createdAt updatedAt : jsstring) :
  own (portfolio_literal id req_body createdAt updatedAt) (js "createdAt") = Some (Str createdAt)
  /\ own (portfolio_literal id req_body createdAt updatedAt) (js "updatedAt")
     = Some (Str updatedAt)
  /\ own (portfolio_literal id req_body createdAt updatedAt) (js "id")
     = match copied req_body (js "id") with
       | Some v => Some v
       | None => Some (Str id)
       end.
Proof.
  unfold portfolio_literal, own, spread, copied.
  rewrite !lookup_obj_set, !lookup_define_all, !lookup_obj_set.
  repeat split.
Qed.

(** *** Distinct ids *)

(** A create keeps the ids distinct when the body brings no [id] and the
    generated one is not in use. *)
Lemma create_keeps_ids_distinct (req_body : value) (w : World) (l : list value) :
  copied req_body (js "id") = None ->
  ~ In (Some (Str (generated_id w))) (map (fun portfolio => own portfolio (js "id")) l) ->
  distinct_ids l -> distinct_ids (l ++ [new_record req_body w]).
Proof.
  intros Hb Hfresh Hl. unfold distinct_ids in *. rewrite map_app. cbn [map].
  unfold new_record.
  destruct (portfolio_literal_fields (generated_id w) req_body
              (iso_format (first_reading w)) (iso_format (second_reading w))) as (_ & _ & E).
  rewrite E, Hb.
  apply NoDup_app; [exact Hl | repeat constructor; intros [] | ].
  intros x Hx [<-|[]]. exact (Hfresh Hx).
Qed.

(** A delete keeps the ids distinct. *)
Lemma delete_keeps_ids_distinct (pre : list value) (r : value) (post : list value) :
  distinct_ids (pre ++ r :: post) -> distinct_ids (pre ++ post).
Proof.
  unfold distinct_ids. rewrite !map_app. cbn [map]. apply NoDup_remove_1.
Qed.

End Fields.

(* ===================================================================== *)
(** ** The handlers *)

Section Handlers.
Context {JSN : JSNumber}.

Lemma bind_return (A B : Type) (m : M A) (k : A -> M B) (w w' : World) (a : A) :
  m w = (Return a, w') -> bind m k w = k a w'.
Proof. intros H. unfold bind. rewrite H. reflexivity. Qed.

Lemma bind_throw (A B : Type) (m : M A) (k : A -> M B) (w w' : World) (e : exn) :
  m w = (Throw e, w') -> bind m k w = (Throw e, w').
Proof. intros H. unfold bind. rewrite H. reflexivity. Qed.

Lemma try_catch_return (A : Type) (m : M A) (h : exn -> M A) (w w' : World) (a : A) :
  m w = (Return a, w') -> try_catch m h w = (Return a, w').
Proof. intros H. unfold try_catch. rewrite H. reflexivity. Qed.

Lemma try_catch_throw (A : Type) (m : M A) (h : exn -> M A) (w w' : World) (e : exn) :
  m w = (Throw e, w') -> try_catch m h w = h e w'.
Proof. intros H. unfold try_catch. rewrite H. reflexivity. Qed.

(** C4.  [readPortfolios] never throws: it returns in every world, and
    returns the empty array when reading the file fails or its text is not
    JSON. *)
Theorem readPortfolios_never_throws (w : World) :
  exists v w',
    readPortfolios w = (Return v, w')
    /\ match fs_readFile w with
       | (Throw _, _) => v = Arr []
       | (Return data, _) =>
           match JSON_parse data with
           | Some parsed => v = parsed
           | None => v = Arr []
           end
       end.
Proof.
  unfold readPortfolios, try_catch, bind, parse_text.
  destruct (fs_readFile w) as [[data|e] w1].
  - destruct (JSON_parse data) as [parsed|]; do 2 eexists; split; reflexivity.
  - do 2 eexists; split; reflexivity.
Qed.

(** C5.  When the write of a create fails, [writePortfolios] throws the
    error of the file system again, whatever the records it was to save, and
    the handler answers 500 with the message of that error. *)
Theorem write_failure_becomes_500
        (req_body : value) (w w1 w2 : World) (l : list value) (record : value) (f : fault) :
  readPortfolios w = (Return (Arr l), w1) ->
  newPortfolio req_body w1 = (Return record, w2) ->
  next_fault w2 = Some f ->
  (forall portfolios, fst (writePortfolios (Arr portfolios) w2) = Throw (fault_error f))
  /\ fst (post_portfolios req_body w)
     = Return (Response 500 (Obj [ (js "success", Bool false);
                                   (js "message", Str (js "Internal server error"));
                                   (js "error", Str (message (fault_error f))) ])).
Proof.
  intros Hr Hn Hf.
  assert (Hany : forall portfolios,
            fst (writePortfolios (Arr portfolios) w2) = Throw (fault_error f)).
  { intros portfolios. destruct (stringify_Arr_total portfolios) as [text Ht].
    rewrite (writePortfolios_rethrows _ _ Ht Hf). reflexivity. }
  split; [exact Hany|].
  destruct (stringify_Arr_total (l ++ [record])) as [text Ht].
  pose proof (writePortfolios_rethrows _ _ Ht Hf) as Hw.
  unfold post_portfolios.
  erewrite try_catch_throw; [reflexivity|].
  erewrite bind_return by exact Hr.
  erewrite bind_return by exact Hn.
  erewrite bind_return by reflexivity.
  erewrite bind_throw by exact Hw. reflexivity.
Qed.

(** X1.  When the write of a delete fails, the handler answers 500 with
    the message of the error of the file system, and not with the record. *)
Lemma delete_write_failure_becomes_500
      (id : jsstring) (w w1 : World) (pre : list value) (r : value) (post : list value)
      (f : fault) :
  readPortfolios w = (Return (Arr (pre ++ r :: post)), w1) ->
  Forall (fun x => matches_id id x = Return false) pre ->
  matches_id id r = Return true ->
  next_fault w1 = Some f ->
  fst (delete_portfolio id w) = Return (internal_server_error (fault_error f)).
Proof.
  intros Hr Hpre Hm Hf.
  destruct (stringify_Arr_total (pre ++ post)) as [text Ht].
  pose proof (writePortfolios_rethrows _ _ Ht Hf) as Hw.
  unfold delete_portfolio.
  erewrite try_catch_throw; [reflexivity|].
  erewrite bind_return by exact Hr.
  erewrite bind_return
    by (unfold lift, findIndex; rewrite (findIndex_from_first _ _ post 0 Hpre Hm); reflexivity).
  cbn [Nat.add].
  erewrite bind_return by (unfold lift; rewrite splice_middle; reflexivity).
  cbn [fst snd]. erewrite bind_throw by exact Hw. reflexivity.
Qed.

(** C6.  A delete whose id matches no record answers 404 and writes
    nothing: the file is as before, and the only call to the file system is
    the read. *)
Theorem delete_unknown_id (id : jsstring) (w w1 : World) (l : list value) :
  readPortfolios w = (Return (Arr l), w1) ->
  Forall (fun portfolio => matches_id id portfolio = Return false) l ->
  delete_portfolio id w
  = (Return (Response 404 (Obj [ (js "success", Bool false);
                                 (js "message", Str (js "Portfolio not found")) ])), w1)
  /\ disk w1 = disk w
  /\ fs_calls w1 = fs_calls w ++ [ReadFile].
Proof.
  intros Hr Hl. split.
  - unfold delete_portfolio.
    erewrite try_catch_return; [reflexivity|].
    erewrite bind_return by exact Hr.
    erewrite bind_return
      by (unfold lift, findIndex; rewrite (findIndex_from_none _ 0 Hl); reflexivity).
    reflexivity.
  - destruct (readPortfolios_returns w) as (v & w' & E & Hd & Hc & _).
    rewrite Hr in E. injection E as _ <-. auto.
Qed.

(** A delete that finds the id splices the first match out and saves the
    rest. *)
Lemma delete_splices
      (id : jsstring) (w w1 : World) (pre : list value) (r : value) (post : list value)
      (text : jsstring) :
  readPortfolios w = (Return (Arr (pre ++ r :: post)), w1) ->
  Forall (fun portfolio => matches_id id portfolio = Return false) pre ->
  matches_id id r = Return true ->
  next_fault w1 = None ->
  JSON_stringify (Arr (pre ++ post)) = Some text ->
  delete_portfolio id w
  = (Return (deleted r), called (WriteFile text) (Some (utf8_roundtrip text)) w1).
Proof.
  intros Hr Hpre Hm Hf Ht. unfold delete_portfolio.
  erewrite try_catch_return; [reflexivity|].
  erewrite bind_return by exact Hr.
  erewrite bind_return
    by (unfold lift, findIndex; rewrite (findIndex_from_first _ _ post 0 Hpre Hm); reflexivity).
  cbn [Nat.add].
  erewrite bind_return by (unfold lift; rewrite splice_middle; reflexivity).
  cbn [fst snd]. erewrite bind_return by (apply writePortfolios_saves; eassumption).
  reflexivity.
Qed.


(** A list answers with the array that it loaded and the length of it. *)
Lemma list_counts_the_data (w w1 : World) (l : list value) :
  readPortfolios w = (Return (Arr l), w1) ->
  get_portfolios w = (Return (retrieved (Arr l) (Num (NumberOfNat (length l)))), w1).
Proof.
  intros Hr. unfold get_portfolios.
  erewrite try_catch_return; [reflexivity|].
  erewrite bind_return by exact Hr. reflexivity.
Qed.

(** C10.  Listing writes nothing: the file is as before and the only call
    to the file system is the read; of all the requests, only a create or a
    delete can write. *)
Theorem list_is_read_only (w : World) :
  disk (snd (get_portfolios w)) = disk w
  /\ fs_calls (snd (get_portfolios w)) = fs_calls w ++ [ReadFile]
  /\ forall req,
       match req with
       | POST_portfolios _ | DELETE_portfolio _ => True
       | _ => disk (snd (handle req w)) = disk w
              /\ forall data, In (WriteFile data) (fs_calls (snd (handle req w))) ->
                              In (WriteFile data) (fs_calls w)
       end.
Proof.
  assert (G : disk (snd (get_portfolios w)) = disk w
              /\ fs_calls (snd (get_portfolios w)) = fs_calls w ++ [ReadFile]).
  { destruct (readPortfolios_returns w) as (v & w' & E & Hd & Hc & _).
    unfold get_portfolios, try_catch. erewrite bind_return by exact E.
    unfold bind, lift. destruct (get_length v); cbn; auto. }
  destruct G as [G1 G2]. repeat split; try assumption.
  intros [body| |id| |]; cbn [handle]; try exact I.
  - split; [exact G1|]. intros data. rewrite G2, in_app_iff. intros [H|[H|[]]];
      [exact H | discriminate].
  - split; [reflexivity | auto].
  - split; [reflexivity | auto].
Qed.

End Handlers.

(* ===================================================================== *)
(** ** Steps *)

Section Steps.
Context {JSN : JSNumber}.

(** *** One request after the other *)

Lemma no_faults_next (w : World) : no_faults w -> next_fault w = None.
Proof.
  unfold no_faults, next_fault. destruct (fs_faults w); [reflexivity|].
  intros H. inversion H. assumption.
Qed.

Lemma no_faults_tl (w w' : World) :
  fs_faults w' = tl (fs_faults w) -> no_faults w -> no_faults w'.
Proof.
  unfold no_faults. intros ->. destruct (fs_faults w); [auto|].
  intros H. inversion H. assumption.
Qed.

Lemma valid_clock_first (w : World) : valid_clock w -> valid_time (first_reading w) = true.
Proof.
  unfold valid_clock, first_reading. destruct (clock w); [reflexivity|].
  intros H. inversion H. assumption.
Qed.

Lemma valid_clock_tl (w w' : World) :
  clock w' = tl (clock w) -> valid_clock w -> valid_clock w'.
Proof.
  unfold valid_clock. intros ->. destruct (clock w); [auto|].
  intros H. inversion H. assumption.
Qed.

Lemma valid_clock_second (w : World) : valid_clock w -> valid_time (second_reading w) = true.
Proof.
  intros H. apply (valid_clock_first (w := ticked w)).
  apply (valid_clock_tl (w := w)); [reflexivity | exact H].
Qed.

Lemma json_value_new_record (req_body : value) (w : World) :
  json_value req_body -> json_value (new_record req_body w).
Proof.
  intros H. unfold new_record. apply json_value_portfolio_literal; [| | |exact H].
  - apply ascii_text_wf, uuid_stringify_ascii.
  - apply ascii_text_wf, iso_format_ascii.
  - apply ascii_text_wf, iso_format_ascii.
Qed.

Lemma new_record_ext (req_body : value) (w1 w2 : World) :
  entropy w1 = entropy w2 -> clock w1 = clock w2 ->
  new_record req_body w1 = new_record req_body w2.
Proof.
  intros H1 H2. unfold new_record, generated_id, first_reading, second_reading.
  rewrite H1, H2. reflexivity.
Qed.

(** The text of a collection of JSON values, on disk and read back. *)
Lemma stored_text (l : list value) :
  Forall json_value l ->
  exists text, JSON_stringify (Arr l) = Some text
               /\ utf8_roundtrip text = text
               /\ JSON_parse text = Some (Arr l).
Proof.
  intros H. apply json_value_Arr in H.
  destruct (JSON_parse_stringify_value H) as (text & E1 & E2).
  exists text. repeat split; try assumption.
  apply (stringify_utf8 (Arr l)); [apply H | exact E1].
Qed.

(** A create in a ready server appends its record to the collection. *)
Lemma create_step (req_body : value) (w : World) (l : list value) :
  ready w l -> json_value req_body ->
  exists w',
    post_portfolios req_body w = (Return (created (new_record req_body w)), w')
    /\ ready w' (l ++ [new_record req_body w])
    /\ entropy w' = tl (entropy w) /\ clock w' = tl (tl (clock w)).
Proof.
  intros (Hf & Hc & text & Hd & Hp & Hl) Hb.
  pose proof (json_value_new_record w Hb) as Hr.
  assert (Hl' : Forall json_value (l ++ [new_record req_body w]))
    by (apply Forall_app; split; [exact Hl | constructor; [exact Hr | constructor]]).
  destruct (stored_text Hl') as (text' & E1 & E2 & E3).
  set (w1 := called ReadFile (disk w) w).
  assert (Hf1 : no_faults w1) by (apply (no_faults_tl (w := w)); [reflexivity | exact Hf]).
  assert (Hread : readPortfolios w = (Return (Arr l), w1))
    by (apply (readPortfolios_loads w (no_faults_next Hf) Hd Hp)).
  assert (Hnew : newPortfolio req_body w1 = (Return (new_record req_body w), literal_evaluated w1)).
  { rewrite (new_record_ext req_body w w1) by reflexivity.
    apply newPortfolio_builds;
      [apply (valid_clock_first (w := w)) | apply (valid_clock_second (w := w))]; exact Hc. }
  set (w2 := literal_evaluated w1) in *.
  assert (Hf2 : no_faults w2) by exact Hf1.
  exists (called (WriteFile text') (Some (utf8_roundtrip text')) w2).
  split; [|split; [|split; reflexivity]].
  - unfold post_portfolios.
    erewrite try_catch_return; [reflexivity|].
    erewrite bind_return by exact Hread.
    erewrite bind_return by exact Hnew.
    erewrite bind_return by reflexivity.
    erewrite bind_return by (apply writePortfolios_saves; [exact E1 | apply no_faults_next, Hf2]).
    reflexivity.
  - split; [|split].
    + apply (no_faults_tl (w := w2)); [reflexivity | exact Hf2].
    + apply (valid_clock_tl (w := ticked w)); [reflexivity|].
      apply (valid_clock_tl (w := w)); [reflexivity | exact Hc].
    + exists text'. rewrite E2. repeat split; assumption.
Qed.

(** A list in a ready server answers with the collection and its length. *)
Lemma list_step (w : World) (l : list value) :
  ready w l ->
  exists w',
    get_portfolios w = (Return (retrieved (Arr l) (Num (NumberOfNat (length l)))), w')
    /\ ready w' l
    /\ entropy w' = entropy w /\ clock w' = clock w.
Proof.
  intros (Hf & Hc & text & Hd & Hp & Hl).
  exists (called ReadFile (disk w) w). split; [|split; [|split; reflexivity]].
  - unfold get_portfolios.
    erewrite try_catch_return; [reflexivity|].
    erewrite bind_return by (apply (readPortfolios_loads w (no_faults_next Hf) Hd Hp)).
    reflexivity.
  - split; [|split].
    + apply (no_faults_tl (w := w)); [reflexivity | exact Hf].
    + exact Hc.
    + exists text. cbn. repeat split; assumption.
Qed.

(** A delete in a ready server removes the first record that the id
    matches. *)
Lemma delete_step (id : jsstring) (w : World) (pre : list value) (r : value) (post : list value) :
  ready w (pre ++ r :: post) ->
  Forall (fun portfolio => matches_id id portfolio = Return false) pre ->
  matches_id id r = Return true ->
  exists w',
    delete_portfolio id w = (Return (deleted r), w')
    /\ ready w' (pre ++ post)
    /\ entropy w' = entropy w /\ clock w' = clock w.
Proof.
  intros (Hf & Hc & text & Hd & Hp & Hl) Hpre Hm.
  set (w1 := called ReadFile (disk w) w).
  assert (Hf1 : no_faults w1) by (apply (no_faults_tl (w := w)); [reflexivity | exact Hf]).
  assert (Hread : readPortfolios w = (Return (Arr (pre ++ r :: post)), w1))
    by (apply (readPortfolios_loads w (no_faults_next Hf) Hd Hp)).
  assert (Hl' : Forall json_value (pre ++ post)).
  { apply Forall_app in Hl. destruct Hl as [H1 H2]. inversion H2; subst.
    apply Forall_app. split; assumption. }
  destruct (stored_text Hl') as (text' & E1 & E4 & E5).
  pose proof (@delete_splices _ id w w1 pre r post text' Hread Hpre Hm (no_faults_next Hf1) E1)
    as E2.
  eexists. split; [exact E2|]. split; [|split; reflexivity].
  split; [|split].
  - apply (no_faults_tl (w := w1)); [reflexivity | exact Hf1].
  - exact Hc.
  - exists text'. cbn. rewrite E4. repeat split; assumption.
Qed.

End Steps.

(* ===================================================================== *)
(** ** Sequences of requests *)

Section Sequences.
Context {JSN : JSNumber}.

(** What the create of [{title: "My Site"}] answers, when the file holds an
    array and the write does not fail: 201 with a record of the generated
    id, 36 characters long, the title, and the two timestamps in the ISO 8601
    shape, each of its own reading of the clock. *)
Theorem create_my_site (w : World) (l : list value) (text : jsstring) :
  no_faults w -> disk w = Some text -> JSON_parse text = Some (Arr l) ->
  valid_time (first_reading w) = true -> valid_time (second_reading w) = true ->
  fst (post_portfolios (Obj [(js "title", Str (js "My Site"))]) w)
  = Return (Response 201
              (Obj [ (js "success", Bool true);
                     (js "message", Str (js "Portfolio created successfully"));
                     (js "data",
                      Obj [ (js "id", Str (generated_id w));
                            (js "title", Str (js "My Site"));
                            (js "createdAt", Str (iso_format (first_reading w)));
                            (js "updatedAt", Str (iso_format (second_reading w))) ]) ]))
  /\ length (generated_id w) = 36
  /\ is_iso8601 (iso_format (first_reading w)) = true
  /\ is_iso8601 (iso_format (second_reading w)) = true
  /\ (first_reading w = second_reading w ->
      iso_format (first_reading w) = iso_format (second_reading w)).
Proof.
  intros Hf Hd Hp H1 H2.
  split; [|split; [apply uuid_stringify_length|]; split; [apply iso_format_valid|];
           split; [apply iso_format_valid | intros ->; reflexivity]].
  set (body := Obj [(js "title", Str (js "My Site"))]).
  set (w1 := called ReadFile (disk w) w).
  assert (Hread : readPortfolios w = (Return (Arr l), w1))
    by (apply (readPortfolios_loads w (no_faults_next Hf) Hd Hp)).
  assert (Hnew : newPortfolio body w1 = (Return (new_record body w), literal_evaluated w1)).
  { rewrite (new_record_ext body w w1) by reflexivity.
    apply newPortfolio_builds; assumption. }
  destruct (stringify_Arr_total (l ++ [new_record body w])) as [text' Ht].
  assert (Hf2 : next_fault (literal_evaluated w1) = None).
  { apply no_faults_next. apply (no_faults_tl (w := w)); [reflexivity | exact Hf]. }
  unfold post_portfolios.
  erewrite try_catch_return; [reflexivity|].
  erewrite bind_return by exact Hread.
  erewrite bind_return by exact Hnew.
  erewrite bind_return by reflexivity.
  erewrite bind_return by (apply writePortfolios_saves; [exact Ht | exact Hf2]).
  reflexivity.
Qed.

(** C8.  Creates append: in a ready server that holds the collection [l],
    a create of A, a create of B and a list answer 201 with A's record as
    [data], 201 with B's record, and 200 with [l] followed by the two
    records in that order, and the count of [l] and two more; the count is
    the length of the data in every answer of a list. *)
Theorem creates_are_listed_in_order (a b : value) (w : World) (l : list value) :
  ready w l -> json_value a -> json_value b ->
  fst (serve [POST_portfolios a; POST_portfolios b; GET_portfolios] w)
  = Return
      [ Response 201
          (Obj [ (js "success", Bool true);
                 (js "message", Str (js "Portfolio created successfully"));
                 (js "data", new_record a w) ]);
        Response 201
          (Obj [ (js "success", Bool true);
                 (js "message", Str (js "Portfolio created successfully"));
                 (js "data", new_record b (literal_evaluated w)) ]);
        Response 200
          (Obj [ (js "success", Bool true);
                 (js "message", Str (js "Portfolios retrieved successfully"));
                 (js "data", Arr (l ++ [new_record a w; new_record b (literal_evaluated w)]));
                 (js "count", Num (NumberOfNat (length l + 2))) ]) ]
  /\ forall w0 w1 data,
       readPortfolios w0 = (Return (Arr data), w1) ->
       fst (get_portfolios w0)
       = Return (Response 200
                   (Obj [ (js "success", Bool true);
                          (js "message", Str (js "Portfolios retrieved successfully"));
                          (js "data", Arr data);
                          (js "count", Num (NumberOfNat (length data))) ])).
Proof.
  intros Hw Ha Hb.
  split; [|intros w0 w1 data Hr; rewrite (list_counts_the_data w0 Hr); reflexivity].
  destruct (create_step Hw Ha) as (w1 & E1 & Hw1 & He1 & Hc1).
  destruct (create_step Hw1 Hb) as (w2 & E2 & Hw2 & He2 & Hc2).
  rewrite (new_record_ext b w1 (literal_evaluated w)) in E2, Hw2 by assumption.
  rewrite <- app_assoc in Hw2. cbn [app] in Hw2.
  destruct (list_step Hw2) as (w3 & E3 & _).
  rewrite length_app in E3. cbn [length] in E3.
  cbn [serve handle].
  erewrite bind_return by exact E1.
  erewrite bind_return
    by (erewrite bind_return by exact E2;
        erewrite bind_return
          by (erewrite bind_return by exact E3; erewrite bind_return by reflexivity;
              reflexivity);
        reflexivity).
  reflexivity.
Qed.

(** C9, as amended.  A collection of JSON values that is saved and then
    loaded, with no failure of the file system, comes back as it was; and so
    it does across a restart: [startServer] on the saved file leaves the
    file as it is, and the first load and the first list after it return the
    collection. *)
Theorem save_then_load (l : list value) (w : World) :
  Forall json_value l -> no_faults w ->
  fst ((writePortfolios (Arr l) ;; readPortfolios) w) = Return (Arr l)
  /\ exists w1,
       (writePortfolios (Arr l) ;; startServer) w = (Return true, w1)
       /\ disk w1 = disk (snd (writePortfolios (Arr l) w))
       /\ fst (readPortfolios w1) = Return (Arr l)
       /\ fst (get_portfolios w1)
          = Return (Response 200
                      (Obj [ (js "success", Bool true);
                             (js "message", Str (js "Portfolios retrieved successfully"));
                             (js "data", Arr l);
                             (js "count", Num (NumberOfNat (length l))) ])).
Proof.
  intros Hl Hf. destruct (stored_text Hl) as (text & E1 & E2 & E3).
  pose proof (@writePortfolios_saves _ (Arr l) text w E1 (no_faults_next Hf)) as Ew.
  set (w0 := called (WriteFile text) (Some (utf8_roundtrip text)) w) in *.
  assert (Hf0 : no_faults w0) by (apply (no_faults_tl (w := w)); [reflexivity | exact Hf]).
  assert (Hd0 : disk w0 = Some text) by (cbn; rewrite E2; reflexivity).
  split.
  - erewrite bind_return by exact Ew.
    erewrite readPortfolios_loads;
      [reflexivity | apply no_faults_next, Hf0 | exact Hd0 | exact E3].
  - set (w1 := called Access (disk w0) w0).
    assert (Hf1 : no_faults w1) by (apply (no_faults_tl (w := w0)); [reflexivity | exact Hf0]).
    assert (Hd1 : disk w1 = Some text) by exact Hd0.
    assert (Es : startServer w0 = (Return true, w1)).
    { unfold startServer, initializeDataFile, try_catch, bind, fs_access.
      rewrite (no_faults_next Hf0). reflexivity. }
    pose proof (readPortfolios_loads w1 (no_faults_next Hf1) Hd1 E3) as Er.
    exists w1. split; [erewrite bind_return by exact Ew; exact Es|].
    split; [rewrite Ew; reflexivity|]. split; [rewrite Er; reflexivity|].
    rewrite (list_counts_the_data w1 Er). reflexivity.
Qed.

(** X2.  A collection of well-formed values that is saved and loaded comes
    back as its image in JSON, record by record: a number that is not finite
    comes back as [null]. *)
Lemma save_then_load_image (l : list value) (w : World) :
  forallb wf_value l = true -> no_faults w ->
  fst ((writePortfolios (Arr l) ;; readPortfolios) w) = Return (Arr (map json_image l)).
Proof.
  intros Hl Hf.
  destruct (JSON_parse_stringify (Arr l) Hl) as (text & E1 & E3).
  pose proof (stringify_utf8 (Arr l) Hl E1) as E2.
  erewrite bind_return by (apply writePortfolios_saves; [exact E1 | apply no_faults_next, Hf]).
  erewrite readPortfolios_loads; [reflexivity | | cbn; rewrite E2; reflexivity | exact E3].
  apply no_faults_next. apply (no_faults_tl (w := w)); [reflexivity | exact Hf].
Qed.

End Sequences.

(* ===================================================================== *)
(** ** Distinct ids *)

Section Invariant.
Context {JSN : JSNumber}.

Lemma findIndex_from_some (id : jsstring) (l : list value) (k i : nat) :
  findIndex_from id l k = Return (Some i) ->
  exists pre r post,
    l = pre ++ r :: post
    /\ Forall (fun portfolio => matches_id id portfolio = Return false) pre
    /\ matches_id id r = Return true.
Proof.
  revert k. induction l as [|x l IH]; intros k H; [discriminate|].
  cbn [findIndex_from] in H. destruct (matches_id id x) as [[|]|e] eqn:Ex.
  - exists [], x, l. repeat split; [constructor | exact Ex].
  - destruct (IH _ H) as (pre & r & post & -> & Hpre & Hr).
    exists (x :: pre), r, post. repeat split; [constructor; assumption | exact Hr].
  - discriminate.
Qed.

Lemma ready_after_read (w : World) (l : list value) :
  ready w l -> ready (called ReadFile (disk w) w) l.
Proof.
  intros (Hf & Hc & text & Hd & Hp & Hl). split; [|split].
  - apply (no_faults_tl (w := w)); [reflexivity | exact Hf].
  - exact Hc.
  - exists text. repeat split; assumption.
Qed.

Lemma ready_logged (label : string) (e : exn) (w : World) (l : list value) :
  ready w l -> ready (logged label e w) l.
Proof. intros H. exact H. Qed.

(** X3.  The ids stay distinct from one request to the next, as long as
    every create draws a fresh id and its body brings none. *)
Theorem distinct_ids_preserved (req : request) (w : World) (l : list value) :
  ready w l -> distinct_ids l -> draws_fresh_id req w l ->
  exists l', ready (snd (handle req w)) l' /\ distinct_ids l'.
Proof.
  intros Hw Hd Hreq. destruct req as [req_body| |id| |]; cbn [handle].
  - destruct Hreq as (Hb & Hid & Hfresh).
    destruct (create_step Hw Hb) as (w' & E & Hw' & _).
    exists (l ++ [new_record req_body w]). rewrite E. split; [exact Hw'|].
    apply create_keeps_ids_distinct; assumption.
  - destruct (list_step Hw) as (w' & E & Hw' & _).
    exists l. rewrite E. split; assumption.
  - pose proof Hw as (Hf & Hc & text & Hdisk & Hp & Hl).
    pose proof (readPortfolios_loads w (no_faults_next Hf) Hdisk Hp) as Hread.
    destruct (findIndex_from id l 0) as [[i|]|e] eqn:Ef.
    + destruct (findIndex_from_some _ _ _ Ef) as (pre & r & post & -> & Hpre & Hr).
      destruct (@delete_step _ id w pre r post Hw Hpre Hr) as (w' & E & Hw' & _).
      exists (pre ++ post). rewrite E. split; [exact Hw'|].
      apply (delete_keeps_ids_distinct pre r post Hd).
    + exists l. split; [|exact Hd].
      unfold delete_portfolio.
      erewrite try_catch_return;
        [| erewrite bind_return by exact Hread;
           erewrite bind_return by (unfold lift, findIndex; rewrite Ef; reflexivity);
           reflexivity].
      apply ready_after_read, Hw.
    + exists l. split; [|exact Hd].
      unfold delete_portfolio.
      erewrite try_catch_throw;
        [| erewrite bind_return by exact Hread;
           erewrite bind_throw by (unfold lift, findIndex; rewrite Ef; reflexivity);
           reflexivity].
      apply ready_after_read, Hw.
  - exists l. split; assumption.
  - exists l. split; assumption.
Qed.

End Invariant.

(* ===================================================================== *)
(** ** The start of the server *)

Section Startup.
Context {JSN : JSNumber}.

Lemma stringify_empty_array : JSON_stringify (Arr []) = Some (js "[]").
Proof. reflexivity. Qed.

Lemma parse_empty_array : JSON_parse (js "[]") = Some (Arr []).
Proof. reflexivity. Qed.

(** X4.  A start on a file that exists and can be reached leaves it as it
    is: the start-up comes to call [app.listen], the only call to the file
    system is the [fs.access], [console.error] prints nothing, and a
    collection that the file holds is still there. *)
Theorem startServer_keeps_an_existing_file (w : World) (text : jsstring) :
  disk w = Some text -> next_fault w = None ->
  exists w',
    startServer w = (Return true, w')
    /\ disk w' = Some text
    /\ fs_calls w' = fs_calls w ++ [Access]
    /\ console w' = console w
    /\ forall l, ready w l -> ready w' l.
Proof.
  intros Hd Hf. exists (called Access (disk w) w).
  assert (E : fs_access w = (Return tt, called Access (disk w) w))
    by (unfold fs_access; rewrite Hf, Hd; reflexivity).
  split; [|split; [exact Hd|split; [reflexivity|split; [reflexivity|]]]].
  - unfold startServer, initializeDataFile.
    erewrite try_catch_return; [reflexivity|].
    erewrite bind_return by (erewrite try_catch_return by exact E; reflexivity).
    reflexivity.
  - intros l (Hn & Hc & t & Ht & Hp & Hl). split; [|split].
    + apply (no_faults_tl (w := w)); [reflexivity | exact Hn].
    + exact Hc.
    + exists t. repeat split; assumption.
Qed.

(** X5.  When [fs.access] rejects, for whatever reason, and the write that
    follows succeeds, [initializeDataFile] writes the empty array: what the
    file held is lost, and the next load returns no record. *)
Theorem rejected_access_resets_the_file (w : World) (error : exn) :
  fst (fs_access w) = Throw error ->
  next_fault (called Access (disk w) w) = None ->
  exists w',
    initializeDataFile w = (Return tt, w')
    /\ disk w' = Some (js "[]")
    /\ fs_calls w' = fs_calls w ++ [Access; WriteFile (js "[]")]
    /\ (next_fault w' = None -> fst (readPortfolios w') = Return (Arr [])).
Proof.
  intros He Hf.
  set (w1 := called Access (disk w) w) in *.
  assert (E : fs_access w = (Throw error, w1)).
  { revert He. unfold fs_access, w1.
    destruct (next_fault w); [|destruct (disk w)]; cbn; intros H; congruence. }
  set (w2 := called (WriteFile (js "[]")) (Some (js "[]")) w1).
  assert (Ew : initializeDataFile w = (Return tt, w2)).
  { unfold initializeDataFile. erewrite try_catch_throw by exact E.
    rewrite stringify_empty_array. unfold write_text, fs_writeFile. rewrite Hf. reflexivity. }
  exists w2. split; [exact Ew|]. split; [reflexivity|]. split.
  - cbn. rewrite <- app_assoc. reflexivity.
  - intros Hf2. rewrite (@readPortfolios_loads _ w2 (js "[]") (Arr []) Hf2);
      [reflexivity | reflexivity | apply parse_empty_array].
Qed.

(** X6.  [startServer] does not throw, and its catch runs in one case only:
    when [fs.access] rejects and the write of the empty array fails too.
    Then [console.error] prints the error of the write under "Failed to start
    server:" and the process exits with status 1.  In every other case the
    start-up comes to call [app.listen] with the data file in place, and
    [console.error] has printed nothing. *)
Theorem startServer_outcome (w : World) :
  match fst (fs_access w), next_fault (called Access (disk w) w) with
  | Throw _, Some f =>
      startServer w
      = (Return false,
         logged "Failed to start server:" (fault_error f)
                (called (WriteFile (js "[]")) (fault_leaves f) (called Access (disk w) w)))
  | _, _ =>
      exists w', startServer w = (Return true, w')
                 /\ disk w' <> None /\ console w' = console w
  end.
Proof.
  assert (Ea : snd (fs_access w) = called Access (disk w) w)
    by (unfold fs_access; destruct (next_fault w); [|destruct (disk w)]; reflexivity).
  unfold startServer, initializeDataFile, try_catch, bind.
  destruct (fs_access w) as [[[]|e] w1] eqn:Eq; cbn [fst snd] in *; subst w1.
  - assert (Hd : disk w <> None).
    { revert Eq. unfold fs_access.
      destruct (next_fault w); [discriminate|]. destruct (disk w); discriminate. }
    destruct (next_fault (called Access (disk w) w));
      (eexists; split; [reflexivity | split; [exact Hd | reflexivity]]).
  - rewrite stringify_empty_array. unfold write_text, fs_writeFile.
    destruct (next_fault (called Access (disk w) w)) as [f|]; [reflexivity|].
    eexists. split; [reflexivity|]. split; [discriminate | reflexivity].
Qed.

End Startup.

(* ===================================================================== *)
(** ** What a load returns *)

Section Loads.
Context {JSN : JSNumber}.

(** *** What a load can return *)

Lemma parse_scalar_defined (s : jsstring) (v : value) (r : jsstring) :
  parse_scalar s = Some (v, r) -> v <> Undefined.
Proof.
  unfold parse_scalar.
  destruct (strip_prefix (js "null") s); [intros H; injection H as <- _; discriminate|].
  destruct (strip_prefix (js "true") s); [intros H; injection H as <- _; discriminate|].
  destruct (strip_prefix (js "false") s); [intros H; injection H as <- _; discriminate|].
  destruct (span_number s) as [tok rest]. destruct (json_number tok); [|discriminate].
  intros H; injection H as <- _; discriminate.
Qed.

Lemma parse_value_defined (f : nat) (s : jsstring) (v : value) (r : jsstring) :
  parse_value f s = Some (v, r) -> v <> Undefined.
Proof.
  destruct f as [|f]; [discriminate|]. cbn [parse_value].
  destruct (skip_ws s) as [|c t]; [discriminate|].
  destruct (N.eqb c (ch "{")).
  { destruct (skip_ws t) as [|c' t']; [discriminate|].
    destruct (N.eqb c' (ch "}")); [intros H; injection H as <- _; discriminate|].
    destruct (parse_members f t) as [[props rest]|]; [|discriminate].
    intros H; injection H as <- _; discriminate. }
  destruct (N.eqb c (ch "[")).
  { destruct (skip_ws t) as [|c' t']; [discriminate|].
    destruct (N.eqb c' (ch "]")); [intros H; injection H as <- _; discriminate|].
    destruct (parse_elements f t) as [[l rest]|]; [|discriminate].
    intros H; injection H as <- _; discriminate. }
  destruct (N.eqb c QUOTE).
  { destruct (parse_string t) as [[str rest]|]; [|discriminate].
    intros H; injection H as <- _; discriminate. }
  apply parse_scalar_defined.
Qed.

Lemma JSON_parse_defined (text : jsstring) (v : value) :
  JSON_parse text = Some v -> v <> Undefined.
Proof.
  unfold JSON_parse.
  destruct (parse_value (2 * length text) text) as [[v' rest]|] eqn:E; [|discriminate].
  destruct (skip_ws rest); [|discriminate].
  intros H; injection H as <-. exact (parse_value_defined _ _ E).
Qed.

(** What [readPortfolios] does in each case of the read. *)
Lemma readPortfolios_cases (w : World) :
  (unreadable w = true
   /\ readPortfolios w
      = (Return (Arr []),
         logged "Error reading portfolios:" (load_error w) (called ReadFile (disk w) w)))
  \/ (exists text v,
        unreadable w = false /\ next_fault w = None /\ disk w = Some text
        /\ JSON_parse text = Some v
        /\ readPortfolios w = (Return v, called ReadFile (disk w) w)).
Proof.
  unfold unreadable, load_error, readPortfolios, try_catch, bind, fs_readFile, parse_text.
  destruct (next_fault w) as [f|]; [left; split; reflexivity|].
  destruct (disk w) as [text|] eqn:Ed; [|left; split; reflexivity].
  destruct (JSON_parse text) as [v|] eqn:Ep.
  - right. exists text, v. repeat split. exact Ep.
  - left. split; reflexivity.
Qed.

Lemma readPortfolios_defined (w w1 : World) (v : value) :
  readPortfolios w = (Return v, w1) -> v <> Undefined.
Proof.
  destruct (readPortfolios_cases w) as [[_ E]|(text & v' & _ & _ & _ & Hp & E)];
    rewrite E; intros H; injection H as <- _; [discriminate|].
  exact (JSON_parse_defined _ Hp).
Qed.

(** *** What the parts of a handler leave of the world *)

Lemma newPortfolio_frame (req_body : value) (w : World) :
  disk (snd (newPortfolio req_body w)) = disk w
  /\ fs_calls (snd (newPortfolio req_body w)) = fs_calls w
  /\ fs_faults (snd (newPortfolio req_body w)) = fs_faults w.
Proof.
  unfold newPortfolio, bind, uuidv4, new_Date_toISOString, bind, Date_now, lift, toISOString.
  cbn [clock drew ticked].
  destruct (valid_time (hd 0%Z (clock w))); [|repeat split].
  destruct (valid_time (hd 0%Z (tl (clock w)))); repeat split.
Qed.

Lemma writePortfolios_frame (portfolios : value) (w : World) :
  fs_calls (snd (writePortfolios portfolios w)) = fs_calls w
  \/ exists data, fs_calls (snd (writePortfolios portfolios w)) = fs_calls w ++ [WriteFile data].
Proof.
  unfold writePortfolios, try_catch, write_text, fs_writeFile, throw, bind, console_error.
  destruct (JSON_stringify portfolios) as [text|]; [|left; reflexivity].
  right. exists text. destruct (next_fault w); reflexivity.
Qed.

End Loads.

(* ===================================================================== *)
(** ** The answers of the handlers *)

Section Answers.
Context {JSN : JSNumber}.

(** The answer that a branch of a handler gives. *)
Tactic Notation "answered" tactic(side) :=
  do 2 eexists; split; [reflexivity | side; split; reflexivity].

Lemma handle_answers (req : request) (w : World) :
  exists r w', handle req w = (Return r, w') /\ route_answer req r.
Proof.
  destruct req as [req_body| |id| |]; cbn [handle route_answer].
  - unfold post_portfolios, try_catch, bind, console_error, ret, lift.
    destruct (readPortfolios w) as [[v|e] w1]; [|answered right].
    destruct (newPortfolio req_body w1) as [[record|e] w2]; [|answered right].
    destruct (push v record) as [v'|e]; [|answered right].
    destruct (writePortfolios v' w2) as [[[]|e] w3]; [answered left | answered right].
  - unfold get_portfolios, try_catch, bind, console_error, ret, lift.
    destruct (readPortfolios w) as [[v|e] w1]; [|answered right].
    destruct (get_length v) as [count|e]; [answered left | answered right].
  - unfold delete_portfolio, try_catch, bind, console_error, ret, lift.
    destruct (readPortfolios w) as [[v|e] w1]; [|answered (right; right)].
    destruct (findIndex v id) as [[i|]|e];
      [| answered (right; left) | answered (right; right)].
    destruct (splice_one v i) as [[removed rest]|e]; [|answered (right; right)].
    cbn [fst snd].
    destruct (writePortfolios rest w1) as [[[]|e] w2];
      [answered left | answered (right; right)].
  - do 2 eexists. split; reflexivity.
  - do 2 eexists. split; [reflexivity | split; reflexivity].
Qed.

(** X7.  No request crashes the server: a sequence of requests gets one
    answer each, in order, with a status of its route: 201 or 500 for a
    create, 200 or 500 for a list, 200, 404 or 500 for a delete, 200 for
    [GET /] and 404 for any other path; but for [GET /], the answer has the
    flag [success], [true] with 200 and 201 and [false] with 404 and 500.
    So no handler throws, and the error middleware of lines 153-160 is not
    reached from them. *)
Theorem every_request_is_answered (reqs : list request) (w : World) :
  exists rs w', serve reqs w = (Return rs, w') /\ Forall2 route_answer reqs rs.
Proof.
  revert w. induction reqs as [|req reqs IH]; intros w.
  - exists [], w. split; [reflexivity | constructor].
  - destruct (handle_answers req w) as (r & w1 & E1 & H1).
    destruct (IH w1) as (rs & w2 & E2 & H2).
    exists (r :: rs), w2. split; [|constructor; assumption].
    cbn [serve]. erewrite bind_return by exact E1.
    erewrite bind_return by exact E2. reflexivity.
Qed.

(** X8.  What a request asks of the file system: [GET /] and the unmatched
    paths nothing; a list one read; a create or a delete one read, followed
    by at most one write.  No handler calls [fs.access]. *)
Theorem file_system_calls_of_a_request (req : request) (w : World) :
  exists calls,
    fs_calls (snd (handle req w)) = fs_calls w ++ calls
    /\ match req with
       | POST_portfolios _ | DELETE_portfolio _ =>
           calls = [ReadFile] \/ exists data, calls = [ReadFile; WriteFile data]
       | GET_portfolios => calls = [ReadFile]
       | GET_root | Unmatched => calls = []
       end.
Proof.
  destruct (readPortfolios_returns w) as (v & w1 & Er & _ & Hc & _).
  destruct req as [req_body| |id| |]; cbn [handle].
  - unfold post_portfolios, try_catch. erewrite bind_return by exact Er.
    unfold bind, console_error, ret, lift.
    pose proof (newPortfolio_frame req_body w1) as (_ & Hn & _).
    destruct (newPortfolio req_body w1) as [[record|e] w2]; cbn [snd] in Hn;
      [|exists [ReadFile]; cbn; rewrite Hn, Hc; auto].
    destruct (push v record) as [v'|e]; [|exists [ReadFile]; cbn; rewrite Hn, Hc; auto].
    pose proof (writePortfolios_frame v' w2) as Hw.
    destruct (writePortfolios v' w2) as [[[]|e] w3]; cbn [snd] in Hw |- *;
      (destruct Hw as [Hw|[data Hw]];
       [exists [ReadFile]; cbn; rewrite Hw, Hn, Hc; auto
       |exists [ReadFile; WriteFile data]; cbn; rewrite Hw, Hn, Hc, <- app_assoc; eauto]).
  - exists [ReadFile]. split; [|reflexivity].
    unfold get_portfolios, try_catch. erewrite bind_return by exact Er.
    unfold bind, console_error, ret, lift. destruct (get_length v); cbn; exact Hc.
  - unfold delete_portfolio, try_catch. erewrite bind_return by exact Er.
    unfold bind, console_error, ret, lift.
    destruct (findIndex v id) as [[i|]|e];
      [| exists [ReadFile]; cbn; auto | exists [ReadFile]; cbn; auto].
    destruct (splice_one v i) as [[removed rest]|e]; [|exists [ReadFile]; cbn; auto].
    cbn [fst snd]. pose proof (writePortfolios_frame rest w1) as Hw.
    destruct (writePortfolios rest w1) as [[[]|e] w2]; cbn [snd] in Hw |- *;
      (destruct Hw as [Hw|[data Hw]];
       [exists [ReadFile]; cbn; rewrite Hw, Hc; auto
       |exists [ReadFile; WriteFile data]; cbn; rewrite Hw, Hc, <- app_assoc; eauto]).
  - exists []. split; [cbn; rewrite app_nil_r; reflexivity | reflexivity].
  - exists []. split; [cbn; rewrite app_nil_r; reflexivity | reflexivity].
Qed.

(** X9.  A list answers 200 with whatever value the load returns, array or
    not, as its [data], and the [length] of that value as its [count];
    except when the file holds [null]: then reading [length] throws and the
    answer is 500. *)
Theorem list_answers_unless_null (w : World) :
  exists v w1,
    readPortfolios w = (Return v, w1)
    /\ v <> Undefined
    /\ match v with
       | Null =>
           get_portfolios w
           = (Return (internal_server_error
                        (TypeError "Cannot read properties of null (reading 'length')")),
              logged "Error retrieving portfolios:"
                     (TypeError "Cannot read properties of null (reading 'length')") w1)
       | _ =>
           exists count,
             get_length v = Return count
             /\ get_portfolios w
                = (Return (Response 200
                             (Obj [ (js "success", Bool true);
                                    (js "message", Str (js "Portfolios retrieved successfully"));
                                    (js "data", v);
                                    (js "count", count) ])), w1)
       end.
Proof.
  destruct (readPortfolios_returns w) as (v & w1 & Er & _).
  pose proof (readPortfolios_defined w Er) as Hv.
  exists v, w1. split; [exact Er|]. split; [exact Hv|].
  unfold get_portfolios, try_catch. erewrite bind_return by exact Er.
  unfold bind, lift, console_error, ret.
  destruct v; cbn [get_length]; try reflexivity; try (eexists; split; reflexivity).
  exfalso. apply Hv. reflexivity.
Qed.

(** X10.  A file that is missing, that cannot be read or that is not JSON is
    listed as the empty collection: the answer is 200 with no data and the
    count 0, and the error is only logged. *)
Theorem unreadable_file_lists_as_empty (w : World) :
  unreadable w = true ->
  get_portfolios w
  = (Return (Response 200
               (Obj [ (js "success", Bool true);
                      (js "message", Str (js "Portfolios retrieved successfully"));
                      (js "data", Arr []);
                      (js "count", Num (NumberOfNat 0)) ])),
     logged "Error reading portfolios:" (load_error w) (called ReadFile (disk w) w)).
Proof.
  intros Hu.
  destruct (readPortfolios_cases w) as [[_ E]|(text & v & Hu' & _)]; [|congruence].
  unfold get_portfolios. erewrite try_catch_return; [reflexivity|].
  erewrite bind_return by exact E. reflexivity.
Qed.

(** X11.  A create on a file that is missing, that cannot be read or that is
    not JSON starts a new collection: it answers 201, and the file then
    holds the new record alone, whatever it held before. *)
Theorem create_replaces_an_unreadable_file (req_body : value) (w : World) :
  unreadable w = true ->
  next_fault (called ReadFile (disk w) w) = None ->
  valid_time (first_reading w) = true -> valid_time (second_reading w) = true ->
  json_value req_body ->
  exists text w',
    post_portfolios req_body w
    = (Return (Response 201
                 (Obj [ (js "success", Bool true);
                        (js "message", Str (js "Portfolio created successfully"));
                        (js "data", new_record req_body w) ])), w')
    /\ JSON_stringify (Arr [new_record req_body w]) = Some text
    /\ disk w' = Some text
    /\ JSON_parse text = Some (Arr [new_record req_body w]).
Proof.
  intros Hu Hf H1 H2 Hb.
  destruct (readPortfolios_cases w) as [[_ E]|(text & v & Hu' & _)]; [|congruence].
  set (w1 := logged "Error reading portfolios:" (load_error w) (called ReadFile (disk w) w)) in *.
  assert (Hnew : newPortfolio req_body w1 = (Return (new_record req_body w), literal_evaluated w1)).
  { rewrite (new_record_ext req_body w w1) by reflexivity.
    apply newPortfolio_builds; assumption. }
  assert (Hl : Forall json_value [new_record req_body w])
    by (constructor; [apply json_value_new_record, Hb | constructor]).
  destruct (stored_text Hl) as (text & E1 & E2 & E3).
  exists text. eexists. split; [|split; [exact E1|split; [|exact E3]]].
  - unfold post_portfolios.
    erewrite try_catch_return; [reflexivity|].
    erewrite bind_return by exact E.
    erewrite bind_return by exact Hnew.
    erewrite bind_return by reflexivity.
    erewrite bind_return by (apply writePortfolios_saves; [exact E1 | exact Hf]).
    reflexivity.
  - cbn. rewrite E2. reflexivity.
Qed.

(** X12.  When the file holds JSON that is not an array, no create and no
    delete gets through: each answers 500 and leaves the file as it is. *)
Theorem non_array_file_blocks_writes (w w1 : World) (v : value) :
  readPortfolios w = (Return v, w1) -> (forall l, v <> Arr l) ->
  (forall req_body,
     exists error, fst (post_portfolios req_body w) = Return (internal_server_error error)
                   /\ disk (snd (post_portfolios req_body w)) = disk w)
  /\ (forall id,
        exists error, fst (delete_portfolio id w) = Return (internal_server_error error)
                      /\ disk (snd (delete_portfolio id w)) = disk w).
Proof.
  intros Er Hv.
  destruct (readPortfolios_returns w) as (v' & w1' & Er' & Hd & _).
  rewrite Er in Er'. injection Er' as <- <-.
  split.
  - intros req_body. unfold post_portfolios, try_catch. erewrite bind_return by exact Er.
    unfold bind, console_error, ret, lift.
    pose proof (newPortfolio_frame req_body w1) as (Hn & _).
    destruct (newPortfolio req_body w1) as [[record|e] w2]; cbn [snd] in Hn;
      [|exists e; split; [reflexivity | cbn; congruence]].
    destruct v; cbn [push]; try (eexists; split; [reflexivity | cbn; congruence]).
    exfalso. exact (Hv _ eq_refl).
  - intros id. unfold delete_portfolio, try_catch. erewrite bind_return by exact Er.
    unfold bind, console_error, ret, lift.
    destruct v; cbn [findIndex]; try (eexists; split; [reflexivity | cbn; congruence]).
    exfalso. exact (Hv _ eq_refl).
Qed.

Lemma findIndex_from_throws (id : jsstring) (pre : list value) (x : value) (post : list value)
      (i : nat) (error : exn) :
  Forall (fun portfolio => matches_id id portfolio = Return false) pre ->
  matches_id id x = Throw error ->
  findIndex_from id (pre ++ x :: post) i = Throw error.
Proof.
  intros F Hx. revert i. induction F as [|y l Hy _ IH]; intros i.
  - cbn. rewrite Hx. reflexivity.
  - cbn [app findIndex_from]. rewrite Hy. apply IH.
Qed.

(** X13.  A [null] among the records stops the scan of a delete: when no
    record before it has the id, the delete answers 500 and the file is left
    as it is, also when a record after it has the id. *)
Theorem null_record_fails_the_delete (id : jsstring) (w w1 : World) (pre post : list value) :
  readPortfolios w = (Return (Arr (pre ++ Null :: post)), w1) ->
  Forall (fun portfolio => matches_id id portfolio = Return false) pre ->
  delete_portfolio id w
  = (Return (internal_server_error
               (TypeError "Cannot read properties of null (reading 'id')")),
     logged "Error deleting portfolio:"
            (TypeError "Cannot read properties of null (reading 'id')") w1)
  /\ disk w1 = disk w.
Proof.
  intros Er Hpre. split.
  - unfold delete_portfolio.
    erewrite try_catch_throw; [reflexivity|].
    erewrite bind_return by exact Er.
    erewrite bind_throw; [reflexivity|].
    unfold lift, findIndex.
    erewrite findIndex_from_throws; [reflexivity | exact Hpre | reflexivity].
  - destruct (readPortfolios_returns w) as (v' & w1' & Er' & Hd & _).
    rewrite Er in Er'. injection Er' as _ <-. exact Hd.
Qed.

End Answers.

(* ===================================================================== *)
(** ** Records *)

Section Records.
Context {JSN : JSNumber}.

(** *** The literal of a create, field by field *)

Lemma own_portfolio_literal (id : jsstring) (req_body : value) (createdAt updatedAt k : jsstring) :
  own (portfolio_literal id req_body createdAt updatedAt) k
  = if jsstring_eqb k (js "updatedAt") then Some (Str updatedAt)
    else if jsstring_eqb k (js "createdAt") then Some (Str createdAt)
    else match copied req_body k with
         | Some v => Some v
         | None => if jsstring_eqb k (js "id") then Some (Str id) else None
         end.
Proof.
  unfold portfolio_literal, own, spread, copied.
  rewrite !lookup_obj_set, lookup_define_all, lookup_obj_set. reflexivity.
Qed.

(** X14.  The fields of the record that a create builds: [updatedAt] and
    [createdAt] are the two readings of the clock, in the ISO 8601 shape,
    whatever the body says; every other field of the body is taken as it
    is, an [id] too; the generated id is used only when the body has none;
    and the record has no other field. *)
Theorem fields_of_a_new_record (req_body : value) (w : World) :
  valid_time (first_reading w) = true -> valid_time (second_reading w) = true ->
  exists record,
    fst (newPortfolio req_body w) = Return record
    /\ is_record record = true
    /\ (forall k,
          own record k
          = if jsstring_eqb k (js "updatedAt") then Some (Str (iso_format (second_reading w)))
            else if jsstring_eqb k (js "createdAt") then Some (Str (iso_format (first_reading w)))
            else match copied req_body k with
                 | Some v => Some v
                 | None => if jsstring_eqb k (js "id") then Some (Str (generated_id w)) else None
                 end)
    /\ is_iso8601 (iso_format (first_reading w)) = true
    /\ is_iso8601 (iso_format (second_reading w)) = true.
Proof.
  intros H1 H2. exists (new_record req_body w).
  split; [rewrite (newPortfolio_builds req_body w H1 H2); reflexivity|].
  split; [reflexivity|].
  split; [intros k; apply own_portfolio_literal|].
  split; apply iso_format_valid.
Qed.

(** *** The order of the fields *)

Lemma obj_set_new (k : jsstring) (v : value) (o : object) :
  ~ In k (map fst o) -> array_index k = None -> obj_set k v o = o ++ [(k, v)].
Proof.
  intros Hk Hi. unfold obj_set. rewrite Hi.
  assert (E : has_key k o = false).
  { apply has_key_false_iff. apply Forall_forall. intros kv Hin <-.
    apply Hk, in_map, Hin. }
  rewrite E. reflexivity.
Qed.

Lemma define_all_new (props : list (jsstring * value)) (o : object) :
  NoDup (map fst props) ->
  Forall (fun kv => array_index (fst kv) = None) props ->
  (forall k, In k (map fst props) -> ~ In k (map fst o)) ->
  define_all props o = o ++ props.
Proof.
  revert o. induction props as [|[k v] props IH]; intros o Hn Hi Ho.
  - cbn. rewrite app_nil_r. reflexivity.
  - inversion Hn as [|? ? Hk Hn']; subst. inversion Hi as [|? ? Hik Hi']; subst.
    unfold define_all in *. cbn [fold_left fst snd].
    rewrite obj_set_new; [| apply Ho; left; reflexivity | exact Hik].
    rewrite IH; [rewrite <- app_assoc; reflexivity | exact Hn' | exact Hi' |].
    intros k' Hk'. rewrite map_app, in_app_iff. cbn.
    intros [H|[H|[]]]; [exact (Ho k' (or_intror Hk') H) | subst k'; exact (Hk Hk')].
Qed.

(** X15.  The order of the fields of a new record, for a body whose keys are
    distinct, none an array index and none of [id], [createdAt] and
    [updatedAt]: the generated [id] first, the fields of the body as they
    were sent, then [createdAt] and [updatedAt]. *)
Theorem fields_of_a_plain_body_keep_their_order
        (id : jsstring) (props : list (jsstring * value)) (createdAt updatedAt : jsstring) :
  NoDup (map fst props) ->
  Forall (fun kv => array_index (fst kv) = None) props ->
  ~ In (js "id") (map fst props) ->
  ~ In (js "createdAt") (map fst props) ->
  ~ In (js "updatedAt") (map fst props) ->
  portfolio_literal id (Obj props) createdAt updatedAt
  = Obj ((js "id", Str id) :: props
         ++ [(js "createdAt", Str createdAt); (js "updatedAt", Str updatedAt)]).
Proof.
  intros Hn Hi Hid Hc Hu. unfold portfolio_literal, spread. cbn [own_properties].
  change (obj_set (js "id") (Str id) []) with [(js "id", Str id)].
  rewrite define_all_new; try assumption.
  - cbn [app]. rewrite (@obj_set_new (js "createdAt")).
    + rewrite (@obj_set_new (js "updatedAt")).
      * cbn [app]. rewrite <- app_assoc. reflexivity.
      * cbn [map fst app]. rewrite map_app. intros [H|H]; [discriminate|].
        apply in_app_or in H. destruct H as [H|[H|[]]]; [exact (Hu H) | discriminate].
      * reflexivity.
    + cbn [map fst]. intros [H|H]; [discriminate | exact (Hc H)].
    + reflexivity.
  - intros k Hk [<-|[]]. exact (Hid Hk).
Qed.

(** *** Records and ids *)

Lemma matches_id_true (id : jsstring) (portfolio : value) :
  matches_id id portfolio = Return true -> own portfolio (js "id") = Some (Str id).
Proof.
  destruct portfolio; cbn [matches_id own]; try discriminate.
  destruct (lookup (js "id") properties) as [[| | | |s| |]|]; try discriminate.
  intros H. injection H as H. apply jsstring_eqb_eq in H. subst s. reflexivity.
Qed.

Lemma matches_id_record (id : jsstring) (portfolio : value) :
  is_record portfolio = true -> exists b, matches_id id portfolio = Return b.
Proof. destruct portfolio; try discriminate. intros _. eexists. reflexivity. Qed.

Lemma matches_id_other (id : jsstring) (portfolio v : value) :
  is_record portfolio = true -> own portfolio (js "id") = Some v -> v <> Str id ->
  matches_id id portfolio = Return false.
Proof.
  destruct portfolio; try discriminate. cbn [matches_id own]. intros _ -> Hv.
  destruct v; try reflexivity.
  destruct (jsstring_eqb s id) eqn:E; [|reflexivity].
  apply jsstring_eqb_eq in E. subst s. exfalso. apply Hv. reflexivity.
Qed.

Lemma new_record_matches (req_body : value) (w : World) :
  copied req_body (js "id") = None ->
  matches_id (generated_id w) (new_record req_body w) = Return true.
Proof.
  intros Hb.
  assert (E : own (new_record req_body w) (js "id") = Some (Str (generated_id w)))
    by (unfold new_record; rewrite own_portfolio_literal, Hb; reflexivity).
  unfold new_record, portfolio_literal in *. cbn [own matches_id] in *.
  rewrite E, jsstring_eqb_refl. reflexivity.
Qed.

Lemma findIndex_from_records (id : jsstring) (l : list value) (k : nat) :
  Forall (fun portfolio => is_record portfolio = true) l ->
  exists found, findIndex_from id l k = Return found.
Proof.
  intros F. revert k. induction F as [|x l Hx _ IH]; intros k; [eexists; reflexivity|].
  cbn [findIndex_from]. destruct (matches_id_record id x Hx) as [[|] ->];
    [eexists; reflexivity | apply IH].
Qed.

(** A delete that finds no record answers 404 and changes nothing. *)
Lemma delete_none (id : jsstring) (w : World) (l : list value) :
  ready w l -> findIndex_from id l 0 = Return None ->
  delete_portfolio id w = (Return portfolio_not_found, called ReadFile (disk w) w).
Proof.
  intros (Hf & Hc & text & Hd & Hp & Hl) Ef.
  unfold delete_portfolio. erewrite try_catch_return; [reflexivity|].
  erewrite bind_return by (apply (readPortfolios_loads w (no_faults_next Hf) Hd Hp)).
  erewrite bind_return by (unfold lift, findIndex; rewrite Ef; reflexivity).
  reflexivity.
Qed.

(** A delete whose scan throws answers 500 and changes nothing. *)
Lemma delete_thrown (id : jsstring) (w : World) (l : list value) (error : exn) :
  ready w l -> findIndex_from id l 0 = Throw error ->
  delete_portfolio id w
  = (Return (internal_server_error error),
     logged "Error deleting portfolio:" error (called ReadFile (disk w) w)).
Proof.
  intros (Hf & Hc & text & Hd & Hp & Hl) Ef.
  unfold delete_portfolio. erewrite try_catch_throw; [reflexivity|].
  erewrite bind_return by (apply (readPortfolios_loads w (no_faults_next Hf) Hd Hp)).
  erewrite bind_throw by (unfold lift, findIndex; rewrite Ef; reflexivity).
  reflexivity.
Qed.

(** X16.  With distinct ids, a delete removes the only record of its id: it
    answers 200 with that record as [data]; a list then answers with the
    other records, in their order, one fewer, none of them with that id, and
    with their count; and the same delete again answers 404. *)
Theorem deleted_record_is_gone (id : jsstring) (w : World) (l : list value) :
  ready w l -> distinct_ids l ->
  Forall (fun portfolio => is_record portfolio = true) l ->
  Exists (fun portfolio => matches_id id portfolio = Return true) l ->
  exists r rest,
    fst (serve [DELETE_portfolio id; GET_portfolios; DELETE_portfolio id] w)
    = Return
        [ Response 200
            (Obj [ (js "success", Bool true);
                   (js "message", Str (js "Portfolio deleted successfully"));
                   (js "data", r) ]);
          Response 200
            (Obj [ (js "success", Bool true);
                   (js "message", Str (js "Portfolios retrieved successfully"));
                   (js "data", Arr rest);
                   (js "count", Num (NumberOfNat (length rest))) ]);
          Response 404
            (Obj [ (js "success", Bool false);
                   (js "message", Str (js "Portfolio not found")) ]) ]
    /\ (exists pre post, l = pre ++ r :: post /\ rest = pre ++ post)
    /\ own r (js "id") = Some (Str id)
    /\ length l = S (length rest)
    /\ Forall (fun portfolio => matches_id id portfolio = Return false) rest.
Proof.
  intros Hw Hd Hrec Hsome.
  assert (Hall : Forall (fun x => exists b, matches_id id x = Return b) l).
  { eapply Forall_impl; [|exact Hrec]. intros x. apply matches_id_record. }
  destruct (first_match_exists id Hall Hsome) as (pre & r & post & -> & Hpre & Hr).
  destruct (@delete_step _ id w pre r post Hw Hpre Hr) as (w1 & E1 & Hw1 & _).
  destruct (list_step Hw1) as (w2 & E2 & Hw2 & _).
  assert (Hnone : Forall (fun x => matches_id id x = Return false) (pre ++ post)).
  { apply Forall_app. split; [exact Hpre|].
    apply Forall_forall. intros x Hx.
    apply Forall_app in Hall. destruct Hall as [_ Hall]. inversion Hall as [|? ? _ Hpost]; subst.
    rewrite Forall_forall in Hpost. destruct (Hpost x Hx) as [[|] Hb]; [|exact Hb].
    exfalso. unfold distinct_ids in Hd. rewrite map_app in Hd. cbn [map] in Hd.
    apply NoDup_remove_2 in Hd. apply Hd. apply in_or_app. right.
    rewrite (matches_id_true _ _ Hr), <- (matches_id_true _ _ Hb).
    exact (in_map (fun portfolio => own portfolio (js "id")) post x Hx). }
  exists r, (pre ++ post).
  split; [|split; [exists pre, post; split; reflexivity|];
           split; [exact (matches_id_true _ _ Hr)|split; [|exact Hnone]]].
  - cbn [serve handle].
    erewrite bind_return by exact E1.
    erewrite bind_return
      by (erewrite bind_return by exact E2;
          erewrite bind_return
            by (erewrite bind_return
                  by (apply (delete_none id Hw2); apply (findIndex_from_none _ 0 Hnone));
                erewrite bind_return by reflexivity; reflexivity);
          reflexivity).
    reflexivity.
  - rewrite !length_app. cbn [length]. lia.
Qed.

(** X17.  A create followed by the delete of the id it generated leaves the
    collection as it was, when the body has no [id] and no record has the
    generated one; the create answers 201 and the delete 200, both with the
    new record as [data]. *)
Theorem create_then_delete_restores (req_body : value) (w : World) (l : list value) :
  ready w l -> json_value req_body ->
  copied req_body (js "id") = None ->
  Forall (fun portfolio => matches_id (generated_id w) portfolio = Return false) l ->
  exists w',
    serve [POST_portfolios req_body; DELETE_portfolio (generated_id w)] w
    = (Return
         [ Response 201
             (Obj [ (js "success", Bool true);
                    (js "message", Str (js "Portfolio created successfully"));
                    (js "data", new_record req_body w) ]);
           Response 200
             (Obj [ (js "success", Bool true);
                    (js "message", Str (js "Portfolio deleted successfully"));
                    (js "data", new_record req_body w) ]) ], w')
    /\ ready w' l.
Proof.
  intros Hw Hb Hid Hl.
  destruct (create_step Hw Hb) as (w1 & E1 & Hw1 & _).
  destruct (@delete_step _ (generated_id w) w1 l (new_record req_body w) [] Hw1 Hl
              (new_record_matches req_body w Hid)) as (w2 & E2 & Hw2 & _).
  rewrite app_nil_r in Hw2. exists w2. split; [|exact Hw2].
  cbn [serve handle].
  erewrite bind_return by exact E1.
  erewrite bind_return
    by (erewrite bind_return by exact E2; erewrite bind_return by reflexivity; reflexivity).
  reflexivity.
Qed.

(** X18.  A record created with an [id] that is not a string cannot be
    deleted: whatever id a delete names after the create, the record is
    still in the collection. *)
Theorem record_without_a_string_id_stays
        (req_body v : value) (id : jsstring) (w : World) (l : list value) :
  ready w l -> json_value req_body ->
  copied req_body (js "id") = Some v -> (forall s, v <> Str s) ->
  exists rs w' l',
    serve [POST_portfolios req_body; DELETE_portfolio id] w = (Return rs, w')
    /\ ready w' l' /\ In (new_record req_body w) l'.
Proof.
  intros Hw Hb Hid Hv.
  destruct (create_step Hw Hb) as (w1 & E1 & Hw1 & _).
  set (record := new_record req_body w) in *.
  assert (Hm : matches_id id record = Return false).
  { apply (@matches_id_other id record v); [reflexivity | | apply Hv].
    unfold record, new_record. rewrite own_portfolio_literal, Hid. reflexivity. }
  assert (Hserve : forall r w2,
            delete_portfolio id w1 = (Return r, w2) ->
            serve [POST_portfolios req_body; DELETE_portfolio id] w
            = (Return [created record; r], w2)).
  { intros r w2 E2. cbn [serve handle].
    erewrite bind_return by exact E1.
    erewrite bind_return
      by (erewrite bind_return by exact E2; erewrite bind_return by reflexivity; reflexivity).
    reflexivity. }
  destruct (findIndex_from id (l ++ [record]) 0) as [[i|]|error] eqn:Ef.
  - destruct (findIndex_from_some _ _ _ Ef) as (pre & r & post & El & Hpre & Hr).
    rewrite El in Hw1.
    destruct (@delete_step _ id w1 pre r post Hw1 Hpre Hr) as (w2 & E2 & Hw2 & _).
    exists [created record; deleted r], w2, (pre ++ post).
    split; [apply Hserve, E2|]. split; [exact Hw2|].
    assert (Hin : In record (pre ++ r :: post))
      by (rewrite <- El; apply in_or_app; right; left; reflexivity).
    apply in_app_or in Hin. apply in_or_app.
    destruct Hin as [Hin|[Hin|Hin]]; [left; exact Hin | | right; exact Hin].
    subst r. congruence.
  - eexists _, _, (l ++ [record]).
    split; [apply Hserve, (delete_none id Hw1 Ef)|].
    split; [apply ready_after_read, Hw1 | apply in_or_app; right; left; reflexivity].
  - eexists _, _, (l ++ [record]).
    split; [apply Hserve, (delete_thrown id Hw1 Ef)|].
    split; [apply ready_after_read, Hw1 | apply in_or_app; right; left; reflexivity].
Qed.

(** *** Sequences of requests *)

Lemma handle_keeps_records (req : request) (w : World) (l : list value) :
  ready w l -> Forall (fun portfolio => is_record portfolio = true) l -> json_request req ->
  exists r w' l',
    handle req w = (Return r, w')
    /\ ready w' l'
    /\ Forall (fun portfolio => is_record portfolio = true) l'
    /\ route_answer req r /\ status r <> 500.
Proof.
  intros Hw Hl Hreq.
  assert (G : exists r w' l',
            handle req w = (Return r, w') /\ ready w' l'
            /\ Forall (fun portfolio => is_record portfolio = true) l' /\ status r <> 500).
  { destruct req as [req_body| |id| |]; cbn [handle].
    - destruct (create_step Hw Hreq) as (w' & E & Hw' & _).
      exists (created (new_record req_body w)), w', (l ++ [new_record req_body w]).
      split; [exact E|]. split; [exact Hw'|]. split; [|discriminate].
      apply Forall_app. split; [exact Hl | repeat constructor].
    - destruct (list_step Hw) as (w' & E & Hw' & _).
      eexists _, w', l. split; [exact E|]. split; [exact Hw'|]. split; [exact Hl | discriminate].
    - destruct (findIndex_from_records id 0 Hl) as [[i|] Ef].
      + destruct (findIndex_from_some _ _ _ Ef) as (pre & r & post & -> & Hpre & Hr).
        destruct (@delete_step _ id w pre r post Hw Hpre Hr) as (w' & E & Hw' & _).
        exists (deleted r), w', (pre ++ post).
        split; [exact E|]. split; [exact Hw'|]. split; [|discriminate].
        apply Forall_app in Hl. destruct Hl as [H1 H2]. inversion H2; subst.
        apply Forall_app. split; assumption.
      + eexists _, _, l. split; [apply (delete_none id Hw Ef)|].
        split; [apply ready_after_read, Hw|]. split; [exact Hl | discriminate].
    - eexists _, _, l. unfold get_root, ret. split; [reflexivity|].
      split; [exact Hw|]. split; [exact Hl | cbn; discriminate].
    - eexists _, _, l. unfold endpoint_not_found, ret. split; [reflexivity|].
      split; [exact Hw|]. split; [exact Hl | cbn; discriminate]. }
  destruct G as (r & w' & l' & E & Hw' & Hl' & Hr).
  destruct (handle_answers req w) as (r0 & w0 & E0 & H0).
  rewrite E in E0. injection E0 as <- <-.
  exists r, w', l'. split; [exact E|]. split; [exact Hw'|]. split; [exact Hl'|].
  split; [exact H0 | exact Hr].
Qed.

Lemma serve_keeps_records (reqs : list request) (w : World) (l : list value) :
  ready w l -> Forall (fun portfolio => is_record portfolio = true) l ->
  Forall json_request reqs ->
  exists rs w' l',
    serve reqs w = (Return rs, w')
    /\ ready w' l'
    /\ Forall (fun portfolio => is_record portfolio = true) l'
    /\ Forall2 (fun req r => route_answer req r /\ status r <> 500) reqs rs.
Proof.
  intros Hw Hl Hreqs. revert w l Hw Hl.
  induction Hreqs as [|req reqs Hreq _ IH]; intros w l Hw Hl.
  - exists [], w, l. split; [reflexivity|]. split; [exact Hw|]. split; [exact Hl | constructor].
  - destruct (handle_keeps_records req Hw Hl Hreq)
      as (r & w1 & l1 & E1 & Hw1 & Hl1 & Ha & Hr).
    destruct (IH w1 l1 Hw1 Hl1) as (rs & w2 & l2 & E2 & Hw2 & Hl2 & Hrs).
    exists (r :: rs), w2, l2. split; [|split; [exact Hw2|split; [exact Hl2|]]].
    + cbn [serve]. erewrite bind_return by exact E1.
      erewrite bind_return by exact E2. reflexivity.
    + constructor; [split; assumption | exact Hrs].
Qed.

(** The start of a server whose file holds a collection. *)
Lemma startServer_ready (w : World) (l : list value) :
  ready w l -> startServer w = (Return true, called Access (disk w) w)
               /\ ready (called Access (disk w) w) l.
Proof.
  intros (Hf & Hc & text & Hd & Hp & Hl). split.
  - unfold startServer, initializeDataFile, try_catch, bind, fs_access.
    rewrite (no_faults_next Hf), Hd. reflexivity.
  - split; [apply (no_faults_tl (w := w)); [reflexivity | exact Hf]|].
    split; [exact Hc|]. exists text. repeat split; assumption.
Qed.

(** The start of a server that has no file yet. *)
Lemma startServer_fresh (w : World) :
  disk w = None -> no_faults w -> valid_clock w ->
  exists w', startServer w = (Return true, w') /\ ready w' [].
Proof.
  intros Hd Hf Hc.
  set (w1 := called Access None w).
  assert (Hf1 : no_faults w1) by (apply (no_faults_tl (w := w)); [reflexivity | exact Hf]).
  exists (called (WriteFile (js "[]")) (Some (js "[]")) w1). split.
  - unfold startServer, initializeDataFile, try_catch, bind, fs_access.
    rewrite (no_faults_next Hf), Hd. fold w1.
    rewrite stringify_empty_array. unfold write_text, fs_writeFile.
    rewrite (no_faults_next Hf1). reflexivity.
  - split; [apply (no_faults_tl (w := w1)); [reflexivity | exact Hf1]|].
    split; [exact Hc|]. exists (js "[]").
    split; [reflexivity|]. split; [apply parse_empty_array | constructor].
Qed.

(** X19.  The server as a whole, on a file system that does not fail:
    started with no file, or on a file that holds a collection of records,
    [startServer] comes to call [app.listen]; the requests that follow, when
    their bodies are JSON values, get one answer each, in order, with a
    status of its route that is not 500; and the file is left with a
    collection of records, which reads back as it was written. *)
Theorem server_keeps_its_collection (reqs : list request) (w : World) :
  no_faults w -> valid_clock w ->
  (disk w = None
   \/ exists l, ready w l /\ Forall (fun portfolio => is_record portfolio = true) l) ->
  Forall json_request reqs ->
  exists w0 rs w' l',
    startServer w = (Return true, w0)
    /\ serve reqs w0 = (Return rs, w')
    /\ (started <- startServer ;; if started then serve reqs else ret []) w = (Return rs, w')
    /\ Forall2 (fun req r => route_answer req r /\ status r <> 500) reqs rs
    /\ ready w' l'
    /\ Forall (fun portfolio => is_record portfolio = true) l'.
Proof.
  intros Hf Hc Hw Hreqs.
  assert (Hstart : exists w1 l, startServer w = (Return true, w1) /\ ready w1 l
                                /\ Forall (fun portfolio => is_record portfolio = true) l).
  { destruct Hw as [Hd|(l & Hw & Hl)].
    - destruct (startServer_fresh Hd Hf Hc) as (w1 & E & Hw1).
      exists w1, []. split; [exact E|]. split; [exact Hw1 | constructor].
    - destruct (startServer_ready Hw) as [E Hw1].
      exists (called Access (disk w) w), l. split; [exact E|]. split; assumption. }
  destruct Hstart as (w1 & l & E & Hw1 & Hl).
  destruct (serve_keeps_records Hw1 Hl Hreqs) as (rs & w2 & l2 & E2 & Hw2 & Hl2 & Hrs).
  exists w1, rs, w2, l2.
  split; [exact E|]. split; [exact E2|].
  split; [erewrite bind_return by exact E; exact E2|].
  split; [exact Hrs|]. split; assumption.
Qed.

(** X20.  Creates append one record each: the creates of the bodies, one
    after the other, answer 201 with their records as [data]; the collection
    is then the former one followed by these records in the order of the
    requests; and a list answers with that collection, and counts as many
    records more as there were creates. *)
Theorem creates_append_one_record_each (bodies : list value) (w : World) (l : list value) :
  ready w l -> Forall json_value bodies ->
  exists records w',
    serve (map POST_portfolios bodies) w
    = (Return
         (map (fun record =>
                 Response 201
                   (Obj [ (js "success", Bool true);
                          (js "message", Str (js "Portfolio created successfully"));
                          (js "data", record) ]))
              records), w')
    /\ Forall2 (fun req_body record => exists w0, record = new_record req_body w0)
               bodies records
    /\ ready w' (l ++ records)
    /\ fst (get_portfolios w')
       = Return (Response 200
                   (Obj [ (js "success", Bool true);
                          (js "message", Str (js "Portfolios retrieved successfully"));
                          (js "data", Arr (l ++ records));
                          (js "count", Num (NumberOfNat (length l + length bodies))) ])).
Proof.
  intros Hw Hb. revert w l Hw. induction Hb as [|b bodies Hb _ IH]; intros w l Hw.
  - exists [], w. split; [reflexivity|]. split; [constructor|].
    rewrite app_nil_r. split; [exact Hw|].
    destruct (list_step Hw) as (w' & E & _). rewrite E. cbn [fst length].
    rewrite Nat.add_0_r. reflexivity.
  - destruct (create_step Hw Hb) as (w1 & E1 & Hw1 & _).
    destruct (IH w1 _ Hw1) as (records & w2 & E2 & H2 & Hw2 & Hg).
    exists (new_record b w :: records), w2.
    rewrite <- app_assoc in Hw2, Hg. cbn [app] in Hw2, Hg.
    split; [|split; [|split; [exact Hw2|]]].
    + cbn [map serve handle]. erewrite bind_return by exact E1.
      erewrite bind_return by exact E2. reflexivity.
    + constructor; [exists w; reflexivity | exact H2].
    + rewrite Hg. rewrite length_app. cbn [length].
      replace (length l + 1 + length bodies) with (length l + S (length bodies)) by lia.
      reflexivity.
Qed.

End Records.

(* ===================================================================== *)
(** ** Bodies that are arrays *)

Lemma uint_of_units_units (d : Decimal.uint) : uint_of_units (uint_units d) = Some d.
Proof. induction d; cbn [uint_units uint_of_units]; try rewrite IHd; reflexivity. Qed.

Lemma canonical_to_uint (n : N) : canonical (N.to_uint n) = true.
Proof.
  assert (E : Decimal.unorm (N.to_uint n) = N.to_uint n)
    by (rewrite <- (Unsigned.to_of (N.to_uint n)), Unsigned.of_to; reflexivity).
  destruct (N.to_uint n) as [|d| | | | | | | | |] eqn:Ed; try reflexivity.
  - exfalso. exact (DecimalFacts.unorm_nonnil _ E).
  - destruct d; try reflexivity; exfalso;
      match type of E with
      | Decimal.unorm (Decimal.D0 ?u) = _ =>
          assert (Hu : u <> Decimal.Nil) by discriminate;
          pose proof (DecimalFacts.nb_digits_unorm u Hu) as Hn;
          rewrite DecimalFacts.unorm_D0 in E; rewrite E in Hn; cbn in Hn; lia
      end.
Qed.

Section ArrayBodies.
Context {JSN : JSNumber}.

Lemma array_index_decimal (n : N) :
  (n < 4294967295)%N -> array_index (decimal_of_N n) = Some n.
Proof.
  intros H. unfold array_index, decimal_of_N.
  rewrite uint_of_units_units, canonical_to_uint, Unsigned.of_to.
  apply N.ltb_lt in H. rewrite H. reflexivity.
Qed.

Lemma insert_index_before (i : N) (k : jsstring) (v : value) (pre : object)
      (x : jsstring * value) (rest : object) :
  Forall (fun kv => exists j, array_index (fst kv) = Some j /\ (j < i)%N) pre ->
  array_index (fst x) = None ->
  insert_index i k v (pre ++ x :: rest) = pre ++ (k, v) :: x :: rest.
Proof.
  intros F Hx. induction F as [|[k' v'] pre (j & Hj & Hlt) _ IH].
  - destruct x as [kx vx]. cbn in *. rewrite Hx. reflexivity.
  - cbn [app insert_index]. cbn [fst] in Hj. rewrite Hj.
    apply N.ltb_lt in Hlt. rewrite Hlt, IH. reflexivity.
Qed.

Lemma define_all_indexed (A : Type) (f : A -> value) (l : list A) :
  forall (from : N) (pre : object) (x : jsstring * value),
    (from + N.of_nat (length l) <= 4294967295)%N ->
    Forall (fun kv => exists j, array_index (fst kv) = Some j /\ (j < from)%N) pre ->
    array_index (fst x) = None ->
    define_all (indexed f from l) (pre ++ [x]) = pre ++ indexed f from l ++ [x].
Proof.
  induction l as [|a l IH]; intros from pre x Hb Hpre Hx; [reflexivity|].
  assert (Hfrom : (from < 4294967295)%N) by (cbn [length] in Hb; lia).
  pose proof (array_index_decimal Hfrom) as Hk.
  unfold define_all in *. cbn [indexed fold_left fst snd].
  assert (Hset : obj_set (decimal_of_N from) (f a) (pre ++ [x])
                 = (pre ++ [(decimal_of_N from, f a)]) ++ [x]).
  { unfold obj_set.
    assert (E : has_key (decimal_of_N from) (pre ++ [x]) = false).
    { apply has_key_false_iff, Forall_app. split.
      - eapply Forall_impl; [|exact Hpre]. intros kv (j & Hj & Hlt) Heq.
        rewrite Heq, Hk in Hj. injection Hj as <-. lia.
      - constructor; [|constructor]. intros Heq. rewrite Heq, Hk in Hx. discriminate. }
    rewrite E, Hk, (@insert_index_before from (decimal_of_N from) (f a) pre x [] Hpre Hx),
      <- app_assoc. reflexivity. }
  rewrite Hset, IH; [rewrite <- app_assoc; reflexivity | cbn [length] in Hb; lia | | exact Hx].
  apply Forall_app. split.
  - eapply Forall_impl; [|exact Hpre]. intros kv (j & Hj & Hlt). exists j. split; [exact Hj | lia].
  - constructor; [|constructor]. exists from. split; [exact Hk | lia].
Qed.

Lemma indexed_keys (A : Type) (f : A -> value) (l : list A) (k : jsstring) :
  forall from,
    (from + N.of_nat (length l) <= 4294967295)%N ->
    In k (map fst (indexed f from l)) -> exists n, array_index k = Some n.
Proof.
  induction l as [|a l IH]; intros from Hb; [intros []|].
  cbn [indexed map fst In]. intros [<-|H].
  - exists from. apply array_index_decimal. cbn [length] in Hb. lia.
  - apply (IH (N.succ from)); [cbn [length] in Hb; lia | exact H].
Qed.

(** X21.  A body that is an array is spread by index: the record has the
    elements under the keys 0, 1, 2, ..., which as array indices come before
    every other key, then the generated [id], [createdAt] and [updatedAt]. *)
Theorem record_of_an_array_body
        (id : jsstring) (elements : list value) (createdAt updatedAt : jsstring) :
  (N.of_nat (length elements) <= 4294967295)%N ->
  portfolio_literal id (Arr elements) createdAt updatedAt
  = Obj (indexed (fun x => x) 0 elements
         ++ [ (js "id", Str id);
              (js "createdAt", Str createdAt); (js "updatedAt", Str updatedAt) ]).
Proof.
  intros Hb. unfold portfolio_literal, spread. cbn [own_properties].
  change (obj_set (js "id") (Str id) []) with ([] ++ [(js "id", Str id)]).
  rewrite define_all_indexed; [|lia|constructor|reflexivity]. cbn [app].
  assert (Hkeys : forall k, array_index k = None -> k <> js "id" ->
                            ~ In k (map fst (indexed (fun x : value => x) 0 elements
                                             ++ [(js "id", Str id)]))).
  { intros k Hk Hid. rewrite map_app, in_app_iff. intros [H|[H|[]]].
    - destruct (indexed_keys _ _ _ 0%N Hb H) as [n Hn]. congruence.
    - apply Hid. symmetry. exact H. }
  rewrite (@obj_set_new _ (js "createdAt"));
    [|apply Hkeys; [reflexivity | discriminate]|reflexivity].
  rewrite (@obj_set_new _ (js "updatedAt")); [|rewrite map_app, in_app_iff|reflexivity].
  - rewrite <- !app_assoc. reflexivity.
  - intros [H|[H|[]]]; [|discriminate].
    exact (Hkeys (js "updatedAt") eq_refl ltac:(discriminate) H).
Qed.

End ArrayBodies.

(* ===================================================================== *)
(** ** Handlers in flight *)

Section InFlight.
Context {JSN : JSNumber}.

(** Run without another handler in between, the two parts are the handler. *)
Lemma post_portfolios_settled (req_body : value) (w : World) :
  (p <- post_portfolios_begin req_body ;; settle p) w = post_portfolios req_body w.
Proof.
  unfold post_portfolios_begin, post_portfolios, settle, try_catch, bind, console_error, ret, lift.
  destruct (readPortfolios w) as [[v|e] w1]; [|reflexivity].
  destruct (newPortfolio req_body w1) as [[record|e] w2]; [|reflexivity].
  destruct (push v record) as [v'|e]; reflexivity.
Qed.

Lemma delete_portfolio_settled (id : jsstring) (w : World) :
  (p <- delete_portfolio_begin id ;; settle p) w = delete_portfolio id w.
Proof.
  unfold delete_portfolio_begin, delete_portfolio, settle, try_catch, bind, console_error, ret,
    lift.
  destruct (readPortfolios w) as [[v|e] w1]; [|reflexivity].
  destruct (findIndex v id) as [[i|]|e]; try reflexivity.
  destruct (splice_one v i) as [[removed rest]|e]; reflexivity.
Qed.

(** A create that starts in a ready server. *)
Lemma post_portfolios_begins (req_body : value) (w : World) (l : list value) :
  ready w l ->
  exists w',
    post_portfolios_begin req_body w
    = (Return (Writing (Arr (l ++ [new_record req_body w])) (created (new_record req_body w))
                       "Error creating portfolio:"), w')
    /\ ready w' l
    /\ entropy w' = tl (entropy w) /\ clock w' = tl (tl (clock w)).
Proof.
  intros (Hf & Hc & text & Hd & Hp & Hl).
  set (w1 := called ReadFile (disk w) w).
  assert (Hread : readPortfolios w = (Return (Arr l), w1))
    by (apply (readPortfolios_loads w (no_faults_next Hf) Hd Hp)).
  assert (Hnew : newPortfolio req_body w1 = (Return (new_record req_body w), literal_evaluated w1)).
  { rewrite (new_record_ext req_body w w1) by reflexivity.
    apply newPortfolio_builds;
      [apply (valid_clock_first (w := w)) | apply (valid_clock_second (w := w))]; exact Hc. }
  exists (literal_evaluated w1). split; [|split; [|split; reflexivity]].
  - unfold post_portfolios_begin.
    erewrite try_catch_return; [reflexivity|].
    erewrite bind_return by exact Hread.
    erewrite bind_return by exact Hnew.
    erewrite bind_return by reflexivity. reflexivity.
  - split; [apply (no_faults_tl (w := w)); [reflexivity | exact Hf]|].
    split.
    + apply (valid_clock_tl (w := ticked w)); [reflexivity|].
      apply (valid_clock_tl (w := w)); [reflexivity | exact Hc].
    + exists text. repeat split; assumption.
Qed.

(** A delete that starts in a ready server and finds its record. *)
Lemma delete_portfolio_begins (id : jsstring) (w : World) (pre : list value) (r : value)
      (post : list value) :
  ready w (pre ++ r :: post) ->
  Forall (fun portfolio => matches_id id portfolio = Return false) pre ->
  matches_id id r = Return true ->
  delete_portfolio_begin id w
  = (Return (Writing (Arr (pre ++ post)) (deleted r) "Error deleting portfolio:"),
     called ReadFile (disk w) w)
  /\ ready (called ReadFile (disk w) w) (pre ++ r :: post).
Proof.
  intros Hw Hpre Hr. split; [|apply ready_after_read, Hw].
  destruct Hw as (Hf & Hc & text & Hd & Hp & Hl).
  unfold delete_portfolio_begin.
  erewrite try_catch_return; [reflexivity|].
  erewrite bind_return by (apply (readPortfolios_loads w (no_faults_next Hf) Hd Hp)).
  erewrite bind_return
    by (unfold lift, findIndex; rewrite (findIndex_from_first _ _ post 0 Hpre Hr); reflexivity).
  cbn [Nat.add].
  erewrite bind_return by (unfold lift; rewrite splice_middle; reflexivity).
  reflexivity.
Qed.

(** The write of a handler in flight, whatever the file holds by then. *)
Lemma settle_writes (portfolios : list value) (r : response) (label : string) (w : World)
      (l : list value) :
  ready w l -> Forall json_value portfolios ->
  exists w',
    settle (Writing (Arr portfolios) r label) w = (Return r, w')
    /\ ready w' portfolios
    /\ entropy w' = entropy w /\ clock w' = clock w.
Proof.
  intros (Hf & Hc & _) Hl.
  destruct (stored_text Hl) as (text & E1 & E2 & E3).
  exists (called (WriteFile text) (Some (utf8_roundtrip text)) w).
  split; [|split; [|split; reflexivity]].
  - unfold settle. erewrite try_catch_return; [reflexivity|].
    erewrite bind_return by (apply writePortfolios_saves; [exact E1 | apply no_faults_next, Hf]).
    reflexivity.
  - split; [apply (no_faults_tl (w := w)); [reflexivity | exact Hf]|].
    split; [exact Hc|]. exists text. rewrite E2. repeat split; assumption.
Qed.

(** X22.  Two creates in flight at once lose a record.  When the second
    create loads the file before the first has written it, both answer 201
    with their records, and the file then holds the record of the second
    only: the record of the first is not stored.  The two parts of a create,
    run one after the other, are the create. *)
Theorem interleaved_creates_lose_a_record (a b : value) (w : World) (l : list value) :
  ready w l -> json_value a -> json_value b ->
  (forall req_body w0,
     (p <- post_portfolios_begin req_body ;; settle p) w0 = post_portfolios req_body w0)
  /\ exists w',
       (first <- post_portfolios_begin a ;;
        second <- post_portfolios_begin b ;;
        r1 <- settle first ;;
        r2 <- settle second ;;
        ret [r1; r2]) w
       = (Return
            [ Response 201
                (Obj [ (js "success", Bool true);
                       (js "message", Str (js "Portfolio created successfully"));
                       (js "data", new_record a w) ]);
              Response 201
                (Obj [ (js "success", Bool true);
                       (js "message", Str (js "Portfolio created successfully"));
                       (js "data", new_record b (literal_evaluated w)) ]) ], w')
       /\ ready w' (l ++ [new_record b (literal_evaluated w)]).
Proof.
  intros Hw Ha Hb. split; [exact post_portfolios_settled|].
  destruct (post_portfolios_begins a Hw) as (w1 & E1 & Hw1 & He1 & Hc1).
  destruct (post_portfolios_begins b Hw1) as (w2 & E2 & Hw2 & _).
  rewrite (new_record_ext b w1 (literal_evaluated w)) in E2 by assumption.
  assert (Hla : Forall json_value (l ++ [new_record a w])).
  { destruct Hw as (_ & _ & _ & _ & _ & Hl). apply Forall_app. split; [exact Hl|].
    constructor; [apply json_value_new_record, Ha | constructor]. }
  assert (Hlb : Forall json_value (l ++ [new_record b (literal_evaluated w)])).
  { destruct Hw as (_ & _ & _ & _ & _ & Hl). apply Forall_app. split; [exact Hl|].
    constructor; [apply json_value_new_record, Hb | constructor]. }
  destruct (settle_writes (created (new_record a w)) "Error creating portfolio:" Hw2 Hla)
    as (w3 & E3 & Hw3 & _).
  destruct (settle_writes (created (new_record b (literal_evaluated w)))
              "Error creating portfolio:" Hw3 Hlb) as (w4 & E4 & Hw4 & _).
  exists w4. split; [|exact Hw4].
  erewrite bind_return by exact E1.
  erewrite bind_return by exact E2.
  erewrite bind_return by exact E3.
  erewrite bind_return by exact E4. reflexivity.
Qed.

(** X23.  A create in flight undoes a delete.  When the create loads the file
    before the delete has written it, and writes after it, the delete answers
    200 with its record as [data] and the create 201 with the new one, and
    the file then holds the deleted record again.  The two parts of a delete, run one after the
    other, are the delete. *)
Theorem interleaved_create_undoes_a_delete
        (id : jsstring) (req_body : value) (w : World) (pre : list value) (r : value)
        (post : list value) :
  ready w (pre ++ r :: post) -> json_value req_body ->
  Forall (fun portfolio => matches_id id portfolio = Return false) pre ->
  matches_id id r = Return true ->
  (forall id0 w0, (p <- delete_portfolio_begin id0 ;; settle p) w0 = delete_portfolio id0 w0)
  /\ exists w',
       (first <- delete_portfolio_begin id ;;
        second <- post_portfolios_begin req_body ;;
        r1 <- settle first ;;
        r2 <- settle second ;;
        ret [r1; r2]) w
       = (Return
            [ Response 200
                (Obj [ (js "success", Bool true);
                       (js "message", Str (js "Portfolio deleted successfully"));
                       (js "data", r) ]);
              Response 201
                (Obj [ (js "success", Bool true);
                       (js "message", Str (js "Portfolio created successfully"));
                       (js "data", new_record req_body w) ]) ], w')
       /\ ready w' (pre ++ r :: post ++ [new_record req_body w]).
Proof.
  intros Hw Hb Hpre Hr. split; [exact delete_portfolio_settled|].
  destruct (@delete_portfolio_begins id w pre r post Hw Hpre Hr) as [E1 Hw1].
  destruct (post_portfolios_begins req_body Hw1) as (w2 & E2 & Hw2 & _).
  rewrite (new_record_ext req_body (called ReadFile (disk w) w) w) in E2 by reflexivity.
  pose proof Hw as (_ & _ & _ & _ & _ & Hl).
  assert (Hdel : Forall json_value (pre ++ post)).
  { apply Forall_app in Hl. destruct Hl as [H1 H2]. inversion H2; subst.
    apply Forall_app. split; assumption. }
  assert (Hall : Forall json_value ((pre ++ r :: post) ++ [new_record req_body w])).
  { apply Forall_app. split; [exact Hl|].
    constructor; [apply json_value_new_record, Hb | constructor]. }
  destruct (settle_writes (deleted r) "Error deleting portfolio:" Hw2 Hdel) as (w3 & E3 & Hw3 & _).
  destruct (settle_writes (created (new_record req_body w)) "Error creating portfolio:" Hw3 Hall)
    as (w4 & E4 & Hw4 & _).
  exists w4. split.
  - erewrite bind_return by exact E1.
    erewrite bind_return by exact E2.
    erewrite bind_return by exact E3.
    erewrite bind_return by exact E4. reflexivity.
  - rewrite <- app_assoc in Hw4. exact Hw4.
Qed.

End InFlight.

(* ===================================================================== *)
(** ** What the handlers log *)

Section Logs.
Context {JSN : JSNumber}.

(** X24.  Every 500 is logged: when a handler answers 500, its catch has just
    printed the error under the label of the route, and the [error] field of
    the answer is the message of that error. *)
Theorem internal_errors_are_logged (req : request) (w : World) :
  exists r w',
    handle req w = (Return r, w')
    /\ (status r = 500 ->
        exists error w1,
          r = internal_server_error error /\ w' = logged (route_label req) error w1).
Proof.
  destruct req as [req_body| |id| |]; cbn [handle route_label].
  - unfold post_portfolios, try_catch, bind, console_error, ret, lift.
    destruct (readPortfolios w) as [[v|e] w1]; [|eauto 12].
    destruct (newPortfolio req_body w1) as [[record|e] w2]; [|eauto 12].
    destruct (push v record) as [v'|e]; [|eauto 12].
    destruct (writePortfolios v' w2) as [[[]|e] w3]; [|eauto 12].
    do 2 eexists. split; [reflexivity | discriminate].
  - unfold get_portfolios, try_catch, bind, console_error, ret, lift.
    destruct (readPortfolios w) as [[v|e] w1]; [|eauto 12].
    destruct (get_length v) as [count|e]; [|eauto 12].
    do 2 eexists. split; [reflexivity | discriminate].
  - unfold delete_portfolio, try_catch, bind, console_error, ret, lift.
    destruct (readPortfolios w) as [[v|e] w1]; [|eauto 12].
    destruct (findIndex v id) as [[i|]|e];
      [| do 2 eexists; split; [reflexivity | discriminate] | eauto 12].
    destruct (splice_one v i) as [[removed rest]|e]; [|eauto 12].
    cbn [fst snd]. destruct (writePortfolios rest w1) as [[[]|e] w2]; [|eauto 12].
    do 2 eexists. split; [reflexivity | discriminate].
  - do 2 eexists. split; [reflexivity | discriminate].
  - do 2 eexists. split; [reflexivity | discriminate].
Qed.

End Logs.

(* ===================================================================== *)
(** ** Runs of the server *)

Example startServer_creates_the_file :
  startServer fresh_world
  = (Return true, mkWorld (Some (js "[]")) [] [Access; WriteFile (js "[]")] [] [] []).
Proof. reflexivity. Qed.

(** C1.  A create whose body has an [id] stores and returns the caller's
    [id], not the generated one; the two timestamps are the server's. *)
Theorem caller_id_overrides_generated_id :
  let req_body := Obj [ (js "id", Str (js "mine"));
                        (js "createdAt", Str (js "never"));
                        (js "updatedAt", Str (js "never")) ] in
  let record := Obj [ (js "id", Str (js "mine"));
                      (js "createdAt", Str epoch);
                      (js "updatedAt", Str epoch) ] in
  fst (post_portfolios req_body empty_file) = Return (created record)
  /\ stored (snd (post_portfolios req_body empty_file)) = Arr [record]
  /\ generated_id empty_file = zero_id.
Proof. repeat split. Qed.

(** C2.  Two creates with the same [id] in their bodies leave two records
    with that [id] in the collection. *)
Theorem two_records_share_an_id :
  let req_body := Obj [(js "id", Str (js "dup"))] in
  let record := Obj [ (js "id", Str (js "dup"));
                      (js "createdAt", Str epoch);
                      (js "updatedAt", Str epoch) ] in
  stored (snd ((startServer ;; serve [POST_portfolios req_body; POST_portfolios req_body])
                 fresh_world))
  = Arr [record; record]
  /\ ~ distinct_ids [record; record].
Proof.
  split; [reflexivity|].
  unfold distinct_ids. cbn [map]. intros H. inversion H as [|? ? Hin _]; subst.
  apply Hin. left. reflexivity.
Qed.


(** C7.  The two timestamps of a create are two readings of the clock, of
    lines 55 and 56: when the clock moves between them, the create of "My
    Site" answers 201 with a [createdAt] and an [updatedAt] that differ. *)
Theorem timestamps_of_a_create_differ :
  let w := mkWorld (Some (js "[]")) [] [] [] [0%Z; 1%Z] [] in
  fst (post_portfolios (Obj [(js "title", Str (js "My Site"))]) w)
  = Return (Response 201
              (Obj [ (js "success", Bool true);
                     (js "message", Str (js "Portfolio created successfully"));
                     (js "data", Obj [ (js "id", Str zero_id);
                               (js "title", Str (js "My Site"));
                               (js "createdAt", Str (js "1970-01-01T00:00:00.000Z"));
                               (js "updatedAt", Str (js "1970-01-01T00:00:00.001Z")) ]) ]))
  /\ first_reading w <> second_reading w
  /\ js "1970-01-01T00:00:00.000Z" <> js "1970-01-01T00:00:00.001Z".
Proof. split; [reflexivity | split; discriminate]. Qed.

(** A number literal that overflows is read as an infinity. *)
Example overflowing_literal :
  JSON_parse (js "{" ++ [QUOTE] ++ js "x" ++ [QUOTE] ++ js ": 1e999}")
  = Some (Obj [(js "x", Num (IntInfinity false))]).
Proof. reflexivity. Qed.

(** C9, as stated, fails: a record with an infinity in it is saved with
    [null] in its place, and loaded so. *)
Lemma infinity_is_saved_as_null :
  let record := Obj [ (js "id", Str zero_id); (js "x", Num (IntInfinity false));
                      (js "createdAt", Str epoch); (js "updatedAt", Str epoch) ] in
  new_record (Obj [(js "x", Num (IntInfinity false))]) empty_file = record
  /\ fst ((writePortfolios (Arr [record]) ;; readPortfolios) empty_file)
     = Return (Arr [ Obj [ (js "id", Str zero_id); (js "x", Null);
                           (js "createdAt", Str epoch); (js "updatedAt", Str epoch) ] ])
  /\ fst ((writePortfolios (Arr [record]) ;; readPortfolios) empty_file)
     <> Return (Arr [record]).
Proof.
  intros record.
  assert (E : fst ((writePortfolios (Arr [record]) ;; readPortfolios) empty_file)
              = Return (Arr [ Obj [ (js "id", Str zero_id); (js "x", Null);
                                    (js "createdAt", Str epoch);
                                    (js "updatedAt", Str epoch) ] ])) by reflexivity.
  split; [reflexivity|]. split; [exact E|]. rewrite E. unfold record. discriminate.
Qed.

(* ===================================================================== *)
(** ** Instances of the theorems *)


(** A create on a full disk. *)
Lemma write_failure_becomes_500_witness :
  let w1 := called ReadFile (disk disk_full) disk_full in
  let w2 := literal_evaluated w1 in
  let record := new_record my_site disk_full in
  (forall portfolios, fst (writePortfolios (Arr portfolios) w2) = Throw (fault_error ENOSPC))
  /\ fst (post_portfolios my_site disk_full)
     = Return (Response 500 (Obj [ (js "success", Bool false);
                                   (js "message", Str (js "Internal server error"));
                                   (js "error", Str (message (fault_error ENOSPC))) ])).
Proof.
  intros w1 w2 record.
  apply (@write_failure_becomes_500 _ my_site disk_full w1 w2 [] record ENOSPC);
    reflexivity.
Defined.

(** The delete of an id that neither of two records has. *)
Lemma delete_unknown_id_witness :
  let w := file_of [record_a; record_b] in
  let w1 := called ReadFile (disk w) w in
  delete_portfolio (js "c") w
  = (Return (Response 404 (Obj [ (js "success", Bool false);
                                 (js "message", Str (js "Portfolio not found")) ])), w1)
  /\ disk w1 = disk w
  /\ fs_calls w1 = fs_calls w ++ [ReadFile].
Proof.
  intros w w1.
  apply (@delete_unknown_id _ (js "c") w w1 [record_a; record_b]);
    [reflexivity | repeat constructor].
Defined.

(** The create of "My Site" on an empty file. *)
Lemma create_my_site_witness :
  fst (post_portfolios (Obj [(js "title", Str (js "My Site"))]) empty_file)
  = Return (Response 201
              (Obj [ (js "success", Bool true);
                     (js "message", Str (js "Portfolio created successfully"));
                     (js "data",
                      Obj [ (js "id", Str (generated_id empty_file));
                            (js "title", Str (js "My Site"));
                            (js "createdAt", Str (iso_format (first_reading empty_file)));
                            (js "updatedAt", Str (iso_format (second_reading empty_file))) ]) ]))
  /\ length (generated_id empty_file) = 36
  /\ is_iso8601 (iso_format (first_reading empty_file)) = true
  /\ is_iso8601 (iso_format (second_reading empty_file)) = true
  /\ (first_reading empty_file = second_reading empty_file ->
      iso_format (first_reading empty_file) = iso_format (second_reading empty_file)).
Proof.
  apply (@create_my_site _ empty_file [] (js "[]"));
    [constructor | reflexivity | reflexivity | reflexivity | reflexivity].
Defined.

(** The server on an empty file is ready. *)
Lemma ready_empty_file : ready empty_file [].
Proof.
  split; [constructor|]. split; [constructor|].
  exists (js "[]"). split; [reflexivity|]. split; [reflexivity | constructor].
Defined.

Lemma json_value_site_a : json_value site_a.
Proof. split; [reflexivity | cbn; auto]. Defined.

Lemma json_value_site_b : json_value site_b.
Proof. split; [reflexivity | cbn; auto]. Defined.

(** Two creates and a list on an empty file: the two records in the order
    of the creates, and the count 2. *)
Lemma creates_are_listed_in_order_witness :
  let record_of_a :=
    Obj [ (js "id", Str zero_id); (js "title", Str (js "A"));
          (js "createdAt", Str epoch); (js "updatedAt", Str epoch) ] in
  let record_of_b :=
    Obj [ (js "id", Str zero_id); (js "title", Str (js "B"));
          (js "stars", Num (IntFinite 5));
          (js "createdAt", Str epoch); (js "updatedAt", Str epoch) ] in
  fst (serve [POST_portfolios site_a; POST_portfolios site_b; GET_portfolios] empty_file)
  = Return
      [ Response 201
          (Obj [ (js "success", Bool true);
                 (js "message", Str (js "Portfolio created successfully"));
                 (js "data", record_of_a) ]);
        Response 201
          (Obj [ (js "success", Bool true);
                 (js "message", Str (js "Portfolio created successfully"));
                 (js "data", record_of_b) ]);
        Response 200
          (Obj [ (js "success", Bool true);
                 (js "message", Str (js "Portfolios retrieved successfully"));
                 (js "data", Arr [record_of_a; record_of_b]);
                 (js "count", Num (IntFinite 2)) ]) ]
  /\ forall w0 w1 data,
       readPortfolios w0 = (Return (Arr data), w1) ->
       fst (get_portfolios w0)
       = Return (Response 200
                   (Obj [ (js "success", Bool true);
                          (js "message", Str (js "Portfolios retrieved successfully"));
                          (js "data", Arr data);
                          (js "count", Num (NumberOfNat (length data))) ])).
Proof.
  exact (@creates_are_listed_in_order _ site_a site_b empty_file []
           ready_empty_file json_value_site_a json_value_site_b).
Defined.

(** Two records saved and loaded, and the server started again. *)
Lemma save_then_load_witness :
  fst ((writePortfolios (Arr [record_a; record_b]) ;; readPortfolios) empty_file)
  = Return (Arr [record_a; record_b])
  /\ exists w1,
       (writePortfolios (Arr [record_a; record_b]) ;; startServer) empty_file
       = (Return true, w1)
       /\ disk w1 = disk (snd (writePortfolios (Arr [record_a; record_b]) empty_file))
       /\ fst (readPortfolios w1) = Return (Arr [record_a; record_b])
       /\ fst (get_portfolios w1)
          = Return (Response 200
                      (Obj [ (js "success", Bool true);
                             (js "message", Str (js "Portfolios retrieved successfully"));
                             (js "data", Arr [record_a; record_b]);
                             (js "count", Num (IntFinite 2)) ])).
Proof.
  apply (@save_then_load _ [record_a; record_b] empty_file);
    [repeat constructor; cbn; auto | constructor].
Defined.

(* ===================================================================== *)
(** ** Further instances *)

Lemma ready_file_of_a_b : ready (file_of [record_a; record_b]) [record_a; record_b].
Proof.
  split; [constructor|]. split; [constructor|].
  eexists. split; [reflexivity|]. split; [reflexivity|].
  repeat constructor; cbn; auto.
Defined.

Lemma json_value_numbered : json_value numbered.
Proof. split; [reflexivity | cbn; auto]. Defined.

(** A restart on a file with two records. *)
Lemma startServer_keeps_an_existing_file_witness :
  let w := file_of [record_a; record_b] in
  exists w',
    startServer w = (Return true, w')
    /\ disk w' = Some (text_of w)
    /\ fs_calls w' = fs_calls w ++ [Access]
    /\ console w' = console w
    /\ forall l, ready w l -> ready w' l.
Proof.
  intros w.
  apply (@startServer_keeps_an_existing_file _ w (text_of w)); reflexivity.
Defined.

(** A start that cannot reach a file with two records. *)
Lemma rejected_access_resets_the_file_witness :
  exists w',
    initializeDataFile locked_file = (Return tt, w')
    /\ disk w' = Some (js "[]")
    /\ fs_calls w' = fs_calls locked_file ++ [Access; WriteFile (js "[]")]
    /\ (next_fault w' = None -> fst (readPortfolios w') = Return (Arr [])).
Proof.
  apply (@rejected_access_resets_the_file _ locked_file (fault_error EACCES)); reflexivity.
Defined.

(** The list of a file that is not JSON. *)
Lemma unreadable_file_lists_as_empty_witness :
  get_portfolios broken_file
  = (Return (Response 200
               (Obj [ (js "success", Bool true);
                      (js "message", Str (js "Portfolios retrieved successfully"));
                      (js "data", Arr []);
                      (js "count", Num (IntFinite 0)) ])),
     logged "Error reading portfolios:" (load_error broken_file)
            (called ReadFile (disk broken_file) broken_file)).
Proof.
  exact (@unreadable_file_lists_as_empty _ broken_file eq_refl).
Defined.

Lemma json_value_my_site : json_value my_site.
Proof. split; [reflexivity | cbn; auto]. Defined.

(** A create on a file that is not JSON. *)
Lemma create_replaces_an_unreadable_file_witness :
  exists text w',
    post_portfolios my_site broken_file
    = (Return (Response 201
                 (Obj [ (js "success", Bool true);
                        (js "message", Str (js "Portfolio created successfully"));
                        (js "data", new_record my_site broken_file) ])), w')
    /\ JSON_stringify (Arr [new_record my_site broken_file]) = Some text
    /\ disk w' = Some text
    /\ JSON_parse text = Some (Arr [new_record my_site broken_file]).
Proof.
  apply (@create_replaces_an_unreadable_file _ my_site broken_file);
    [reflexivity | reflexivity | reflexivity | reflexivity | exact json_value_my_site].
Defined.

(** A create and a delete on a file that holds an object. *)
Lemma non_array_file_blocks_writes_witness :
  (forall req_body,
     exists error,
       fst (post_portfolios req_body object_file) = Return (internal_server_error error)
       /\ disk (snd (post_portfolios req_body object_file)) = disk object_file)
  /\ (forall id,
        exists error,
          fst (delete_portfolio id object_file) = Return (internal_server_error error)
          /\ disk (snd (delete_portfolio id object_file)) = disk object_file).
Proof.
  apply (@non_array_file_blocks_writes _ object_file
           (called ReadFile (disk object_file) object_file) (Obj []));
    [reflexivity | discriminate].
Defined.

(** The delete of a record that comes after a [null]. *)
Lemma null_record_fails_the_delete_witness :
  let w := file_of [Null; record_a] in
  let w1 := called ReadFile (disk w) w in
  delete_portfolio (js "a") w
  = (Return (internal_server_error
               (TypeError "Cannot read properties of null (reading 'id')")),
     logged "Error deleting portfolio:"
            (TypeError "Cannot read properties of null (reading 'id')") w1)
  /\ disk w1 = disk w.
Proof.
  intros w w1.
  apply (@null_record_fails_the_delete _ (js "a") w w1 [] [record_a]);
    [reflexivity | constructor].
Defined.

(** The record of "My Site" at the epoch. *)
Lemma fields_of_a_new_record_witness :
  exists record,
    fst (newPortfolio my_site empty_file) = Return record
    /\ is_record record = true
    /\ (forall k,
          own record k
          = if jsstring_eqb k (js "updatedAt")
            then Some (Str (iso_format (second_reading empty_file)))
            else if jsstring_eqb k (js "createdAt")
            then Some (Str (iso_format (first_reading empty_file)))
            else match copied my_site k with
                 | Some v => Some v
                 | None => if jsstring_eqb k (js "id")
                           then Some (Str (generated_id empty_file)) else None
                 end)
    /\ is_iso8601 (iso_format (first_reading empty_file)) = true
    /\ is_iso8601 (iso_format (second_reading empty_file)) = true.
Proof.
  apply (@fields_of_a_new_record _ my_site empty_file); reflexivity.
Defined.

(** The record of a body with a title and a number. *)
Lemma fields_of_a_plain_body_keep_their_order_witness :
  portfolio_literal zero_id site_b epoch epoch
  = Obj [ (js "id", Str zero_id); (js "title", Str (js "B")); (js "stars", Num (IntFinite 5));
          (js "createdAt", Str epoch); (js "updatedAt", Str epoch) ].
Proof.
  apply (@fields_of_a_plain_body_keep_their_order IntegerNumbers zero_id
           [(js "title", Str (js "B")); (js "stars", @Num IntegerNumbers (IntFinite 5))]
           epoch epoch).
  - repeat constructor; cbn; intuition discriminate.
  - repeat constructor.
  - cbn; intuition discriminate.
  - cbn; intuition discriminate.
  - cbn; intuition discriminate.
Defined.

Lemma distinct_ids_a_b : distinct_ids [record_a; record_b].
Proof.
  unfold distinct_ids. repeat constructor; cbn; intuition discriminate.
Defined.

(** The delete of the first of two records, a list and the same delete. *)
Lemma deleted_record_is_gone_witness :
  let w := file_of [record_a; record_b] in
  exists r rest,
    fst (serve [DELETE_portfolio (js "a"); GET_portfolios; DELETE_portfolio (js "a")] w)
    = Return
        [ Response 200
            (Obj [ (js "success", Bool true);
                   (js "message", Str (js "Portfolio deleted successfully"));
                   (js "data", r) ]);
          Response 200
            (Obj [ (js "success", Bool true);
                   (js "message", Str (js "Portfolios retrieved successfully"));
                   (js "data", Arr rest);
                   (js "count", Num (NumberOfNat (length rest))) ]);
          Response 404
            (Obj [ (js "success", Bool false);
                   (js "message", Str (js "Portfolio not found")) ]) ]
    /\ (exists pre post, [record_a; record_b] = pre ++ r :: post /\ rest = pre ++ post)
    /\ own r (js "id") = Some (Str (js "a"))
    /\ length [record_a; record_b] = S (length rest)
    /\ Forall (fun portfolio => matches_id (js "a") portfolio = Return false) rest.
Proof.
  intros w.
  apply (@deleted_record_is_gone _ (js "a") w [record_a; record_b]).
  - exact ready_file_of_a_b.
  - exact distinct_ids_a_b.
  - repeat constructor.
  - apply Exists_cons_hd. reflexivity.
Defined.

(** A create on a file with two records, and the delete of its record. *)
Lemma create_then_delete_restores_witness :
  let w := file_of [record_a; record_b] in
  exists w',
    serve [POST_portfolios site_a; DELETE_portfolio (generated_id w)] w
    = (Return
         [ Response 201
             (Obj [ (js "success", Bool true);
                    (js "message", Str (js "Portfolio created successfully"));
                    (js "data", new_record site_a w) ]);
           Response 200
             (Obj [ (js "success", Bool true);
                    (js "message", Str (js "Portfolio deleted successfully"));
                    (js "data", new_record site_a w) ]) ], w')
    /\ ready w' [record_a; record_b].
Proof.
  intros w.
  apply (@create_then_delete_restores _ site_a w [record_a; record_b]);
    [exact ready_file_of_a_b | exact json_value_site_a | reflexivity | repeat constructor].
Defined.

(** A create with the id 5 and the delete of "5". *)
Lemma record_without_a_string_id_stays_witness :
  exists rs w' l',
    serve [POST_portfolios numbered; DELETE_portfolio (js "5")] empty_file = (Return rs, w')
    /\ ready w' l' /\ In (new_record numbered empty_file) l'.
Proof.
  apply (@record_without_a_string_id_stays _ numbered (@Num IntegerNumbers (IntFinite 5)) (js "5")
           empty_file []);
    [exact ready_empty_file | exact json_value_numbered | reflexivity | discriminate].
Defined.

(** A server started with no file, and three requests. *)
Lemma server_keeps_its_collection_witness :
  let reqs := [POST_portfolios site_a; GET_portfolios; DELETE_portfolio zero_id] in
  exists w0 rs w' l',
    startServer fresh_world = (Return true, w0)
    /\ serve reqs w0 = (Return rs, w')
    /\ (started <- startServer ;; if started then serve reqs else ret []) fresh_world
       = (Return rs, w')
    /\ Forall2 (fun req r => route_answer req r /\ status r <> 500) reqs rs
    /\ ready w' l'
    /\ Forall (fun portfolio => is_record portfolio = true) l'.
Proof.
  intros reqs.
  apply (@server_keeps_its_collection _ reqs fresh_world).
  - constructor.
  - constructor.
  - left. reflexivity.
  - constructor; [exact json_value_site_a | repeat constructor].
Defined.

(** Two creates on an empty file. *)
Lemma creates_append_one_record_each_witness :
  exists records w',
    serve (map POST_portfolios [site_a; site_b]) empty_file
    = (Return
         (map (fun record =>
                 Response 201
                   (Obj [ (js "success", Bool true);
                          (js "message", Str (js "Portfolio created successfully"));
                          (js "data", record) ]))
              records), w')
    /\ Forall2 (fun req_body record => exists w0, record = new_record req_body w0)
               [site_a; site_b] records
    /\ ready w' ([] ++ records)
    /\ fst (get_portfolios w')
       = Return (Response 200
                   (Obj [ (js "success", Bool true);
                          (js "message", Str (js "Portfolios retrieved successfully"));
                          (js "data", Arr ([] ++ records));
                          (js "count", Num (IntFinite 2)) ])).
Proof.
  apply (@creates_append_one_record_each _ [site_a; site_b] empty_file []).
  - exact ready_empty_file.
  - constructor; [exact json_value_site_a|].
    constructor; [exact json_value_site_b | constructor].
Defined.

(** The delete of a record on a full disk. *)
Lemma delete_write_failure_becomes_500_witness :
  fst (delete_portfolio (js "b") full_disk_with_records)
  = Return (internal_server_error (fault_error ENOSPC)).
Proof.
  apply (@delete_write_failure_becomes_500 _ (js "b") full_disk_with_records
           (called ReadFile (disk full_disk_with_records) full_disk_with_records)
           [record_a] record_b []);
    [reflexivity | repeat constructor | reflexivity | reflexivity].
Defined.

(** A record with an infinity, saved and loaded. *)
Lemma save_then_load_image_witness :
  let record := Obj [(js "id", Str (js "a")); (js "x", Num (IntInfinity false))] in
  fst ((writePortfolios (Arr [record]) ;; readPortfolios) empty_file)
  = Return (Arr (map json_image [record])).
Proof.
  intros record.
  apply (@save_then_load_image _ [record] empty_file); [reflexivity | constructor].
Defined.

(** A create on a file with two records, whose ids the generated one is
    not. *)
Lemma distinct_ids_preserved_witness :
  let w := file_of [record_a; record_b] in
  exists l', ready (snd (handle (POST_portfolios site_a) w)) l' /\ distinct_ids l'.
Proof.
  intros w.
  apply (@distinct_ids_preserved _ (POST_portfolios site_a) w [record_a; record_b]).
  - exact ready_file_of_a_b.
  - exact distinct_ids_a_b.
  - split; [exact json_value_site_a|]. split; [reflexivity|].
    cbn. intros [H|[H|[]]]; discriminate.
Defined.

(** A body of two elements. *)
Lemma record_of_an_array_body_witness :
  portfolio_literal zero_id (Arr [Str (js "x"); Bool true]) epoch epoch
  = Obj [ (js "0", Str (js "x")); (js "1", Bool true); (js "id", Str zero_id);
         (js "createdAt", Str epoch); (js "updatedAt", Str epoch) ].
Proof.
  apply (@record_of_an_array_body IntegerNumbers zero_id [Str (js "x"); Bool true] epoch epoch).
  cbn. lia.
Defined.

(** Two creates in flight on an empty file. *)
Lemma interleaved_creates_lose_a_record_witness :
  (forall req_body w0,
     (p <- post_portfolios_begin req_body ;; settle p) w0 = post_portfolios req_body w0)
  /\ exists w',
       (first <- post_portfolios_begin site_a ;;
        second <- post_portfolios_begin site_b ;;
        r1 <- settle first ;;
        r2 <- settle second ;;
        ret [r1; r2]) empty_file
       = (Return
            [ Response 201
                (Obj [ (js "success", Bool true);
                       (js "message", Str (js "Portfolio created successfully"));
                       (js "data", new_record site_a empty_file) ]);
              Response 201
                (Obj [ (js "success", Bool true);
                       (js "message", Str (js "Portfolio created successfully"));
                       (js "data", new_record site_b (literal_evaluated empty_file)) ]) ], w')
       /\ ready w' ([] ++ [new_record site_b (literal_evaluated empty_file)]).
Proof.
  apply (@interleaved_creates_lose_a_record _ site_a site_b empty_file []);
    [exact ready_empty_file | exact json_value_site_a | exact json_value_site_b].
Defined.

(** A delete and a create in flight on a file with two records. *)
Lemma interleaved_create_undoes_a_delete_witness :
  let w := file_of [record_a; record_b] in
  (forall id0 w0, (p <- delete_portfolio_begin id0 ;; settle p) w0 = delete_portfolio id0 w0)
  /\ exists w',
       (first <- delete_portfolio_begin (js "a") ;;
        second <- post_portfolios_begin site_a ;;
        r1 <- settle first ;;
        r2 <- settle second ;;
        ret [r1; r2]) w
       = (Return
            [ Response 200
                (Obj [ (js "success", Bool true);
                       (js "message", Str (js "Portfolio deleted successfully"));
                       (js "data", record_a) ]);
              Response 201
                (Obj [ (js "success", Bool true);
                       (js "message", Str (js "Portfolio created successfully"));
                       (js "data", new_record site_a w) ]) ], w')
       /\ ready w' ([] ++ record_a :: [record_b] ++ [new_record site_a w]).
Proof.
  intros w.
  apply (@interleaved_create_undoes_a_delete _ (js "a") site_a w [] record_a [record_b]);
    [exact ready_file_of_a_b | exact json_value_site_a | constructor | reflexivity].
Defined.
